(** * CMS BFF: the encoding-aware FTP bridge of [backend/main.py]

    A shallow embedding of the helpers [safe_path], [extract_meta_charset],
    [normalize_encoding], [is_text_file], the context manager
    [ftp_connection] and the endpoints [ftp_read] and [ftp_write], together
    with the properties of the bridge.

    Conventions.  Paths and encoding names are Python [str] values made of
    8-bit characters and are modelled by [string]; file payloads are
    [bytes], modelled by [list byte]; the text of a document is a list of
    Unicode code points.  The standard-library functions the source calls
    ([os.path.normpath], [os.path.splitext], [re.search], [str.encode],
    [bytes.decode], [base64.b64encode]) follow their POSIX / CPython
    behaviour; the collaborators that are outside the repository (the
    statistical detector, the MIME table, the remote FTP server and the
    codec tables) are parameters. *)

From Stdlib Require Import List String Ascii Bool Arith NArith ZArith Lia.
From Stdlib Require Import Strings.Byte.
From Stdlib Require QArith DecimalString.
Import ListNotations.

Set Warnings "-abstract-large-number".

Local Open Scope list_scope.
Local Open Scope string_scope.

(* ================================================================== *)
(** * Python [str] methods used by the source *)

Module PyStr.

(** [s.startswith(p)] *)
Definition startswith (p s : string) : bool := String.prefix p s.

(** [sub in s] *)
Fixpoint contains (sub s : string) : bool :=
  startswith sub s ||
  match s with
  | EmptyString => false
  | String _ s' => contains sub s'
  end.

(** [s.replace(a, b)] for one-character [a] and [b]. *)
Fixpoint replace (a b : ascii) (s : string) : string :=
  match s with
  | EmptyString => EmptyString
  | String c s' => String (if Ascii.eqb c a then b else c) (replace a b s')
  end.

(** [s.lstrip(c)] for a one-character [c]. *)
Fixpoint lstrip (c : ascii) (s : string) : string :=
  match s with
  | String x s' => if Ascii.eqb x c then lstrip c s' else s
  | EmptyString => EmptyString
  end.

(** [s.rstrip(c)] for a one-character [c]. *)
Fixpoint rstrip (c : ascii) (s : string) : string :=
  match s with
  | EmptyString => EmptyString
  | String x s' =>
      match rstrip c s' with
      | EmptyString => if Ascii.eqb x c then EmptyString else String x EmptyString
      | r => String x r
      end
  end.

(** [s.split(c)]: never empty, [''.split('/') == ['']]. *)
Fixpoint split (c : ascii) (s : string) : list string :=
  match s with
  | EmptyString => [EmptyString]
  | String x s' =>
      if Ascii.eqb x c then EmptyString :: split c s'
      else match split c s' with
           | h :: t => String x h :: t
           | [] => [String x EmptyString]
           end
  end.

(** [sep.join(l)] *)
Fixpoint join (sep : string) (l : list string) : string :=
  match l with
  | [] => EmptyString
  | [x] => x
  | x :: l' => x ++ sep ++ join sep l'
  end.

(** [sep * n] *)
Fixpoint times (sep : string) (n : nat) : string :=
  match n with
  | O => EmptyString
  | S n' => sep ++ times sep n'
  end.

Definition is_upper (c : ascii) : bool :=
  let n := nat_of_ascii c in ((65 <=? n) && (n <=? 90))%nat.

Definition lower_char (c : ascii) : ascii :=
  if is_upper c then ascii_of_nat (nat_of_ascii c + 32) else c.

(** [s.lower()]; characters above 127 are left as they are. *)
Fixpoint lower (s : string) : string :=
  match s with
  | EmptyString => EmptyString
  | String c s' => String (lower_char c) (lower s')
  end.

(** The characters [str.isspace] accepts below 128; they are also the
    class [\s] of [re] on a [str] pattern. *)
Definition isspace (c : ascii) : bool :=
  let n := nat_of_ascii c in
  (((9 <=? n) && (n <=? 13)) || ((28 <=? n) && (n <=? 32)))%nat.

Fixpoint lstrip_space (s : string) : string :=
  match s with
  | String x s' => if isspace x then lstrip_space s' else s
  | EmptyString => EmptyString
  end.

Fixpoint rstrip_space (s : string) : string :=
  match s with
  | EmptyString => EmptyString
  | String x s' =>
      match rstrip_space s' with
      | EmptyString => if isspace x then EmptyString else String x EmptyString
      | r => String x r
      end
  end.

(** [s.strip()] *)
Definition strip (s : string) : string := rstrip_space (lstrip_space s).

(** Python truthiness of an optional string: [x or d]. *)
Definition or_else (x : option string) (d : string) : string :=
  match x with
  | Some EmptyString | None => d
  | Some s => s
  end.

End PyStr.

(* ================================================================== *)
(** * [os.path] on the POSIX deployment target *)

Module PosixPath.
Import PyStr.

Definition is_nil {A} (l : list A) : bool :=
  match l with [] => true | _ => false end.

(** One iteration of the loop of [normpath] over the components. *)
Definition normpath_step (initial_slashes : nat) (new_comps : list string)
    (comp : string) : list string :=
  if (comp =? "") || (comp =? ".") then new_comps
  else if negb (comp =? "..")
          || ((initial_slashes =? 0)%nat && is_nil new_comps)
          || (negb (is_nil new_comps) && (last new_comps "" =? ".."))
  then (new_comps ++ [comp])%list
  else if negb (is_nil new_comps) then removelast new_comps
  else new_comps.

(** [posixpath.normpath] *)
Definition normpath (path : string) : string :=
  if path =? "" then "."
  else
    let initial_slashes :=
      if startswith "/" path then
        if startswith "//" path && negb (startswith "///" path) then 2 else 1
      else 0 in
    let comps := split "/" path in
    let new_comps := fold_left (normpath_step initial_slashes) comps [] in
    let path1 := join "/" new_comps in
    let path2 := times "/" initial_slashes ++ path1 in
    if path2 =? "" then "." else path2.

End PosixPath.

(* ================================================================== *)
(** * Errors *)

(** The exceptions in flight in the endpoints. *)
Inductive Detail : Type :=
| InvalidPathMsg                       (* "Invalid path" *)
| EncodeMsg (encoding : string)        (* the message naming the encoding *)
| FtpReadMsg (e : string)              (* the read fault and its description *)
| FtpWriteMsg (e : string)             (* the write fault and its description *)
| Unhandled.                           (* an exception no handler caught *)

Record HTTPException : Type := HTTPExc { status_code : nat; detail : Detail }.

Definition InvalidPath : HTTPException := HTTPExc 400 InvalidPathMsg.

(* ================================================================== *)
(** * The path sanitizer *)

Section Sanitizer.
Import PyStr PosixPath.

(** The process configuration, [FTP_BASE]. *)
Variable FTP_BASE : string.

Definition normalized_of (path : string) : string :=
  replace "\" "/" (normpath path).

Definition safe_path (path : string) : HTTPException + string :=
  let normalized := normalized_of path in
  if startswith ".." normalized || contains "/../" normalized
  then inl InvalidPath
  else inr (rstrip "/" FTP_BASE ++ "/" ++ lstrip "/" normalized).

End Sanitizer.

(* ================================================================== *)
(** * The fragment of [re] the source uses

    A pattern is a sequence of atoms over character classes; [re.search]
    tries every start position from the left and, at each one, matches
    greedily with backtracking.  The flag [re.I] makes literals compare
    without regard to case (no class of the source contains a letter). *)

Module Re.
Import PyStr.

Definition cclass := ascii -> bool.

Inductive atom : Type :=
| Lit (l : string)     (* literal text *)
| One (c : cclass)     (* [c] *)
| Opt (c : cclass)     (* [c]? *)
| Star (c : cclass)    (* [c]* *)
| Plus (c : cclass)    (* [c]+ *)
| Group (c : cclass).  (* ([c]+), the capturing group *)

Definition pattern := list atom.

(** The literal [l] at the front of [s], case-insensitively; the rest. *)
Fixpoint skip_lit (l s : string) : option string :=
  match l, s with
  | EmptyString, _ => Some s
  | String a l', String x s' =>
      if Ascii.eqb (lower_char a) (lower_char x) then skip_lit l' s' else None
  | String _ _, EmptyString => None
  end.

(** [c]* followed by the continuation [k]: the longest run first, then
    shorter ones. *)
Fixpoint star_bt (c : cclass) (k : string -> option string) (s : string)
  : option string :=
  match s with
  | String x s' =>
      if c x then
        match star_bt c k s' with
        | Some r => Some r
        | None => k s
        end
      else k s
  | EmptyString => k s
  end.

(** The same for the capturing group; [acc] is the text captured so far. *)
Fixpoint group_bt (c : cclass) (k : string -> string -> option string)
    (acc s : string) : option string :=
  match s with
  | String x s' =>
      if c x then
        match group_bt c k (acc ++ String x EmptyString) s' with
        | Some r => Some r
        | None => k acc s
        end
      else k acc s
  | EmptyString => k acc s
  end.

(** Match [p] at the front of [s]; the result is the text of group 1. *)
Fixpoint match_here (p : pattern) (cap : string) (s : string) {struct p}
  : option string :=
  match p with
  | [] => Some cap
  | Lit l :: p' =>
      match skip_lit l s with
      | Some s' => match_here p' cap s'
      | None => None
      end
  | One c :: p' =>
      match s with
      | String x s' => if c x then match_here p' cap s' else None
      | EmptyString => None
      end
  | Opt c :: p' =>
      match s with
      | String x s' =>
          if c x then
            match match_here p' cap s' with
            | Some r => Some r
            | None => match_here p' cap s
            end
          else match_here p' cap s
      | EmptyString => match_here p' cap s
      end
  | Star c :: p' => star_bt c (match_here p' cap) s
  | Plus c :: p' =>
      match s with
      | String x s' => if c x then star_bt c (match_here p' cap) s' else None
      | EmptyString => None
      end
  | Group c :: p' =>
      match s with
      | String x s' =>
          if c x then group_bt c (match_here p') (String x EmptyString) s'
          else None
      | EmptyString => None
      end
  end.

(** [re.search(p, s, re.I)] followed by [.group(1)] *)
Fixpoint search (p : pattern) (s : string) : option string :=
  match match_here p EmptyString s with
  | Some r => Some r
  | None =>
      match s with
      | String _ s' => search p s'
      | EmptyString => None
      end
  end.


(** ** Predicates on patterns, for the properties *)

(** Every character of the string is in the class. *)
Fixpoint all_chars (c : cclass) (s : string) : bool :=
  match s with
  | EmptyString => true
  | String x s' => c x && all_chars c s'
  end.

(** An atom other than the group. *)
Definition groupless (a : atom) : Prop :=
  match a with Group _ => False | _ => True end.

(** The class of the characters that are not white space. *)
Definition nonspace (x : ascii) : bool := negb (isspace x).

(** A class that does not tell a letter from its other case. *)
Definition ci (c : cclass) : Prop := forall x, c (lower_char x) = c x.

Definition ci_atom (a : atom) : Prop :=
  match a with
  | Lit _ => True
  | One c | Opt c | Star c | Plus c | Group c => ci c
  end.

(** Two optional captures that agree up to case. *)
Definition agree (o1 o2 : option string) : Prop :=
  option_map lower o1 = option_map lower o2.

End Re.

(* ================================================================== *)
(** * The embedded declaration *)

Definition bytes := list byte.

Definition is_ascii_byte (b : byte) : bool := (Byte.to_N b <? 128)%N.

(** [head.decode("ascii", errors="ignore")] *)
Definition decode_ascii_ignore (head : bytes) : string :=
  string_of_list_byte (filter is_ascii_byte head).

(** The double quote character. *)
Definition dquote : ascii := ascii_of_nat 34.

Definition is_quote (c : ascii) : bool := Ascii.eqb c dquote || Ascii.eqb c "'".

(** The first pattern, with [Q] for the class of the two quote characters:
    [<meta[^>]+charset=Q?([^Q\s;>]+)] *)
Definition meta_charset_re : Re.pattern :=
  [ Re.Lit "<meta";
    Re.Plus (fun c => negb (Ascii.eqb c ">"));
    Re.Lit "charset=";
    Re.Opt is_quote;
    Re.Group (fun c => negb (is_quote c || PyStr.isspace c
                             || Ascii.eqb c ";" || Ascii.eqb c ">")) ].

(** The second pattern: [content=Q[^Q]*charset=([^Q\s;]+)] *)
Definition http_equiv_re : Re.pattern :=
  [ Re.Lit "content=";
    Re.One is_quote;
    Re.Star (fun c => negb (is_quote c));
    Re.Lit "charset=";
    Re.Group (fun c => negb (is_quote c || PyStr.isspace c
                             || Ascii.eqb c ";")) ].

(** The [try] around the decoding of the head has nothing to catch, since
    [errors="ignore"] never raises; the model has no such branch. *)
Definition extract_meta_charset (raw : bytes) : option string :=
  let head := firstn 4096 raw in
  let snippet := decode_ascii_ignore head in
  match Re.search meta_charset_re snippet with
  | Some g => Some (PyStr.lower (PyStr.strip g))
  | None =>
      match Re.search http_equiv_re snippet with
      | Some g => Some (PyStr.lower (PyStr.strip g))
      | None => None
      end
  end.

(* ================================================================== *)
(** * The alias table *)

Definition ENCODING_ALIASES : list (string * string) :=
  [ ("shift_jis", "cp932");
    ("shiftjis", "cp932");
    ("sjis", "cp932");
    ("euc-jp", "euc_jp");
    ("eucjp", "euc_jp") ].

(** [d.get(k)] on a dictionary literal. *)
Fixpoint dict_get (d : list (string * string)) (k : string) : option string :=
  match d with
  | [] => None
  | (k', v) :: d' => if k' =? k then Some v else dict_get d' k
  end.

Definition normalize_encoding (enc : string) : string :=
  match dict_get ENCODING_ALIASES (PyStr.replace "-" "_" (PyStr.lower enc)) with
  | Some v => v
  | None => enc
  end.

(* ================================================================== *)
(** * Text or binary *)

Definition TEXT_EXTENSIONS : list string :=
  [ ".html"; ".htm"; ".css"; ".js"; ".json"; ".xml";
    ".txt"; ".csv"; ".svg"; ".md"; ".php" ].

Module Splitext.

(** [p.rfind(c)], [-1] when [c] does not occur. *)
Fixpoint rfind_from (c : ascii) (p : string) (i : Z) : Z :=
  match p with
  | EmptyString => (-1)%Z
  | String x p' =>
      let r := rfind_from c p' (i + 1)%Z in
      if (0 <=? r)%Z then r else if Ascii.eqb x c then i else (-1)%Z
  end.

Definition rfind (c : ascii) (p : string) : Z := rfind_from c p 0%Z.

(** The loop of [genericpath._splitext] that skips the leading dots of the
    file name: is there a character other than [.] in [p[lo:hi]]? *)
Definition has_non_dot (p : string) (lo hi : Z) : bool :=
  existsb (fun ch => negb (Ascii.eqb ch "."))
          (list_ascii_of_string
             (substring (Z.to_nat lo) (Z.to_nat (hi - lo)) p)).

(** [os.path.splitext(p)[1]] *)
Definition ext (p : string) : string :=
  let sepIndex := rfind "/" p in
  let dotIndex := rfind "." p in
  if (sepIndex <? dotIndex)%Z && has_non_dot p (sepIndex + 1)%Z dotIndex
  then substring (Z.to_nat dotIndex) (String.length p - Z.to_nat dotIndex) p
  else EmptyString.

End Splitext.

Definition is_text_file (path : string) : bool :=
  let ext := PyStr.lower (Splitext.ext path) in
  existsb (String.eqb ext) TEXT_EXTENSIONS.

(* ================================================================== *)
(** * [base64.b64encode] *)

Module Base64.

Definition alphabet : string :=
  "ABCDEFGHIJKLMNOPQRSTUVWXYZabcdefghijklmnopqrstuvwxyz0123456789+/".

Definition digit (n : N) : ascii :=
  match String.get (N.to_nat n) alphabet with
  | Some c => c
  | None => "="%char
  end.

Fixpoint b64encode (l : bytes) : string :=
  match l with
  | [] => EmptyString
  | [a] =>
      let n := (Byte.to_N a * 65536)%N in
      String (digit (n / 262144)) (String (digit ((n / 4096) mod 64)) "==")
  | [a; b] =>
      let n := (Byte.to_N a * 65536 + Byte.to_N b * 256)%N in
      String (digit (n / 262144)) (String (digit ((n / 4096) mod 64))
        (String (digit ((n / 64) mod 64)) "="))
  | a :: b :: c :: rest =>
      let n := (Byte.to_N a * 65536 + Byte.to_N b * 256 + Byte.to_N c)%N in
      String (digit (n / 262144)) (String (digit ((n / 4096) mod 64))
        (String (digit ((n / 64) mod 64)) (String (digit (n mod 64))
          (b64encode rest))))
  end.

End Base64.

(* ================================================================== *)
(** * The text codec layer

    What [str.encode(name, errors="strict")] and
    [bytes.decode(name, errors="replace")] do is the business of the
    platform: the lookup of the name can raise, and the codec that is found
    can raise, each with an exception of its own choice.  Most codecs work
    one character at a time; those are given as a [CharCodec], an encoder
    of single code points and a decoder automaton.  A codec that writes a
    byte order mark, switches with escape sequences or refuses every call
    is not of that shape and enters the layer as a [Codec] of its own. *)

Definition codepoint := N.
Definition text := list codepoint.
Definition REPLACEMENT : codepoint := 65533%N.   (* U+FFFD *)

(** The exceptions of the layer.  The handlers of the source name
    [UnicodeEncodeError], [UnicodeDecodeError] and [LookupError]; a plain
    [UnicodeError] (the base class of the first two) and a [ValueError]
    are caught by neither handler. *)
Inductive CodecError : Type :=
| LookupError
| UnicodeEncodeError
| UnicodeDecodeError
| UnicodeError
| ValueError.

(** A codec, once its name was found. *)
Record Codec : Type := {
  codec_encode : text -> CodecError + bytes;   (* errors="strict" *)
  codec_decode : bytes -> CodecError + text    (* errors="replace" *)
}.

(** ** Codecs that work one character at a time

    Such a codec encodes one code point at a time and decodes with an
    automaton fed one byte at a time.  Encoding is strict: a code point
    without an encoding makes the whole call fail.  Decoding is lenient:
    the automaton itself emits [REPLACEMENT] for a malformed sequence and
    goes on, which is the policy [errors="replace"]. *)

Record CharCodec : Type := {
  enc_char : codepoint -> option bytes;
  dstate : Type;
  dinit : dstate;
  dfeed : dstate -> byte -> dstate * text;
  dflush : dstate -> text
}.

(** The strict encoder of a character codec: the encodings of the code
    points one after the other, or nothing when one of them has none. *)
Fixpoint encode_strict (c : CharCodec) (t : text) : option bytes :=
  match t with
  | [] => Some []
  | cp :: t' =>
      match enc_char c cp with
      | None => None
      | Some bs =>
          match encode_strict c t' with
          | None => None
          | Some rest => Some (bs ++ rest)%list
          end
      end
  end.

Fixpoint decode_from (c : CharCodec) (st : dstate c) (raw : bytes) : text :=
  match raw with
  | [] => dflush c st
  | x :: raw' =>
      let (st', out) := dfeed c st x in
      (out ++ decode_from c st' raw')%list
  end.

(** The lenient decoder of a character codec. *)
Definition decode_replace (c : CharCodec) (raw : bytes) : text :=
  decode_from c (dinit c) raw.

(** A character codec as a codec of the layer: a code point without an
    encoding is reported with [UnicodeEncodeError], and the lenient decoder
    never raises. *)
Definition of_chars (c : CharCodec) : Codec := {|
  codec_encode := fun t =>
    match encode_strict c t with
    | None => inl UnicodeEncodeError
    | Some bs => inr bs
    end;
  codec_decode := fun raw => inr (decode_replace c raw)
|}.

Section CodecLayer.

(** The lookup of a codec by name: the exception the lookup raises, or
    the codec.  A [ValueError] is the refusal of a malformed name (one
    with a NUL character), which is raised when the arguments of the call
    are read, before anything else. *)
Variable codecs : string -> CodecError + Codec.

(** [t.encode(name, errors="strict")] *)
Definition str_encode (name : string) (t : text) : CodecError + bytes :=
  match codecs name with
  | inl e => inl e
  | inr c => codec_encode c t
  end.

(** [raw.decode(name, errors="replace")].  Once the name is accepted as
    an argument, an empty payload decodes to the empty text without the
    codec being looked up. *)
Definition bytes_decode (name : string) (raw : bytes) : CodecError + text :=
  match codecs name with
  | inl ValueError => inl ValueError
  | found =>
      match raw with
      | [] => inr []
      | _ :: _ =>
          match found with
          | inl e => inl e
          | inr c => codec_decode c raw
          end
      end
  end.

End CodecLayer.

(** ** Some codecs of the platform *)

Module Codecs.

Definition byte_of (n : N) : byte :=
  match Byte.of_N n with
  | Some x => x
  | None => x00
  end.

(** *** ascii *)
Definition ascii_codec : CharCodec := {|
  enc_char := fun cp => if (cp <? 128)%N then Some [byte_of cp] else None;
  dstate := unit;
  dinit := tt;
  dfeed := fun _ x =>
    (tt, [if (Byte.to_N x <? 128)%N then Byte.to_N x else REPLACEMENT]);
  dflush := fun _ => []
|}.

(** *** latin-1 *)
Definition latin1_codec : CharCodec := {|
  enc_char := fun cp => if (cp <? 256)%N then Some [byte_of cp] else None;
  dstate := unit;
  dinit := tt;
  dfeed := fun _ x => (tt, [Byte.to_N x]);
  dflush := fun _ => []
|}.

(** *** utf-8 *)
Definition utf8_enc (cp : codepoint) : option bytes :=
  (if cp <? 128 then Some [byte_of cp]
   else if cp <? 2048 then
     Some [byte_of (192 + cp / 64); byte_of (128 + cp mod 64)]
   else if cp <? 65536 then
     if (55296 <=? cp) && (cp <? 57344) then None      (* a surrogate *)
     else Some [byte_of (224 + cp / 4096);
                byte_of (128 + (cp / 64) mod 64);
                byte_of (128 + cp mod 64)]
   else if cp <? 1114112 then
     Some [byte_of (240 + cp / 262144);
           byte_of (128 + (cp / 4096) mod 64);
           byte_of (128 + (cp / 64) mod 64);
           byte_of (128 + cp mod 64)]
   else None)%N.

(** The decoder is between characters, or inside one: [need] more
    continuation bytes, the next one within [lo..hi]. *)
Inductive utf8_state : Type :=
| Idle
| Pending (need : nat) (acc lo hi : N).

Definition utf8_start (x : N) : utf8_state * text :=
  (if x <? 128 then (Idle, [x])
   else if x <? 194 then (Idle, [REPLACEMENT])
   else if x <? 224 then (Pending 0 (x - 192) 128 191, [])
   else if x <? 240 then
     (Pending 1 (x - 224)
              (if x =? 224 then 160 else 128)
              (if x =? 237 then 159 else 191), [])
   else if x <? 245 then
     (Pending 2 (x - 240)
              (if x =? 240 then 144 else 128)
              (if x =? 244 then 143 else 191), [])
   else (Idle, [REPLACEMENT]))%N.

Definition utf8_feed (st : utf8_state) (b : byte) : utf8_state * text :=
  let x := Byte.to_N b in
  match st with
  | Idle => utf8_start x
  | Pending need acc lo hi =>
      if ((lo <=? x) && (x <=? hi))%N then
        let acc' := (acc * 64 + (x - 128))%N in
        match need with
        | O => (Idle, [acc'])
        | S need' => (Pending need' acc' 128 191, [])
        end
      else
        let (st', out) := utf8_start x in
        (st', REPLACEMENT :: out)
  end.

Definition utf8_codec : CharCodec := {|
  enc_char := utf8_enc;
  dstate := utf8_state;
  dinit := Idle;
  dfeed := utf8_feed;
  dflush := fun st => match st with Idle => [] | Pending _ _ _ _ => [REPLACEMENT] end
|}.

(** *** cp932, an excerpt of the table: the ASCII range and the byte pair
    81 60, which both U+301C WAVE DASH and U+FF5E FULLWIDTH TILDE are
    encoded to and which decodes to U+FF5E. *)
Definition cp932_enc (cp : codepoint) : option bytes :=
  (if cp <? 128 then Some [byte_of cp]
   else if (cp =? 12316) || (cp =? 65374) then Some [byte_of 129; byte_of 96]
   else None)%N.

Definition cp932_start (x : N) : bool * text :=
  (if x <? 128 then (false, [x])
   else if x =? 129 then (true, [])
   else (false, [REPLACEMENT]))%N.

Definition cp932_feed (lead : bool) (b : byte) : bool * text :=
  let x := Byte.to_N b in
  if lead then
    if (x =? 96)%N then (false, [65374%N])
    else let (st', out) := cp932_start x in (st', REPLACEMENT :: out)
  else cp932_start x.

Definition cp932_codec : CharCodec := {|
  enc_char := cp932_enc;
  dstate := bool;
  dinit := false;
  dfeed := cp932_feed;
  dflush := fun lead => if lead then [REPLACEMENT] else []
|}.

(** *** utf-8-sig: the encoder writes the signature EF BB BF before the
    utf-8 encoding of the text; the decoder drops one signature at the
    front, when there is one, and decodes the rest as utf-8. *)
Definition BOM_UTF8 : bytes := [byte_of 239; byte_of 187; byte_of 191].

Definition starts_with_bom (raw : bytes) : bool :=
  match raw with
  | a :: b :: c :: _ =>
      (Byte.to_N a =? 239)%N && (Byte.to_N b =? 187)%N && (Byte.to_N c =? 191)%N
  | _ => false
  end.

Definition utf_8_sig_codec : Codec := {|
  codec_encode := fun t =>
    match encode_strict utf8_codec t with
    | None => inl UnicodeEncodeError
    | Some bs => inr (BOM_UTF8 ++ bs)%list
    end;
  codec_decode := fun raw =>
    inr (decode_replace utf8_codec
           (if starts_with_bom raw then skipn 3 raw else raw))
|}.

(** *** undefined: the codec whose every call raises [UnicodeError]. *)
Definition undefined_codec : Codec := {|
  codec_encode := fun _ => inl UnicodeError;
  codec_decode := fun _ => inl UnicodeError
|}.

(** The lookup of the platform.  A name with a NUL character is refused
    with [ValueError]; otherwise the name is lower-cased and its hyphens
    and spaces become underscores before the table is searched, and a
    name that is not in the table is refused with [LookupError]. *)
Definition lookup_key (name : string) : string :=
  PyStr.replace " " "_" (PyStr.replace "-" "_" (PyStr.lower name)).

Definition has_nul (name : string) : bool :=
  negb (Re.all_chars (fun c => negb (Ascii.eqb c zero)) name).

Definition known : list (string * Codec) :=
  [ ("utf_8", of_chars utf8_codec); ("utf8", of_chars utf8_codec);
    ("u8", of_chars utf8_codec);
    ("ascii", of_chars ascii_codec); ("us_ascii", of_chars ascii_codec);
    ("latin_1", of_chars latin1_codec); ("latin1", of_chars latin1_codec);
    ("iso_8859_1", of_chars latin1_codec); ("iso8859_1", of_chars latin1_codec);
    ("cp932", of_chars cp932_codec); ("ms932", of_chars cp932_codec);
    ("utf_8_sig", utf_8_sig_codec);
    ("undefined", undefined_codec) ].

Fixpoint assoc (l : list (string * Codec)) (k : string) : option Codec :=
  match l with
  | [] => None
  | (k', c) :: l' => if k' =? k then Some c else assoc l' k
  end.

Definition lookup (name : string) : CodecError + Codec :=
  if has_nul name then inl ValueError
  else match assoc known (lookup_key name) with
       | Some c => inr c
       | None => inl LookupError
       end.

End Codecs.

(* ================================================================== *)
(** * The remote session

    The FTP server is a store of files and a journal of what clients did
    to it; [Faults] says which client calls fail and with what message. *)

Inductive FtpEvent : Type :=
| Connected (host : string)
| LoggedIn (user pass : string)
| Downloaded (path : string)
| Uploaded (path : string) (data : bytes)
| Closed.

Record Remote : Type := {
  files : list (string * bytes);
  journal : list FtpEvent
}.

Record Faults : Type := {
  connect_fault : option string;
  login_fault : option string;
  transfer_fault : option string;
  quit_fault : option string
}.

Fixpoint lookup_file (fs : list (string * bytes)) (path : string) : option bytes :=
  match fs with
  | [] => None
  | (p, data) :: fs' => if p =? path then Some data else lookup_file fs' path
  end.

(** Computations on the remote side: a state, and an exception or a value. *)
Definition M (A : Type) : Type := Remote -> (string + A) * Remote.

Definition ret {A} (a : A) : M A := fun r => (inr a, r).
Definition raise {A} (e : string) : M A := fun r => (inl e, r).
Definition bind {A B} (m : M A) (k : A -> M B) : M B :=
  fun r => match m r with
           | (inl e, r') => (inl e, r')
           | (inr a, r') => k a r'
           end.

Notation "x <- m ;; k" := (bind m (fun x => k))
  (at level 61, m at next level, right associativity).
Notation "m ;;; k" := (bind m (fun _ => k))
  (at level 61, right associativity).

(** [try: body finally: fin] *)
Definition finally {A} (body : M A) (fin : M unit) : M A :=
  fun r => let (res, r1) := body r in
           match fin r1 with
           | (inl e, r2) => (inl e, r2)
           | (inr _, r2) => (res, r2)
           end.

Definition log (e : FtpEvent) : M unit :=
  fun r => (inr tt, {| files := files r; journal := (journal r ++ [e])%list |}).

Definition may_fail (f : option string) : M unit :=
  match f with
  | Some e => raise e
  | None => ret tt
  end.

(** [stream.iter_by_block(n)] over the bytes of a file *)
Fixpoint blocks_fuel (fuel n : nat) (data : bytes) : list bytes :=
  match fuel with
  | O => []
  | S fuel' =>
      match data with
      | [] => []
      | _ :: _ => firstn n data :: blocks_fuel fuel' n (skipn n data)
      end
  end.

Definition iter_by_block (n : nat) (data : bytes) : list bytes :=
  blocks_fuel (List.length data) n data.

(** [buf = BytesIO()], a [buf.write(block)] for every block, [buf.getvalue()] *)
Definition getvalue (blocks : list bytes) : bytes :=
  fold_left (fun buf block => (buf ++ block)%list) blocks [].

Record Config : Type := {
  FTP_HOST : string;
  FTP_USER : string;
  FTP_PASS : string;
  FTP_BASE : string
}.

Record ReadResponse : Type := {
  content : text;
  detectedEncoding : string;
  mimeType : string
}.

Module WriteRequest.
Record t : Type := {
  path : string;
  content : text;
  encoding : option string
}.
End WriteRequest.

Inductive WriteResponse : Type := StatusOk.

(** The text of an ASCII string. *)
Definition text_of_string (s : string) : text :=
  map N_of_ascii (list_ascii_of_string s).

(* ================================================================== *)
(** * The endpoints *)

Section Bridge.

Variable cfg : Config.
Variable net : Faults.
(** [chardet.detect(raw).get("encoding")] *)
Variable chardet_detect : bytes -> option string.
(** [mimetypes.guess_type(path)[0]] *)
Variable guess_type : string -> option string.
Variable codecs : string -> CodecError + Codec.

Definition client_connect : M unit :=
  may_fail (connect_fault net) ;;; log (Connected (FTP_HOST cfg)).

Definition client_login : M unit :=
  may_fail (login_fault net) ;;; log (LoggedIn (FTP_USER cfg) (FTP_PASS cfg)).

Definition client_quit : M unit :=
  may_fail (quit_fault net) ;;; log Closed.

Definition download_stream (ftp_path : string) : M (list bytes) :=
  may_fail (transfer_fault net) ;;;
  fun r => match lookup_file (files r) ftp_path with
           | None => raise "550 file unavailable" r
           | Some data => (log (Downloaded ftp_path) ;;;
                           ret (iter_by_block 8192 data)) r
           end.

Definition upload_stream (ftp_path : string) (data : bytes) : M unit :=
  may_fail (transfer_fault net) ;;;
  fun r => (inr tt, {| files := (ftp_path, data) :: files r;
                       journal := (journal r ++ [Uploaded ftp_path data])%list |}).

Definition ftp_connection {A} (body : M A) : M A :=
  client_connect ;;; client_login ;;; finally body client_quit.

(** Lines 214-219 of [ftp_read]: the label the priority chain settles on. *)
Definition resolve_encoding (raw_bytes : bytes) : string :=
  let meta_charset := extract_meta_charset raw_bytes in
  let chardet_encoding := PyStr.or_else (chardet_detect raw_bytes) "utf-8" in
  normalize_encoding (PyStr.or_else meta_charset chardet_encoding).

(** Lines 221-225: the decoding and its fallback; the content and the
    reported encoding, or the exception that escapes. *)
Definition decode_with_fallback (raw_bytes : bytes) (encoding : string)
  : CodecError + (text * string) :=
  match bytes_decode codecs encoding raw_bytes with
  | inr content => inr (content, encoding)
  | inl UnicodeDecodeError | inl LookupError =>
      match bytes_decode codecs "utf-8" raw_bytes with
      | inr content => inr (content, "utf-8")
      | inl e => inl e
      end
  | inl e => inl e
  end.

(** [ftp_read].  An exception that leaves the fallback decoding is caught by
    no handler of the source; the framework answers it with status 500. *)
Definition ftp_read (path : string) : Remote -> (HTTPException + ReadResponse) * Remote :=
  fun r =>
  match safe_path (FTP_BASE cfg) path with
  | inl e => (inl e, r)
  | inr ftp_path =>
      match ftp_connection (download_stream ftp_path) r with
      | (inl e, r') => (inl (HTTPExc 502 (FtpReadMsg e)), r')
      | (inr blocks, r') =>
          let raw_bytes := getvalue blocks in
          let mime_type := PyStr.or_else (guess_type path) "application/octet-stream" in
          if is_text_file path then
            let encoding := resolve_encoding raw_bytes in
            match decode_with_fallback raw_bytes encoding with
            | inr (content, encoding') =>
                (inr {| content := content;
                        detectedEncoding := encoding';
                        mimeType := mime_type |}, r')
            | inl _ => (inl (HTTPExc 500 Unhandled), r')
            end
          else
            (inr {| content := text_of_string (Base64.b64encode raw_bytes);
                    detectedEncoding := "binary";
                    mimeType := mime_type |}, r')
      end
  end.

(** [ftp_write].  The handler of the encoding step names
    [UnicodeEncodeError] and [LookupError]; another exception of that step
    is caught by no handler and is answered with status 500. *)
Definition ftp_write (req : WriteRequest.t) : Remote -> (HTTPException + WriteResponse) * Remote :=
  fun r =>
  match safe_path (FTP_BASE cfg) (WriteRequest.path req) with
  | inl e => (inl e, r)
  | inr ftp_path =>
      let encoding := normalize_encoding (PyStr.or_else (WriteRequest.encoding req) "utf-8") in
      match str_encode codecs encoding (WriteRequest.content req) with
      | inl UnicodeEncodeError | inl LookupError =>
          (inl (HTTPExc 400 (EncodeMsg encoding)), r)
      | inl _ => (inl (HTTPExc 500 Unhandled), r)
      | inr encoded_bytes =>
          match ftp_connection (upload_stream ftp_path encoded_bytes) r with
          | (inl e, r') => (inl (HTTPExc 502 (FtpWriteMsg e)), r')
          | (inr _, r') => (inr StatusOk, r')
          end
      end
  end.

End Bridge.

(* ================================================================== *)
(** * The other endpoints: the listing and the binary upload *)

(** The errors of [ftp_list] and [ftp_upload_image]: the exception of the
    sanitizer, or a fault wrapped with status 502 and the endpoint's own
    message. *)
Inductive EndpointError : Type :=
| Rejected (e : HTTPException)
| FtpListError (e : string)
| FtpUploadError (e : string).

Definition error_status (e : EndpointError) : nat :=
  match e with
  | Rejected e' => status_code e'
  | FtpListError _ | FtpUploadError _ => 502
  end.

(** The facts the server gives about a child: a dictionary of strings. *)
Definition Info : Type := list (string * string).

Module DirectoryEntry.
Record t : Type := {
  name : string;
  path : string;
  type : string;
  size : Z;
  modified : string;
  mimeType : string
}.
End DirectoryEntry.

Module UploadFile.
Record t : Type := {
  filename : string;
  data : bytes
}.
End UploadFile.

(** [str(item_path).split("/")[-1]] *)
Definition last_component (item_path : string) : string :=
  last (PyStr.split "/" item_path) "".

Section OtherEndpoints.

Variable cfg : Config.
Variable net : Faults.
Variable guess_type : string -> option string.
(** [int(s)] on a string: [None] stands for the [ValueError]. *)
Variable py_int : string -> option Z.
(** What the server lists under a path: a fault, or the children, each
    with its path and its facts. *)
Variable server_list : string -> string + list (string * Info).

Definition client_list (ftp_path : string) : M (list (string * Info)) :=
  may_fail (transfer_fault net) ;;;
  match server_list ftp_path with
  | inl e => raise e
  | inr items => ret items
  end.

(** The body of the loop of [ftp_list] for one child: an exception, a
    child that is skipped, or the entry that is appended. *)
Definition entry_of (path : string) (item : string * Info)
  : string + option DirectoryEntry.t :=
  let (item_path, info) := item in
  let name := last_component item_path in
  if name =? "" then inr None
  else
    let file_type :=
      match dict_get info "type" with
      | Some "dir" => "directory"
      | _ => "file"
      end in
    match match dict_get info "size" with
          | None => Some 0%Z
          | Some s => py_int s
          end with
    | None => inl "invalid literal for int()"
    | Some n =>
        inr (Some {| DirectoryEntry.name := name;
                     DirectoryEntry.path := PyStr.rstrip "/" path ++ "/" ++ name;
                     DirectoryEntry.type := file_type;
                     DirectoryEntry.size := n;
                     DirectoryEntry.modified :=
                       match dict_get info "modify" with Some m => m | None => "" end;
                     DirectoryEntry.mimeType :=
                       match guess_type name with Some m => m | None => "" end |})
    end.

(** The loop over the children, [entries] being the list built so far. *)
Fixpoint list_loop (path : string) (items : list (string * Info))
    (entries : list DirectoryEntry.t) : string + list DirectoryEntry.t :=
  match items with
  | [] => inr entries
  | item :: items' =>
      match entry_of path item with
      | inl e => inl e
      | inr None => list_loop path items' entries
      | inr (Some entry) => list_loop path items' (entries ++ [entry])%list
      end
  end.

(** [ftp_list]; the query parameter is optional and defaults to [/]. *)
Definition ftp_list (query : option string)
  : Remote -> (EndpointError + list DirectoryEntry.t) * Remote :=
  fun r =>
  let path := match query with Some q => q | None => "/" end in
  match safe_path (FTP_BASE cfg) path with
  | inl e => (inl (Rejected e), r)
  | inr ftp_path =>
      match ftp_connection cfg net
              (items <- client_list ftp_path ;;
               match list_loop path items [] with
               | inl e => raise e
               | inr entries => ret entries
               end) r with
      | (inl e, r') => (inl (FtpListError e), r')
      | (inr entries, r') => (inr entries, r')
      end
  end.

(** [ftp_upload_image]; the answer is the value of the key [url]. *)
Definition ftp_upload_image (path : string) (file : UploadFile.t)
  : Remote -> (EndpointError + string) * Remote :=
  fun r =>
  match safe_path (FTP_BASE cfg) (path ++ "/" ++ UploadFile.filename file) with
  | inl e => (inl (Rejected e), r)
  | inr ftp_path =>
      let content := UploadFile.data file in
      match ftp_connection cfg net (upload_stream net ftp_path content) r with
      | (inl e, r') => (inl (FtpUploadError e), r')
      | (inr _, r') => (inr (path ++ "/" ++ UploadFile.filename file), r')
      end
  end.

End OtherEndpoints.

(* ================================================================== *)
(** * Notions the properties are stated with *)

Definition no_faults : Faults :=
  {| connect_fault := None; login_fault := None;
     transfer_fault := None; quit_fault := None |}.

(** What a download that meets no fault leaves in the journal. *)
Definition download_events (cfg : Config) (ftp_path : string) : list FtpEvent :=
  [ Connected (FTP_HOST cfg); LoggedIn (FTP_USER cfg) (FTP_PASS cfg);
    Downloaded ftp_path; Closed ].

Definition upload_events (cfg : Config) (ftp_path : string) (data : bytes) : list FtpEvent :=
  [ Connected (FTP_HOST cfg); LoggedIn (FTP_USER cfg) (FTP_PASS cfg);
    Uploaded ftp_path data; Closed ].

(** The text has a code point the codec cannot encode. *)
Definition unrepresentable (c : CharCodec) (t : text) : Prop :=
  exists cp, In cp t /\ enc_char c cp = None.

(** The encoding a write request is encoded with. *)
Definition target_encoding (req : WriteRequest.t) : string :=
  normalize_encoding (PyStr.or_else (WriteRequest.encoding req) "utf-8").

(** The answer of [ftp_write] to an exception of its encoding step. *)
Definition encode_failure (encoding : string) (e : CodecError) : HTTPException :=
  match e with
  | UnicodeEncodeError | LookupError => HTTPExc 400 (EncodeMsg encoding)
  | _ => HTTPExc 500 Unhandled
  end.

(** The MIME type a read reports. *)
Definition mime_of (guess_type : string -> option string) (path : string) : string :=
  PyStr.or_else (guess_type path) "application/octet-stream".

(** The remote side after a download that met no fault. *)
Definition after_download (cfg : Config) (ftp_path : string) (r : Remote) : Remote :=
  {| files := files r;
     journal := (journal r ++ download_events cfg ftp_path)%list |}.

(** The text the two patterns are searched in. *)
Definition snippet_of (raw : bytes) : string :=
  decode_ascii_ignore (firstn 4096 raw).

(** Feed a run of bytes to the decoder: the state it ends in and what it
    has emitted. *)
Fixpoint feed_all (c : CharCodec) (st : dstate c) (bs : bytes) : dstate c * text :=
  match bs with
  | [] => (st, [])
  | x :: bs' =>
      let (st1, out1) := dfeed c st x in
      let (st2, out2) := feed_all c st1 bs' in
      (st2, (out1 ++ out2)%list)
  end.

(** A codec is lossless when its decoder, started between characters and
    fed the encoding of a code point, emits that code point and is between
    characters again. *)
Definition lossless (c : CharCodec) : Prop :=
  dflush c (dinit c) = []
  /\ forall cp bs, enc_char c cp = Some bs ->
                   feed_all c (dinit c) bs = (dinit c, [cp]).

(** A code point comes back through a character codec when it has an
    encoding and the decoder, started between characters and fed that
    encoding, emits the code point and is between characters again. *)
Definition comes_back (c : CharCodec) (cp : codepoint) : Prop :=
  exists bs, enc_char c cp = Some bs
             /\ feed_all c (dinit c) bs = (dinit c, [cp]).

(** A codec of the layer that writes a fixed signature, possibly empty,
    and then works one character at a time as [c] does; its decoder, given
    the signature, goes on as the decoder of [c]. *)
Definition signed_by (k : Codec) (signature : bytes) (c : CharCodec) : Prop :=
  (forall t, codec_encode k t
             = match encode_strict c t with
               | Some bs => inr (signature ++ bs)%list
               | None => inl UnicodeEncodeError
               end)
  /\ (forall bs, codec_decode k (signature ++ bs)%list
                 = inr (decode_replace c bs)).

(* ================================================================== *)
(** * A sample deployment, for evaluating the endpoints *)

Module Sample.

Definition cfg : Config :=
  {| FTP_HOST := "ftp.example.org"; FTP_USER := "cms"; FTP_PASS := "secret";
     FTP_BASE := "/srv/site" |}.

(** A detector that takes everything for Latin-1. *)
Definition chardet_detect (_ : bytes) : option string := Some "ISO-8859-1".

Definition guess_type (path : string) : option string :=
  match PyStr.lower (Splitext.ext path) with
  | ".html" => Some "text/html"
  | ".png" => Some "image/png"
  | _ => None
  end.

Definition quoted (s : string) : string :=
  String dquote s ++ String dquote EmptyString.

(** A page that declares Shift_JIS and whose body is two Latin-1 letters. *)
Definition page : bytes :=
  (list_byte_of_string ("<meta charset=" ++ quoted "Shift_JIS" ++ ">")
   ++ [Codecs.byte_of 233; Codecs.byte_of 232])%list.

(** A page that declares a charset the platform does not know, with a
    byte that is not valid utf-8 between two letters. *)
Definition old_page : bytes :=
  (list_byte_of_string "<meta charset=x-bogus>"
   ++ [Codecs.byte_of 65; Codecs.byte_of 255; Codecs.byte_of 66])%list.

Definition logo : bytes := list_byte_of_string "Man".

Definition remote : Remote :=
  {| files := [ ("/srv/site/etc/passwd", list_byte_of_string "root");
                ("/srv/site/index.html", page);
                ("/srv/site/old.html", old_page);
                ("/srv/site/logo.png", logo) ];
     journal := [] |}.

Definition read := ftp_read cfg no_faults chardet_detect guess_type Codecs.lookup.
Definition write := ftp_write cfg no_faults Codecs.lookup.

End Sample.

(** The remote side with more events in its journal. *)
Definition with_events (r : Remote) (evs : list FtpEvent) : Remote :=
  {| files := files r; journal := (journal r ++ evs)%list |}.

(** The children of a listing that [ftp_list] does not skip. *)
Definition kept (items : list (string * Info)) : list (string * Info) :=
  filter (fun item => negb (last_component (fst item) =? "")) items.

(** The size [ftp_list] reads off the facts of a child. *)
Definition size_of (py_int : string -> option Z) (info : Info) : option Z :=
  match dict_get info "size" with
  | None => Some 0%Z
  | Some s => py_int s
  end.

(** ** Requests and payloads the properties are evaluated on *)





(** Two requests that name the codec [undefined]. *)
Definition undefined_request : WriteRequest.t :=
  {| WriteRequest.path := "index.html";
     WriteRequest.content := [104; 105]%N;              (* h i *)
     WriteRequest.encoding := Some "undefined" |}.


(** The bytes of [<meta charset=Q Shift_JIS Q>], with [Q] the double quote. *)
Definition shift_jis_declaration : bytes :=
  list_byte_of_string ("<meta charset=" ++ Sample.quoted "Shift_JIS" ++ ">").

(** The class of the capturing group of the first pattern. *)
Definition declared_char (c : ascii) : bool :=
  negb (is_quote c || PyStr.isspace c || Ascii.eqb c ";" || Ascii.eqb c ">").

(** What stops a run of the class [c]: the end, or a character outside. *)
Definition stops (c : Re.cclass) (b : string) : Prop :=
  match b with
  | "" => True
  | String x _ => c x = false
  end.

(** A declaration of Shift_JIS with white space around the equals sign,
    before two Latin-1 letters. *)
Definition spaced_declaration : bytes :=
  (list_byte_of_string ("<meta charset = " ++ Sample.quoted "Shift_JIS" ++ ">")
   ++ [Codecs.byte_of 233; Codecs.byte_of 232])%list.

(** A page in the XHTML style: tags before the declaration, upper case,
    single quotes, and a closing slash. *)
Definition xhtml_page : bytes :=
  list_byte_of_string
    "<html><head><META HTTP-EQUIV='Content-Type' CONTENT='text/html; CHARSET=EUC-JP' /></head>".

(** A declaration that starts at byte 4096 is not found; the same
    declaration at the front is, in any case and with bytes above 127
    scattered in it. *)
Definition late_declaration : bytes :=
  (repeat (Codecs.byte_of 32) 4096 ++ shift_jis_declaration)%list.


(** A page that declares the codec [undefined], and a store that holds it. *)
Definition undefined_page : bytes :=
  list_byte_of_string "<meta charset=undefined><p>hi</p>".

Definition remote_with_undefined_page : Remote :=
  {| files := ("/srv/site/bad.html", undefined_page) :: files Sample.remote;
     journal := [] |}.

(** A fullwidth tilde and two letters. *)
Definition tilde_text : text := [65374; 65; 66]%N.

(** Konnichiwa in hiragana, a space, and an emoji outside the basic plane. *)
Definition greeting : text := [12371; 12435; 12395; 12385; 12399; 32; 128512]%N.

(** A server that refuses the login. *)
Definition login_refused : Faults :=
  {| connect_fault := None; login_fault := Some "530 Login incorrect";
     transfer_fault := None; quit_fault := None |}.

(** A server whose quit fails after the transfer. *)
Definition quit_fails : Faults :=
  {| connect_fault := None; login_fault := None;
     transfer_fault := None; quit_fault := Some "421 Timeout" |}.

(** A page that declares utf-8, written without naming an encoding. *)
Definition utf8_request : WriteRequest.t :=
  {| WriteRequest.path := "news.html";
     WriteRequest.content :=
       (text_of_string "<meta charset=utf-8>" ++ [12371; 12435; 128512]%N)%list;
     WriteRequest.encoding := None |}.

Definition utf8_page_bytes : bytes :=
  Eval vm_compute in
    match encode_strict Codecs.utf8_codec (WriteRequest.content utf8_request) with
    | Some bs => bs
    | None => []
    end.

(** An image sent to the directory [/img]. *)
Definition icon_upload : UploadFile.t :=
  {| UploadFile.filename := "icon.png";
     UploadFile.data := [Codecs.byte_of 137; Codecs.byte_of 80; Codecs.byte_of 78] |}.

(** What [ftp_list] promises of an entry it returns for the request [path]. *)
Definition entry_ok (path : string) (entry : DirectoryEntry.t) : Prop :=
  DirectoryEntry.name entry <> ""
  /\ PyStr.contains "/" (DirectoryEntry.name entry) = false
  /\ DirectoryEntry.path entry
     = PyStr.rstrip "/" path ++ "/" ++ DirectoryEntry.name entry
  /\ (DirectoryEntry.type entry = "directory" \/ DirectoryEntry.type entry = "file").

(** ** A sample listing *)

Module SampleListing.

(** [int] on the strings made of decimal digits only; the other strings
    are taken for invalid. *)
Fixpoint digits (s : string) (acc : Z) : option Z :=
  match s with
  | EmptyString => Some acc
  | String c s' =>
      let n := nat_of_ascii c in
      if ((48 <=? n) && (n <=? 57))%nat
      then digits s' (10 * acc + Z.of_nat (n - 48))%Z
      else None
  end.

Definition py_int (s : string) : option Z :=
  match s with
  | EmptyString => None
  | _ => digits s 0%Z
  end.

Definition children : list (string * Info) :=
  [ ("/srv/site/img/a.png", [("type", "file"); ("size", "120"); ("modify", "20240101")]);
    ("/", []);
    ("/srv/site/img/sub", [("type", "dir")]) ].

Definition broken : list (string * Info) :=
  [ ("/srv/site/old/a.png", [("type", "file"); ("size", "120")]);
    ("/srv/site/old/b.png", [("type", "file"); ("size", "12k")]) ].

Definition server_list (ftp_path : string) : string + list (string * Info) :=
  match ftp_path with
  | "/srv/site/img" => inr children
  | "/srv/site/old" => inr broken
  | "/srv/site/empty" => inr []
  | _ => inl "550 no such directory"
  end.

Definition list :=
  ftp_list Sample.cfg no_faults Sample.guess_type py_int server_list.

End SampleListing.

(** The characters a declared charset is made of: no quote, no white
    space, no semicolon. *)
Definition charset_char (c : ascii) : bool :=
  negb (is_quote c || PyStr.isspace c || Ascii.eqb c ";").

(** [t] is what is left of [s] after some prefix of it. *)
Definition suffix_of (t s : string) : Prop := exists pre, s = pre ++ t.

(** The key [normalize_encoding] looks up in the alias table. *)
Definition alias_key (enc : string) : string :=
  PyStr.replace "-" "_" (PyStr.lower enc).

(** The path has no backslash in it. *)
Definition no_backslash (s : string) : bool :=
  Re.all_chars (fun c => negb (Ascii.eqb c "\")) s.

(** ** The components of a path *)

Module Components.

Definition nonslash (x : ascii) : bool := negb (Ascii.eqb x "/").
Definition noback (x : ascii) : bool := negb (Ascii.eqb x "\").

(** A component: no slash and no backslash in it. *)
Definition part_ok (c : string) : Prop :=
  Re.all_chars nonslash c = true /\ Re.all_chars noback c = true.

(** A component [normpath] keeps: a part that is not empty. *)
Definition good (c : string) : Prop := c <> "" /\ part_ok c.

(** What holds of the components kept so far: with initial slashes there
    is no [..] among them; without, the [..] come first. *)
Definition Inv (n : nat) (l : list string) : Prop :=
  Forall good l
  /\ (n <> 0 -> ~ In ".." l)
  /\ (n = 0 -> exists k rest, l = (repeat ".." k ++ rest)%list /\ ~ In ".." rest).

End Components.

(* ================================================================== *)
(** * The CSRF guard

    The token is [timestamp.signature], the signature being the HMAC of
    the timestamp under the secret of the process.  The keyed digest, the
    conversions [int] and [str] and the clock are parameters; a reading
    of the clock less an integer is the float of the source, taken as the
    rational it stands for. *)

Definition CSRF_SAFE_METHODS : list string := ["GET"; "HEAD"; "OPTIONS"].
Definition CSRF_TOKEN_TTL : Z := 3600.

(** The exceptions that escape the token check. *)
Inductive CsrfError : Type :=
| OverflowError   (* int too large to convert to float *)
| TypeError.      (* comparing strings with non-ASCII characters *)

Definition is_ascii_char (c : ascii) : bool := (nat_of_ascii c <? 128)%nat.

(** [hmac.compare_digest] on two [str]: it raises on a character that is
    not ASCII, in either of them. *)
Definition compare_digest (a b : string) : option bool :=
  if Re.all_chars is_ascii_char a && Re.all_chars is_ascii_char b
  then Some (a =? b)
  else None.

(** What the middleware reads of a request. *)
Module Request.
Record t : Type := {
  method : string;
  url_path : string;               (* request.url.path *)
  csrf_token : option string       (* request.headers.get("X-CSRF-Token") *)
}.
End Request.

(** What [dispatch] does with a request: the answers it gives itself,
    the answer of the rest of the application, or an exception. *)
Inductive Dispatched (A : Type) : Type :=
| Issued (token : string)          (* 200, the key csrfToken *)
| Forbidden                        (* 403 *)
| Forwarded (response : A)         (* call_next(request) *)
| Raised (e : CsrfError).

Arguments Issued {A} token.
Arguments Forbidden {A}.
Arguments Forwarded {A} response.
Arguments Raised {A} e.

Section Csrf.

(** [hmac.new(CSRF_SECRET.encode(), msg.encode(), hashlib.sha256).hexdigest()] *)
Variable hexdigest : string -> string.
(** [int(s)] on a string: [None] stands for the [ValueError]. *)
Variable py_int : string -> option Z.
(** [str(n)] *)
Variable py_str : Z -> string.
(** [int(time.time())] when a token is generated. *)
Variable issue_time : Z.
(** [time.time() - issued_at] when a token is validated: [None] stands
    for the [OverflowError] of the conversion of [issued_at]. *)
Variable elapsed : Z -> option QArith_base.Q.

Definition _generate_csrf_token : string :=
  let timestamp := py_str issue_time in
  let signature := hexdigest timestamp in
  timestamp ++ "." ++ signature.

Definition _validate_csrf_token (token : string) : CsrfError + bool :=
  match PyStr.split "." token with
  | [timestamp; signature] =>
      match py_int timestamp with
      | None => inr false
      | Some issued_at =>
          match elapsed issued_at with
          | None => inl OverflowError
          | Some age =>
              if negb (QArith_base.Qle_bool age
                         (QArith_base.inject_Z CSRF_TOKEN_TTL))
              then inr false
              else
                let expected := hexdigest timestamp in
                match compare_digest signature expected with
                | None => inl TypeError
                | Some b => inr b
                end
          end
      end
  | _ => inr false
  end.

(** [CSRFMiddleware.dispatch] *)
Definition dispatch {A : Type} (request : Request.t)
    (call_next : Request.t -> A) : Dispatched A :=
  if (Request.url_path request =? "/api/csrf-token")
     && (Request.method request =? "GET")
  then Issued _generate_csrf_token
  else if negb (existsb (String.eqb (Request.method request)) CSRF_SAFE_METHODS)
          && PyStr.startswith "/api/" (Request.url_path request)
  then
    match Request.csrf_token request with
    | None | Some EmptyString => Forbidden
    | Some token =>
        match _validate_csrf_token token with
        | inl e => Raised e
        | inr false => Forbidden
        | inr true => Forwarded (call_next request)
        end
    end
  else Forwarded (call_next request).

End Csrf.

(** A request that changes state under the API. *)
Definition guarded (request : Request.t) : Prop :=
  existsb (String.eqb (Request.method request)) CSRF_SAFE_METHODS = false
  /\ PyStr.startswith "/api/" (Request.url_path request) = true.

(** ** A sample deployment of the guard *)

Module SampleCsrf.

(** A keyed digest for the samples; it is not a MAC. *)
Definition hexdigest (msg : string) : string := "5f1d" ++ msg ++ "c0de".

(** [str] of an integer, in decimal. *)
Definition py_str (n : Z) : string :=
  DecimalString.NilZero.string_of_int (Z.to_int n).

(** The clock reads 1700000025.5 at each validation. *)
Definition elapsed (issued_at : Z) : option QArith_base.Q :=
  Some (QArith_base.Qminus (QArith_base.Qmake 3400000051 2)
          (QArith_base.inject_Z issued_at)).

Definition token : string :=
  _generate_csrf_token hexdigest py_str 1700000000.

Definition post (tok : option string) : Request.t :=
  {| Request.method := "POST"; Request.url_path := "/api/ftp/write";
     Request.csrf_token := tok |}.

Definition run (request : Request.t) : Dispatched string :=
  dispatch hexdigest SampleListing.py_int py_str 1700000000 elapsed request
    (fun _ => "handled").

End SampleCsrf.

(* ================================================================== *)
(** * Properties of the string helpers *)

Module PyStrFacts.
Import PyStr.

Lemma startswith_app (p s : string) : startswith p (p ++ s) = true.
Proof.
  unfold startswith. induction p as [|a p IH]; simpl.
  - now destruct s.
  - destruct (ascii_dec a a) as [_|N]; [exact IH | now elim N].
Qed.

Lemma append_assoc (a b c : string) : (a ++ b) ++ c = a ++ (b ++ c).
Proof. induction a as [|x a IH]; simpl; [reflexivity | now rewrite IH]. Qed.

(** What [lstrip] returns does not start with the stripped character. *)
Lemma lstrip_head (c : ascii) (s : string) :
  startswith (String c EmptyString) (lstrip c s) = false.
Proof.
  unfold startswith. induction s as [|x s IH]; simpl; [reflexivity|].
  destruct (Ascii.eqb x c) eqn:E; [exact IH|].
  simpl. destruct (ascii_dec c x) as [->|_].
  - now rewrite Ascii.eqb_refl in E.
  - reflexivity.
Qed.

(** [lstrip] removes a run of the character from the front, nothing else. *)
Lemma lstrip_spec (c : ascii) (s : string) :
  exists n, s = times (String c EmptyString) n ++ lstrip c s.
Proof.
  induction s as [|x s [n IH]]; simpl.
  - now exists 0.
  - destruct (Ascii.eqb x c) eqn:E.
    + apply Ascii.eqb_eq in E. subst x. exists (S n). simpl. now rewrite <- IH.
    + now exists 0.
Qed.

(** [rstrip] removes a run of the character from the back, nothing else. *)
Lemma rstrip_spec (c : ascii) (s : string) :
  exists n, s = rstrip c s ++ times (String c EmptyString) n.
Proof.
  induction s as [|x s [n IH]]; simpl.
  - now exists 0.
  - destruct (rstrip c s) as [|y r] eqn:R.
    + destruct (Ascii.eqb x c) eqn:E.
      * apply Ascii.eqb_eq in E. subst x. exists (S n). simpl in *. now rewrite <- IH.
      * exists n. simpl in *. now rewrite <- IH.
    + exists n. simpl in *. now rewrite <- IH.
Qed.

End PyStrFacts.

(* ================================================================== *)
(** * The alias table *)

(** C8.  Alias canonicalization is idempotent: applying [normalize_encoding]
    to its own result changes nothing.  This holds for every name, hence
    for every known alias spelling (the keys of the table in any case and
    with hyphens or underscores). *)
Theorem normalize_encoding_idempotent (x : string) :
  normalize_encoding (normalize_encoding x) = normalize_encoding x.
Proof.
  unfold normalize_encoding.
  destruct (dict_get ENCODING_ALIASES (PyStr.replace "-" "_" (PyStr.lower x)))
    as [v|] eqn:E.
  - simpl in E.
    repeat match type of E with
           | (if ?c then _ else _) = _ => destruct c
           end;
      try discriminate; injection E as <-; reflexivity.
  - now rewrite E.
Qed.

Example normalize_encoding_keys :
  map normalize_encoding ["shift_jis"; "shiftjis"; "sjis"; "euc-jp"; "eucjp";
                          "Shift_JIS"; "shift-jis"; "SJIS"; "EUCJP"; "euc_jp"; "UTF-8"]
  = ["cp932"; "cp932"; "cp932"; "euc-jp"; "euc_jp";
     "cp932"; "cp932"; "cp932"; "euc_jp"; "euc_jp"; "UTF-8"].
Proof. reflexivity. Qed.

(* ================================================================== *)
(** * The path sanitizer *)

(** The two tests of the sanitizer on the normalized form [n] of the path.
    If [n] begins with [..] or contains [/../], the call fails with
    [InvalidPath].  Otherwise it succeeds, and the result is the root put in
    front of [n] once: the root without its trailing slashes, one slash, and
    [n] without its leading slashes. *)
Lemma safe_path_spec (base p : string) :
  let n := normalized_of p in
  (PyStr.startswith ".." n = true \/ PyStr.contains "/../" n = true ->
   safe_path base p = inl InvalidPath)
  /\
  (PyStr.startswith ".." n = false -> PyStr.contains "/../" n = false ->
   let root := PyStr.rstrip "/" base in
   let rel := PyStr.lstrip "/" n in
   safe_path base p = inr (root ++ "/" ++ rel)
   /\ PyStr.startswith (root ++ "/") (root ++ "/" ++ rel) = true
   /\ PyStr.startswith "/" rel = false
   /\ (exists i, base = root ++ PyStr.times "/" i)
   /\ (exists j, n = PyStr.times "/" j ++ rel)).
Proof.
  intro n. split.
  - intros H. unfold safe_path. fold n.
    destruct H as [-> | ->]; [reflexivity | now rewrite orb_true_r].
  - intros H1 H2 root rel. repeat split.
    + unfold safe_path. fold n. now rewrite H1, H2.
    + rewrite <- (PyStrFacts.append_assoc root "/" rel).
      apply PyStrFacts.startswith_app.
    + apply PyStrFacts.lstrip_head.
    + apply PyStrFacts.rstrip_spec.
    + apply PyStrFacts.lstrip_spec.
Qed.

(** C2.  The two tests of the sanitizer are not the test for a [..]
    segment.  The path made of a backslash and two dots is one component
    for [normpath]; once the backslash is replaced, its normalized form is
    [/..], whose last segment is [..], and it neither begins with [..] nor
    contains [/../]: the sanitizer accepts it, and the result is the parent
    of the root, whatever the root.  In the other direction the normalized
    form [..foo] has no [..] segment, and the sanitizer rejects it. *)
Theorem sanitizer_misses_parent_segment (base : string) :
  normalized_of "\.." = "/.."
  /\ In ".." (PyStr.split "/" (normalized_of "\.."))
  /\ safe_path base "\.." = inr (PyStr.rstrip "/" base ++ "/..")
  /\ normalized_of "..foo" = "..foo"
  /\ ~ In ".." (PyStr.split "/" (normalized_of "..foo"))
  /\ safe_path base "..foo" = inl InvalidPath.
Proof.
  split; [reflexivity|]. split; [right; left; reflexivity|].
  split; [reflexivity|]. split; [reflexivity|]. split; [|reflexivity].
  intros [H|[]]. discriminate H.
Qed.

(* ================================================================== *)
(** * The remote session *)


Lemma getvalue_from (blocks : list bytes) (buf : bytes) :
  fold_left (fun buf block => (buf ++ block)%list) blocks buf
  = (buf ++ List.concat blocks)%list.
Proof.
  revert buf. induction blocks as [|x blocks IH]; intro buf; simpl.
  - now rewrite app_nil_r.
  - now rewrite IH, app_assoc.
Qed.

Lemma concat_blocks_fuel (n : nat) :
  0 < n ->
  forall fuel data, List.length data <= fuel ->
  List.concat (blocks_fuel fuel n data) = data.
Proof.
  intros Hn. induction fuel as [|fuel IH]; intros data Hlen.
  - destruct data; [reflexivity | simpl in Hlen; lia].
  - destruct data as [|x data]; [reflexivity|].
    cbn [blocks_fuel List.concat]. rewrite IH.
    + apply firstn_skipn.
    + rewrite length_skipn. simpl List.length in *. lia.
Qed.

(** Whatever the block size, the buffer ends up holding the file. *)
Lemma getvalue_iter_by_block (n : nat) (data : bytes) :
  0 < n -> getvalue (iter_by_block n data) = data.
Proof.
  intro Hn. unfold getvalue, iter_by_block. rewrite getvalue_from. simpl.
  now apply concat_blocks_fuel.
Qed.

Lemma block_size_pos : 0 < 8192.
Proof. apply Nat.ltb_lt. vm_compute. reflexivity. Qed.

Section Session.

Variable cfg : Config.


Lemma download_ok (ftp_path : string) (data : bytes) (r : Remote) :
  lookup_file (files r) ftp_path = Some data ->
  ftp_connection cfg no_faults (download_stream no_faults ftp_path) r
  = (inr (iter_by_block 8192 data),
     {| files := files r;
        journal := (journal r ++ download_events cfg ftp_path)%list |}).
Proof.
  intro H.
  unfold ftp_connection, client_connect, client_login, client_quit,
    download_stream, finally, bind, may_fail, log, ret, no_faults.
  cbn [connect_fault login_fault transfer_fault quit_fault files journal].
  rewrite H.
  cbn [connect_fault login_fault transfer_fault quit_fault files journal].
  unfold download_events. now rewrite <- !app_assoc.
Qed.

Lemma upload_ok (ftp_path : string) (data : bytes) (r : Remote) :
  ftp_connection cfg no_faults (upload_stream no_faults ftp_path data) r
  = (inr tt,
     {| files := (ftp_path, data) :: files r;
        journal := (journal r ++ upload_events cfg ftp_path data)%list |}).
Proof.
  unfold ftp_connection, client_connect, client_login, client_quit,
    upload_stream, finally, bind, may_fail, log, ret, no_faults.
  cbn [connect_fault login_fault transfer_fault quit_fault files journal].
  unfold upload_events. now rewrite <- !app_assoc.
Qed.

End Session.


(* ================================================================== *)
(** * Traversal attempts *)

(** C1, as stated, does not hold: the read of [/../../etc/passwd] is not
    rejected.  Normalization drops the [..] segments above the root of an
    absolute path, the sanitizer returns a path under the root, and the read
    opens a session and returns the file stored there. *)
Lemma read_absolute_traversal_not_rejected :
  PosixPath.normpath "/../../etc/passwd" = "/etc/passwd"
  /\ safe_path "/srv/site" "/../../etc/passwd" = inr "/srv/site/etc/passwd"
  /\ Sample.read "/../../etc/passwd" Sample.remote
     = (inr {| content := [99; 109; 57; 118; 100; 65; 61; 61]%N;  (* cm9vdA== *)
               detectedEncoding := "binary";
               mimeType := "application/octet-stream" |},
        {| files := files Sample.remote;
           journal := [ Connected "ftp.example.org"; LoggedIn "cms" "secret";
                        Downloaded "/srv/site/etc/passwd"; Closed ] |})
  /\ fst (Sample.read "/../../etc/passwd" Sample.remote) <> inl InvalidPath.
Proof.
  repeat split; try reflexivity.
  vm_compute. discriminate.
Qed.

Section Traversal.

Variable cfg : Config.
Variable net : Faults.
Variable chardet_detect : bytes -> option string.
Variable guess_type : string -> option string.
Variable codecs : string -> CodecError + Codec.

Lemma safe_path_absolute_traversal :
  safe_path (FTP_BASE cfg) "/../../etc/passwd"
  = inr (PyStr.rstrip "/" (FTP_BASE cfg) ++ "/etc/passwd").
Proof. reflexivity. Qed.

Lemma safe_path_relative_traversal :
  safe_path (FTP_BASE cfg) "../../etc/passwd" = inl InvalidPath.
Proof. reflexivity. Qed.

(** A read whose path the sanitizer rejects touches nothing remote. *)
Lemma ftp_read_rejected (path : string) (e : HTTPException) (r : Remote) :
  safe_path (FTP_BASE cfg) path = inl e ->
  ftp_read cfg net chardet_detect guess_type codecs path r = (inl e, r).
Proof. intro H. unfold ftp_read. now rewrite H. Qed.

(** A read whose path the sanitizer accepts never ends in [InvalidPath]. *)
Lemma ftp_read_accepted (path ftp_path : string) (r : Remote) :
  safe_path (FTP_BASE cfg) path = inr ftp_path ->
  fst (ftp_read cfg net chardet_detect guess_type codecs path r) <> inl InvalidPath.
Proof.
  intro H. unfold ftp_read. rewrite H.
  destruct (ftp_connection cfg net (download_stream net ftp_path) r)
    as [[e|blocks] r']; cbn [fst]; [discriminate|].
  destruct (is_text_file path); [|discriminate].
  destruct (decode_with_fallback codecs _ _) as [?|[? ?]]; discriminate.
Qed.

End Traversal.

(** C1, amended.  The read of [/../../etc/passwd] is not rejected: the
    sanitizer maps it to [etc/passwd] under the root, and without a fault a
    session is opened for it.  The read of the relative path
    [../../etc/passwd] fails with [InvalidPath], HTTP 400, and the remote
    side is exactly as before: no session was opened. *)
Theorem traversal_reads
    (cfg : Config) (net : Faults) (chardet_detect : bytes -> option string)
    (guess_type : string -> option string) (codecs : string -> CodecError + Codec)
    (r : Remote) :
  safe_path (FTP_BASE cfg) "/../../etc/passwd"
  = inr (PyStr.rstrip "/" (FTP_BASE cfg) ++ "/etc/passwd")
  /\ fst (ftp_read cfg net chardet_detect guess_type codecs "/../../etc/passwd" r)
     <> inl InvalidPath
  /\ (exists rest,
        journal (snd (ftp_read cfg no_faults chardet_detect guess_type codecs
                        "/../../etc/passwd" r))
        = (journal r ++ Connected (FTP_HOST cfg) :: rest)%list)
  /\ ftp_read cfg net chardet_detect guess_type codecs "../../etc/passwd" r
     = (inl InvalidPath, r)
  /\ status_code InvalidPath = 400.
Proof.
  split; [reflexivity|]. split; [|split; [|split; [|reflexivity]]].
  - eapply ftp_read_accepted. apply safe_path_absolute_traversal.
  - unfold ftp_read. rewrite safe_path_absolute_traversal.
    set (fp := PyStr.rstrip "/" (FTP_BASE cfg) ++ "/etc/passwd").
    destruct (lookup_file (files r) fp) as [data|] eqn:L.
    + rewrite (download_ok cfg fp data r L).
      exists [LoggedIn (FTP_USER cfg) (FTP_PASS cfg); Downloaded fp; Closed].
      destruct (is_text_file _); [|reflexivity].
      destruct (decode_with_fallback codecs _ _) as [?|[? ?]]; reflexivity.
    + exists [LoggedIn (FTP_USER cfg) (FTP_PASS cfg); Closed].
      unfold ftp_connection, client_connect, client_login, client_quit,
        download_stream, finally, bind, may_fail, log, ret, raise, no_faults.
      cbn [connect_fault login_fault transfer_fault quit_fault files journal].
      rewrite L. cbn [snd journal]. now rewrite <- !app_assoc.
  - apply ftp_read_rejected. reflexivity.
Qed.

(* ================================================================== *)
(** * The strict policy of the write path *)


Lemma encode_strict_fails (c : CharCodec) (t : text) :
  encode_strict c t = None <-> unrepresentable c t.
Proof.
  unfold unrepresentable. induction t as [|cp t IH]; simpl.
  - split; [discriminate | intros (cp & [] & _)].
  - destruct (enc_char c cp) as [bs|] eqn:E.
    + destruct (encode_strict c t) as [rest|].
      * split; [discriminate|].
        intros (cp' & [<-|Hin] & Hn); [congruence|].
        exfalso. enough (Some rest = None) by discriminate.
        apply IH. now exists cp'.
      * split; [|reflexivity]. intros _.
        destruct (proj1 IH eq_refl) as (cp' & Hin & Hn).
        exists cp'. auto.
    + split; [|reflexivity]. intros _. exists cp. auto.
Qed.

(** When it succeeds, the strict encoder has encoded every code point, in
    order: nothing is dropped and nothing is substituted. *)
Lemma encode_strict_complete (c : CharCodec) (t : text) (bs : bytes) :
  encode_strict c t = Some bs ->
  exists parts, Forall2 (fun cp part => enc_char c cp = Some part) t parts
                /\ bs = List.concat parts.
Proof.
  revert bs. induction t as [|cp t IH]; simpl; intros bs H.
  - injection H as <-. exists []. split; [constructor | reflexivity].
  - destruct (enc_char c cp) as [part|] eqn:E; [|discriminate].
    destruct (encode_strict c t) as [rest|]; [|discriminate].
    injection H as <-. destruct (IH rest eq_refl) as (parts & HF & ->).
    exists (part :: parts). split; [now constructor | reflexivity].
Qed.

Section Write.

Variable cfg : Config.
Variable net : Faults.
Variable codecs : string -> CodecError + Codec.





(** A write whose encoding step raises ends at that step, with the remote
    side untouched; the answer depends on the exception. *)
Lemma ftp_write_encode_failure (req : WriteRequest.t) (ftp_path : string)
    (e : CodecError) (r : Remote) :
  safe_path (FTP_BASE cfg) (WriteRequest.path req) = inr ftp_path ->
  str_encode codecs (target_encoding req) (WriteRequest.content req) = inl e ->
  ftp_write cfg net codecs req r
  = (inl (encode_failure (target_encoding req) e), r).
Proof.
  intros Hs He. unfold ftp_write. fold (target_encoding req).
  rewrite Hs, He. now destruct e.
Qed.


End Write.









(* ================================================================== *)
(** * Reading *)

Section Read.

Variable cfg : Config.
Variable chardet_detect : bytes -> option string.
Variable guess_type : string -> option string.
Variable codecs : string -> CodecError + Codec.


(** A read that meets no fault: the payload is the stored file, and the
    answer depends on the classification of the path alone. *)
Lemma ftp_read_fetched (path ftp_path : string) (data : bytes) (r : Remote) :
  safe_path (FTP_BASE cfg) path = inr ftp_path ->
  lookup_file (files r) ftp_path = Some data ->
  ftp_read cfg no_faults chardet_detect guess_type codecs path r
  = (if is_text_file path then
       match decode_with_fallback codecs data
               (resolve_encoding chardet_detect data) with
       | inr (content, encoding) =>
           inr {| content := content; detectedEncoding := encoding;
                  mimeType := mime_of guess_type path |}
       | inl _ => inl (HTTPExc 500 Unhandled)
       end
     else
       inr {| content := text_of_string (Base64.b64encode data);
              detectedEncoding := "binary";
              mimeType := mime_of guess_type path |},
     after_download cfg ftp_path r).
Proof.
  intros Hp Hf. unfold ftp_read. rewrite Hp.
  rewrite (download_ok cfg ftp_path data r Hf).
  rewrite (getvalue_iter_by_block 8192 data block_size_pos).
  destruct (is_text_file path); [|reflexivity].
  destruct (decode_with_fallback _ _ _) as [?|[? ?]]; reflexivity.
Qed.

(** What the decoding with its fallback returned came from the resolved
    encoding, or from utf-8 after a handled exception. *)
Lemma decode_with_fallback_inv (raw : bytes) (encoding : string)
    (content : text) (decision : string) :
  decode_with_fallback codecs raw encoding = inr (content, decision) ->
  (decision = encoding /\ bytes_decode codecs encoding raw = inr content)
  \/ (decision = "utf-8" /\ bytes_decode codecs "utf-8" raw = inr content).
Proof.
  unfold decode_with_fallback.
  destruct (bytes_decode codecs encoding raw) as [e|t].
  - destruct e; try discriminate;
      (destruct (bytes_decode codecs "utf-8" raw) as [e'|t']; [discriminate|]);
      intros [= <- <-]; right; now split.
  - intros [= <- <-]. left. now split.
Qed.

(** An exception of the decoding that the handler does not name escapes. *)
Lemma decode_with_fallback_escapes (raw : bytes) (encoding : string)
    (e : CodecError) :
  bytes_decode codecs encoding raw = inl e ->
  e <> UnicodeDecodeError -> e <> LookupError ->
  decode_with_fallback codecs raw encoding = inl e.
Proof.
  intros H H1 H2. unfold decode_with_fallback. rewrite H.
  destruct e; congruence.
Qed.

(** A payload that is not empty is decoded by the codec that is found. *)
Lemma bytes_decode_chars (c : CharCodec) (name : string) (raw : bytes) :
  codecs name = inr (of_chars c) ->
  raw <> [] \/ decode_replace c [] = [] ->
  bytes_decode codecs name raw = inr (decode_replace c raw).
Proof.
  intros H Hr. unfold bytes_decode. rewrite H.
  destruct raw as [|x raw]; [|reflexivity].
  destruct Hr as [Hr|Hr]; [congruence | now rewrite Hr].
Qed.

(** A decoding that raised another exception than the refusal of the
    name had a payload to decode. *)
Lemma bytes_decode_raised (name : string) (raw : bytes) (e : CodecError) :
  bytes_decode codecs name raw = inl e -> e <> ValueError -> raw <> [].
Proof.
  unfold bytes_decode. intros H He ->.
  destruct (codecs name) as [[]|c]; try discriminate H; congruence.
Qed.

(** A character codec under the resolved name decodes the payload. *)
Lemma decode_with_fallback_known (c : CharCodec) (raw : bytes) (encoding : string) :
  codecs encoding = inr (of_chars c) ->
  raw <> [] \/ decode_replace c [] = [] ->
  decode_with_fallback codecs raw encoding = inr (decode_replace c raw, encoding).
Proof.
  intros H Hr. unfold decode_with_fallback.
  now rewrite (bytes_decode_chars c encoding raw H Hr).
Qed.

(** After a handled exception, utf-8 decodes the payload. *)
Lemma decode_with_fallback_handled (c8 : CharCodec) (raw : bytes) (encoding : string) :
  codecs "utf-8" = inr (of_chars c8) ->
  bytes_decode codecs encoding raw = inl LookupError
  \/ bytes_decode codecs encoding raw = inl UnicodeDecodeError ->
  decode_with_fallback codecs raw encoding = inr (decode_replace c8 raw, "utf-8").
Proof.
  intros H8 H.
  assert (Hr : raw <> []).
  { destruct H as [H|H];
      apply (bytes_decode_raised encoding raw _ H); discriminate. }
  unfold decode_with_fallback.
  destruct H as [H|H]; rewrite H;
    now rewrite (bytes_decode_chars c8 "utf-8" raw H8 (or_introl Hr)).
Qed.

End Read.

(** The binary classification makes the answer of a read independent of the
    detector and of the codec layer, faults or not. *)
Lemma ftp_read_binary_independent
    (cfg : Config) (net : Faults) (guess_type : string -> option string)
    (det1 det2 : bytes -> option string)
    (codecs1 codecs2 : string -> CodecError + Codec)
    (path : string) (r : Remote) :
  is_text_file path = false ->
  ftp_read cfg net det1 guess_type codecs1 path r
  = ftp_read cfg net det2 guess_type codecs2 path r.
Proof.
  intro H. unfold ftp_read. rewrite H. reflexivity.
Qed.

(** Base64 makes four characters of every three bytes, the last group
    padded. *)
Lemma b64encode_length (l : bytes) :
  String.length (Base64.b64encode l) = 4 * ((List.length l + 2) / 3).
Proof.
  enough (H : forall n l, List.length l <= n ->
                String.length (Base64.b64encode l)
                = 4 * ((List.length l + 2) / 3)) by (apply (H (List.length l)); lia).
  clear l. induction n as [|n IH]; intros l Hl.
  - destruct l; [reflexivity | simpl in Hl; lia].
  - destruct l as [|a [|b [|c rest]]]; try reflexivity.
    cbn [Base64.b64encode String.length List.length].
    rewrite IH by (simpl in Hl; lia).
    replace (S (S (S (List.length rest))) + 2)
      with (List.length rest + 2 + 1 * 3) by lia.
    rewrite Nat.div_add by lia. lia.
Qed.

Lemma length_list_ascii_of_string (s : string) :
  List.length (list_ascii_of_string s) = String.length s.
Proof. induction s as [|x s IH]; simpl; [reflexivity | now rewrite IH]. Qed.

(** C9.  For a path classified as binary, the read answers with the payload
    in base64, given as the code points of its characters, four for every
    three bytes of the payload, and with the encoding label [binary]; the
    detector and the codec layer play no part: with any other detector and
    codec layer the read is the same, whatever the faults and the state of
    the remote side. *)
Theorem binary_read_base64
    (cfg : Config) (guess_type : string -> option string)
    (chardet_detect : bytes -> option string)
    (codecs : string -> CodecError + Codec)
    (path ftp_path : string) (data : bytes) (r : Remote) :
  is_text_file path = false ->
  safe_path (FTP_BASE cfg) path = inr ftp_path ->
  lookup_file (files r) ftp_path = Some data ->
  ftp_read cfg no_faults chardet_detect guess_type codecs path r
  = (inr {| content := map N_of_ascii
                         (list_ascii_of_string (Base64.b64encode data));
            detectedEncoding := "binary";
            mimeType := PyStr.or_else (guess_type path) "application/octet-stream" |},
     {| files := files r;
        journal := (journal r ++ download_events cfg ftp_path)%list |})
  /\ List.length (map N_of_ascii (list_ascii_of_string (Base64.b64encode data)))
     = 4 * ((List.length data + 2) / 3)
  /\ (forall net det' codecs',
        ftp_read cfg net det' guess_type codecs' path r
        = ftp_read cfg net chardet_detect guess_type codecs path r).
Proof.
  intros Hb Hp Hf. split; [|split].
  - rewrite (ftp_read_fetched cfg chardet_detect guess_type codecs
               path ftp_path data r Hp Hf).
    now rewrite Hb.
  - now rewrite length_map, length_list_ascii_of_string, b64encode_length.
  - intros net det' codecs'. now apply ftp_read_binary_independent.
Qed.

Lemma binary_read_base64_witness :
  is_text_file "logo.png" = false
  /\ Sample.read "logo.png" Sample.remote
     = (inr {| content := [84; 87; 70; 117]%N;          (* T W F u *)
               detectedEncoding := "binary";
               mimeType := "image/png" |},
        {| files := files Sample.remote;
           journal := download_events Sample.cfg "/srv/site/logo.png" |}).
Proof.
  split; [reflexivity|].
  exact (proj1 (binary_read_base64 Sample.cfg Sample.guess_type
                  Sample.chardet_detect Codecs.lookup
                  "logo.png" "/srv/site/logo.png" Sample.logo Sample.remote
                  eq_refl eq_refl eq_refl)).
Defined.

(** C4.  The read of a text file does not always return a decision and a
    text.  When the decoding with the resolved encoding raises an exception
    that is neither [UnicodeDecodeError] nor [LookupError], the handler of
    [ftp_read] does not catch it: no fallback is tried, and the read that
    had fetched the payload ends with an unhandled exception, status 500,
    and returns no response. *)
Theorem uncaught_decode_error_aborts_read
    (cfg : Config) (guess_type : string -> option string)
    (chardet_detect : bytes -> option string)
    (codecs : string -> CodecError + Codec)
    (path ftp_path : string) (data : bytes) (r : Remote) (e : CodecError) :
  is_text_file path = true ->
  safe_path (FTP_BASE cfg) path = inr ftp_path ->
  lookup_file (files r) ftp_path = Some data ->
  bytes_decode codecs (resolve_encoding chardet_detect data) data = inl e ->
  e <> UnicodeDecodeError -> e <> LookupError ->
  ftp_read cfg no_faults chardet_detect guess_type codecs path r
  = (inl (HTTPExc 500 Unhandled), after_download cfg ftp_path r)
  /\ forall resp,
       fst (ftp_read cfg no_faults chardet_detect guess_type codecs path r)
       <> inr resp.
Proof.
  intros Ht Hp Hf He H1 H2.
  rewrite (ftp_read_fetched cfg chardet_detect guess_type codecs
             path ftp_path data r Hp Hf).
  rewrite Ht, (decode_with_fallback_escapes codecs data _ e He H1 H2).
  split; [reflexivity | discriminate].
Qed.

Lemma uncaught_decode_error_aborts_read_witness :
  resolve_encoding Sample.chardet_detect undefined_page = "undefined"
  /\ bytes_decode Codecs.lookup "undefined" undefined_page = inl UnicodeError
  /\ Sample.read "bad.html" remote_with_undefined_page
     = (inl (HTTPExc 500 Unhandled),
        after_download Sample.cfg "/srv/site/bad.html" remote_with_undefined_page).
Proof.
  split; [vm_compute; reflexivity|]. split; [reflexivity|].
  exact (proj1 (uncaught_decode_error_aborts_read Sample.cfg Sample.guess_type
                  Sample.chardet_detect Codecs.lookup
                  "bad.html" "/srv/site/bad.html" undefined_page
                  remote_with_undefined_page UnicodeError
                  eq_refl eq_refl eq_refl ltac:(vm_compute; reflexivity)
                  ltac:(discriminate) ltac:(discriminate))).
Defined.

(** X25.  When the exceptions of the decoding are of the kinds the handler
    names, a text file that was fetched is answered with a decision and a
    text: the lenient decoding of the payload with the character codec of
    the resolved encoding (an empty payload is answered with the empty
    text before any codec is looked up, which is that decoding where the
    codec decodes nothing to nothing), or, when the lookup of that name or
    its decoder raised, the lenient decoding as utf-8 with the decision
    [utf-8]. *)
Theorem text_read_decodes_with_fallback
    (cfg : Config) (guess_type : string -> option string)
    (chardet_detect : bytes -> option string)
    (codecs : string -> CodecError + Codec)
    (c8 : CharCodec) (path ftp_path : string) (data : bytes) (r : Remote) :
  is_text_file path = true ->
  safe_path (FTP_BASE cfg) path = inr ftp_path ->
  lookup_file (files r) ftp_path = Some data ->
  codecs "utf-8" = inr (of_chars c8) ->
  let resolved := resolve_encoding chardet_detect data in
  let mime := PyStr.or_else (guess_type path) "application/octet-stream" in
  (forall c, codecs resolved = inr (of_chars c) ->
     data <> [] \/ decode_replace c [] = [] ->
     fst (ftp_read cfg no_faults chardet_detect guess_type codecs path r)
     = inr {| content := decode_replace c data; detectedEncoding := resolved;
              mimeType := mime |})
  /\ (bytes_decode codecs resolved data = inl LookupError
      \/ bytes_decode codecs resolved data = inl UnicodeDecodeError ->
      fst (ftp_read cfg no_faults chardet_detect guess_type codecs path r)
      = inr {| content := decode_replace c8 data; detectedEncoding := "utf-8";
               mimeType := mime |}).
Proof.
  intros Ht Hp Hf H8 resolved mime.
  rewrite (ftp_read_fetched cfg chardet_detect guess_type codecs
             path ftp_path data r Hp Hf).
  rewrite Ht. fold resolved. cbn [fst]. split.
  - intros c Hc Hd. now rewrite (decode_with_fallback_known codecs c data _ Hc Hd).
  - intros H. now rewrite (decode_with_fallback_handled codecs c8 data _ H8 H).
Qed.

Lemma text_read_decodes_with_fallback_witness :
  resolve_encoding Sample.chardet_detect Sample.old_page = "x-bogus"
  /\ fst (Sample.read "old.html" Sample.remote)
     = inr {| content := decode_replace Codecs.utf8_codec Sample.old_page;
              detectedEncoding := "utf-8";
              mimeType := "text/html" |}
  /\ skipn 22 (decode_replace Codecs.utf8_codec Sample.old_page)
     = [65; REPLACEMENT; 66]%N.
Proof.
  split; [vm_compute; reflexivity|]. split; [|reflexivity].
  apply (proj2 (text_read_decodes_with_fallback Sample.cfg Sample.guess_type
                  Sample.chardet_detect Codecs.lookup Codecs.utf8_codec
                  "old.html" "/srv/site/old.html" Sample.old_page Sample.remote
                  eq_refl eq_refl eq_refl eq_refl)).
  left. vm_compute. reflexivity.
Defined.

(* ================================================================== *)
(** * Properties of the pattern matcher *)

Module ReFacts.
Import PyStr Re.


Lemma append_nil_r (s : string) : s ++ "" = s.
Proof. induction s as [|x s IH]; simpl; [reflexivity | now rewrite IH]. Qed.

Lemma all_chars_app (c : cclass) (s1 s2 : string) :
  all_chars c (s1 ++ s2) = all_chars c s1 && all_chars c s2.
Proof.
  induction s1 as [|x s1 IH]; simpl; [reflexivity|].
  now rewrite IH, andb_assoc.
Qed.

Lemma all_chars_impl (c c' : cclass) (s : string) :
  (forall x, c x = true -> c' x = true) ->
  all_chars c s = true -> all_chars c' s = true.
Proof.
  intro H. induction s as [|x s IH]; simpl; [reflexivity|].
  intros [Hx Hs]%andb_prop. now rewrite (H x Hx), (IH Hs).
Qed.

(** The group hands its continuation what it started with and a run of
    characters of its class. *)
Lemma group_bt_capture (c : cclass) (k : string -> string -> option string)
    (s acc g : string) :
  group_bt c k acc s = Some g ->
  exists w rest, all_chars c w = true /\ k (acc ++ w) rest = Some g.
Proof.
  revert acc. induction s as [|x s IH]; intros acc; simpl.
  - intro H. exists "", "". now rewrite append_nil_r.
  - destruct (c x) eqn:Cx.
    + destruct (group_bt c k (acc ++ String x "") s) as [r|] eqn:G.
      * intros [= <-]. destruct (IH _ G) as (w & rest & Hw & Hk).
        exists (String x w), rest. simpl. rewrite Cx, Hw. split; [reflexivity|].
        now rewrite PyStrFacts.append_assoc in Hk.
      * intro H. exists "", (String x s). now rewrite append_nil_r.
    + intro H. exists "", (String x s). now rewrite append_nil_r.
Qed.

Lemma star_bt_cont (c : cclass) (k : string -> option string) (s g : string) :
  star_bt c k s = Some g -> exists s', k s' = Some g.
Proof.
  induction s as [|x s IH]; simpl.
  - intro H. now exists "".
  - destruct (c x).
    + destruct (star_bt c k s) as [r|].
      * intros [= <-]. now apply IH.
      * intro H. now exists (String x s).
    + intro H. now exists (String x s).
Qed.


(** A pattern that ends with its only group captures a text that is not
    empty and is made of characters of the class of the group. *)
Lemma match_here_capture (c : cclass) (pre : pattern) :
  Forall groupless pre ->
  forall cap s g,
    match_here (pre ++ [Group c])%list cap s = Some g ->
    g <> "" /\ all_chars c g = true.
Proof.
  induction 1 as [|a pre Ha Hpre IH]; intros cap s g.
  - simpl. destruct s as [|x s]; [discriminate|].
    destruct (c x) eqn:Cx; [|discriminate].
    intros (w & rest & Hw & Hk)%group_bt_capture.
    simpl in Hk. injection Hk as <-. simpl. rewrite Cx, Hw.
    split; [discriminate | reflexivity].
  - destruct a as [l|c1|c1|c1|c1|c1]; [| | | | |destruct Ha];
      cbn [app match_here].
    + destruct (skip_lit l s); [apply IH | discriminate].
    + destruct s as [|x s]; [discriminate|].
      destruct (c1 x); [apply IH | discriminate].
    + destruct s as [|x s]; [apply IH|].
      destruct (c1 x); [|apply IH].
      destruct (match_here (pre ++ [Group c])%list cap s) as [r|] eqn:M.
      * intros [= <-]. now apply IH in M.
      * apply IH.
    + intros (s' & Hk)%star_bt_cont. now apply IH in Hk.
    + destruct s as [|x s]; [discriminate|].
      destruct (c1 x); [|discriminate].
      intros (s' & Hk)%star_bt_cont. now apply IH in Hk.
Qed.

Lemma search_found (p : pattern) (s g : string) :
  search p s = Some g -> exists s', match_here p "" s' = Some g.
Proof.
  induction s as [|x s IH]; simpl.
  - destruct (match_here p "" "") eqn:M; [|discriminate].
    intros [= <-]. now exists "".
  - destruct (match_here p "" (String x s)) eqn:M.
    + intros [= <-]. now exists (String x s).
    + apply IH.
Qed.



Lemma lstrip_space_id (s : string) :
  all_chars nonspace s = true -> lstrip_space s = s.
Proof.
  destruct s as [|x s]; simpl; [reflexivity|].
  unfold nonspace. now destruct (isspace x).
Qed.

Lemma rstrip_space_id (s : string) :
  all_chars nonspace s = true -> rstrip_space s = s.
Proof.
  induction s as [|x s IH]; simpl; [reflexivity|].
  intros [Hx Hs]%andb_prop. rewrite (IH Hs).
  unfold nonspace in Hx. destruct s; [|reflexivity].
  now destruct (isspace x).
Qed.

Lemma strip_id (s : string) : all_chars nonspace s = true -> strip s = s.
Proof.
  intro H. unfold strip. rewrite (lstrip_space_id s H). now apply rstrip_space_id.
Qed.

Lemma lower_nonempty (s : string) : s <> "" -> lower s <> "".
Proof. destruct s; [congruence | discriminate]. Qed.

End ReFacts.


(** What a pattern of the source captures is not empty and has no white
    space, so [strip] leaves it alone. *)
Lemma captured_nonblank (c : Re.cclass) (pre : Re.pattern) (s g : string) :
  Forall Re.groupless pre ->
  (forall x, PyStr.isspace x = true -> c x = false) ->
  Re.search (pre ++ [Re.Group c])%list s = Some g ->
  g <> "" /\ PyStr.strip g = g.
Proof.
  intros Hpre Hc (s' & Hm)%ReFacts.search_found.
  destruct (ReFacts.match_here_capture c pre Hpre _ _ _ Hm) as [Hne Hall].
  split; [exact Hne|]. apply ReFacts.strip_id.
  apply (ReFacts.all_chars_impl c); [|exact Hall].
  intros x Hx. unfold Re.nonspace.
  destruct (PyStr.isspace x) eqn:E; [|reflexivity].
  rewrite (Hc x E) in Hx. discriminate.
Qed.

Lemma meta_charset_re_captured (s g : string) :
  Re.search meta_charset_re s = Some g -> g <> "" /\ PyStr.strip g = g.
Proof.
  unfold meta_charset_re.
  match goal with
  | |- Re.search [?a1; ?a2; ?a3; ?a4; Re.Group ?cl] _ = _ -> _ =>
      apply (captured_nonblank cl [a1; a2; a3; a4])
  end.
  - repeat constructor.
  - intros x E. now rewrite E, orb_true_r.
Qed.

Lemma http_equiv_re_captured (s g : string) :
  Re.search http_equiv_re s = Some g -> g <> "" /\ PyStr.strip g = g.
Proof.
  unfold http_equiv_re.
  match goal with
  | |- Re.search [?a1; ?a2; ?a3; ?a4; Re.Group ?cl] _ = _ -> _ =>
      apply (captured_nonblank cl [a1; a2; a3; a4])
  end.
  - repeat constructor.
  - intros x E. now rewrite E, orb_true_r.
Qed.

Lemma extract_meta_charset_eq (raw : bytes) :
  extract_meta_charset raw
  = match Re.search meta_charset_re (snippet_of raw) with
    | Some g => Some (PyStr.lower g)
    | None => option_map PyStr.lower (Re.search http_equiv_re (snippet_of raw))
    end.
Proof.
  unfold extract_meta_charset. fold (snippet_of raw).
  destruct (Re.search meta_charset_re (snippet_of raw)) as [g|] eqn:S1.
  - now rewrite (proj2 (meta_charset_re_captured _ _ S1)).
  - destruct (Re.search http_equiv_re (snippet_of raw)) as [g|] eqn:S2;
      [|reflexivity].
    simpl. now rewrite (proj2 (http_equiv_re_captured _ _ S2)).
Qed.

(** A declaration that was found is not the empty string. *)
Lemma extract_meta_charset_nonempty (raw : bytes) (d : string) :
  extract_meta_charset raw = Some d -> d <> "".
Proof.
  rewrite extract_meta_charset_eq.
  destruct (Re.search meta_charset_re (snippet_of raw)) as [g|] eqn:S1.
  - intros [= <-]. apply ReFacts.lower_nonempty.
    exact (proj1 (meta_charset_re_captured _ _ S1)).
  - destruct (Re.search http_equiv_re (snippet_of raw)) as [g|] eqn:S2;
      [|discriminate].
    intros [= <-]. apply ReFacts.lower_nonempty.
    exact (proj1 (http_equiv_re_captured _ _ S2)).
Qed.

(* ================================================================== *)
(** * The priority of the embedded declaration *)


(** Whatever follows the tag, the declaration is found. *)
Lemma shift_jis_declaration_found (rest : bytes) :
  extract_meta_charset (shift_jis_declaration ++ rest)%list = Some "shift_jis".
Proof. vm_compute. reflexivity. Qed.

Lemma resolve_encoding_declared
    (chardet_detect : bytes -> option string) (raw : bytes) (d : string) :
  extract_meta_charset raw = Some d ->
  resolve_encoding chardet_detect raw = normalize_encoding d.
Proof.
  intro H. unfold resolve_encoding. rewrite H.
  pose proof (extract_meta_charset_nonempty raw d H) as Hne.
  destruct d; [congruence | reflexivity].
Qed.

(** The decision a read reports is the resolved encoding whenever the codec
    layer knows it. *)
Lemma declared_charset_reported
    (cfg : Config) (guess_type : string -> option string)
    (chardet_detect : bytes -> option string) (codecs : string -> CodecError + Codec)
    (c : CharCodec) (path ftp_path : string) (data : bytes) (d : string) (r : Remote) :
  is_text_file path = true ->
  safe_path (FTP_BASE cfg) path = inr ftp_path ->
  lookup_file (files r) ftp_path = Some data ->
  extract_meta_charset data = Some d ->
  codecs (normalize_encoding d) = inr (of_chars c) ->
  fst (ftp_read cfg no_faults chardet_detect guess_type codecs path r)
  = inr {| content := decode_replace c data;
           detectedEncoding := normalize_encoding d;
           mimeType := PyStr.or_else (guess_type path) "application/octet-stream" |}.
Proof.
  intros Ht Hp Hf Hd Hc.
  rewrite (ftp_read_fetched cfg chardet_detect guess_type codecs
             path ftp_path data r Hp Hf).
  rewrite Ht, (resolve_encoding_declared chardet_detect data d Hd).
  assert (Hn : data <> []).
  { intros ->. vm_compute in Hd. discriminate Hd. }
  now rewrite (decode_with_fallback_known codecs c data _ Hc (or_introl Hn)).
Qed.

(* ================================================================== *)
(** * The search for the embedded declaration *)

Module CaseFold.
Import PyStr Re.


Lemma agree_refl_none : agree None None.
Proof. reflexivity. Qed.

Lemma lower_cons_inv (x1 x2 : ascii) (s1 s2 : string) :
  lower (String x1 s1) = lower (String x2 s2) ->
  lower_char x1 = lower_char x2 /\ lower s1 = lower s2.
Proof. simpl. now intros [= -> ->]. Qed.

Lemma ci_same (c : cclass) (x1 x2 : ascii) :
  ci c -> lower_char x1 = lower_char x2 -> c x1 = c x2.
Proof. intros H E. now rewrite <- (H x1), <- (H x2), E. Qed.

Lemma lower_app (s1 s2 : string) : lower (s1 ++ s2) = lower s1 ++ lower s2.
Proof. induction s1 as [|x s1 IH]; simpl; [reflexivity | now rewrite IH]. Qed.

Lemma skip_lit_ci (l s1 s2 : string) :
  lower s1 = lower s2 ->
  match skip_lit l s1, skip_lit l s2 with
  | Some r1, Some r2 => lower r1 = lower r2
  | None, None => True
  | _, _ => False
  end.
Proof.
  revert s1 s2. induction l as [|a l IH]; intros s1 s2 E; simpl.
  - exact E.
  - destruct s1 as [|x1 s1], s2 as [|x2 s2]; try discriminate; [exact I|].
    apply lower_cons_inv in E. destruct E as [Ex Es]. rewrite Ex.
    destruct (Ascii.eqb (lower_char a) (lower_char x2)); [now apply IH | exact I].
Qed.

Lemma star_bt_ci (c : cclass) (k1 k2 : string -> option string) :
  ci c ->
  (forall t1 t2, lower t1 = lower t2 -> agree (k1 t1) (k2 t2)) ->
  forall s1 s2, lower s1 = lower s2 ->
  agree (star_bt c k1 s1) (star_bt c k2 s2).
Proof.
  intros Hc Hk. induction s1 as [|x1 s1 IH]; intros s2 E.
  - destruct s2; [|discriminate]. simpl. now apply Hk.
  - destruct s2 as [|x2 s2]; [discriminate|].
    pose proof (Hk _ _ E) as K0.
    apply lower_cons_inv in E. destruct E as [Ex Es].
    simpl. rewrite (ci_same c x1 x2 Hc Ex).
    destruct (c x2); [|exact K0].
    specialize (IH s2 Es). unfold agree in IH.
    destruct (star_bt c k1 s1), (star_bt c k2 s2); try discriminate;
      [exact IH | exact K0].
Qed.

Lemma group_bt_ci (c : cclass) (k1 k2 : string -> string -> option string) :
  ci c ->
  (forall a1 a2 t1 t2, lower a1 = lower a2 -> lower t1 = lower t2 ->
                       agree (k1 a1 t1) (k2 a2 t2)) ->
  forall s1 s2 a1 a2, lower a1 = lower a2 -> lower s1 = lower s2 ->
  agree (group_bt c k1 a1 s1) (group_bt c k2 a2 s2).
Proof.
  intros Hc Hk. induction s1 as [|x1 s1 IH]; intros s2 a1 a2 Ea E.
  - destruct s2; [|discriminate]. simpl. now apply Hk.
  - destruct s2 as [|x2 s2]; [discriminate|].
    pose proof (Hk _ _ _ _ Ea E) as K0.
    apply lower_cons_inv in E. destruct E as [Ex Es].
    simpl. rewrite (ci_same c x1 x2 Hc Ex).
    destruct (c x2); [|exact K0].
    assert (Ea' : lower (a1 ++ String x1 "") = lower (a2 ++ String x2 "")).
    { rewrite !lower_app. simpl. now rewrite Ea, Ex. }
    specialize (IH s2 _ _ Ea' Es). unfold agree in IH.
    destruct (group_bt c k1 _ s1), (group_bt c k2 _ s2); try discriminate;
      [exact IH | exact K0].
Qed.

Lemma match_here_ci (p : pattern) :
  Forall Re.ci_atom p ->
  forall cap1 cap2 s1 s2,
    lower cap1 = lower cap2 -> lower s1 = lower s2 ->
    agree (match_here p cap1 s1) (match_here p cap2 s2).
Proof.
  induction 1 as [|a p Ha Hp IH]; intros cap1 cap2 s1 s2 Ec Es.
  - unfold agree. simpl. now rewrite Ec.
  - destruct a as [l|c|c|c|c|c]; cbn [match_here]; cbn [ci_atom] in Ha.
    + pose proof (skip_lit_ci l s1 s2 Es) as K.
      destruct (skip_lit l s1), (skip_lit l s2); try contradiction;
        [now apply IH | reflexivity].
    + destruct s1 as [|x1 s1], s2 as [|x2 s2]; try discriminate; [reflexivity|].
      apply lower_cons_inv in Es. destruct Es as [Ex Es].
      rewrite (ci_same c x1 x2 Ha Ex).
      destruct (c x2); [now apply IH | reflexivity].
    + destruct s1 as [|x1 s1], s2 as [|x2 s2]; try discriminate;
        [now apply IH|].
      pose proof (IH cap1 cap2 _ _ Ec Es) as K0.
      apply lower_cons_inv in Es. destruct Es as [Ex Es].
      rewrite (ci_same c x1 x2 Ha Ex).
      destruct (c x2); [|exact K0].
      pose proof (IH cap1 cap2 s1 s2 Ec Es) as K1. unfold agree in K1.
      destruct (match_here p cap1 s1), (match_here p cap2 s2);
        try discriminate; [exact K1 | exact K0].
    + apply star_bt_ci; [exact Ha | | exact Es].
      intros t1 t2 Et. now apply IH.
    + destruct s1 as [|x1 s1], s2 as [|x2 s2]; try discriminate; [reflexivity|].
      apply lower_cons_inv in Es. destruct Es as [Ex Es].
      rewrite (ci_same c x1 x2 Ha Ex).
      destruct (c x2); [|reflexivity].
      apply star_bt_ci; [exact Ha | | exact Es].
      intros t1 t2 Et. now apply IH.
    + destruct s1 as [|x1 s1], s2 as [|x2 s2]; try discriminate; [reflexivity|].
      apply lower_cons_inv in Es. destruct Es as [Ex Es].
      rewrite (ci_same c x1 x2 Ha Ex).
      destruct (c x2); [|reflexivity].
      apply group_bt_ci; [exact Ha | | | exact Es].
      * intros a1 a2 t1 t2 E1 E2. now apply IH.
      * simpl. now rewrite Ex.
Qed.

Lemma search_ci (p : pattern) :
  Forall Re.ci_atom p ->
  forall s1 s2, lower s1 = lower s2 -> agree (search p s1) (search p s2).
Proof.
  intros Hp. induction s1 as [|x1 s1 IH]; intros s2 E.
  - destruct s2; [|discriminate]. reflexivity.
  - destruct s2 as [|x2 s2]; [discriminate|].
    pose proof (match_here_ci p Hp "" "" _ _ eq_refl E) as K. unfold agree in K.
    apply lower_cons_inv in E. destruct E as [_ Es].
    specialize (IH s2 Es).
    cbn [search].
    destruct (match_here p "" (String x1 s1)),
             (match_here p "" (String x2 s2)); try discriminate;
      [exact K | exact IH].
Qed.

Lemma lower_lower (s : string) : lower (lower s) = lower s.
Proof.
  induction s as [|x s IH]; simpl; [reflexivity|]. rewrite IH. f_equal.
  destruct x as [[] [] [] [] [] [] [] []]; reflexivity.
Qed.

End CaseFold.

Import CaseFold.

Lemma meta_charset_re_ci : Forall Re.ci_atom meta_charset_re.
Proof.
  repeat constructor; intros x;
    destruct x as [[] [] [] [] [] [] [] []]; reflexivity.
Qed.







(* ================================================================== *)
(** * Round trips through a codec *)


Lemma decode_from_app (c : CharCodec) (bs rest : bytes) (st : dstate c) :
  decode_from c st (bs ++ rest)%list
  = (snd (feed_all c st bs) ++ decode_from c (fst (feed_all c st bs)) rest)%list.
Proof.
  revert st. induction bs as [|x bs IH]; intro st; simpl; [reflexivity|].
  destruct (dfeed c st x) as [st1 out1]. rewrite IH.
  destruct (feed_all c st1 bs) as [st2 out2]. simpl. now rewrite app_assoc.
Qed.


Lemma roundtrip_lossless (c : CharCodec) :
  lossless c ->
  forall t bs, encode_strict c t = Some bs -> decode_replace c bs = t.
Proof.
  intros [Hflush Hchar]. unfold decode_replace.
  induction t as [|cp t IH]; simpl; intros bs H.
  - injection H as <-. exact Hflush.
  - destruct (enc_char c cp) as [part|] eqn:E; [|discriminate].
    destruct (encode_strict c t) as [rest|]; [|discriminate].
    injection H as <-. rewrite decode_from_app, (Hchar cp part E). simpl.
    now rewrite (IH rest eq_refl).
Qed.

Module Utf8Facts.
Import Codecs.
Local Open Scope N_scope.

Lemma to_N_byte_of (n : N) : n < 256 -> Byte.to_N (byte_of n) = n.
Proof.
  intro H. unfold byte_of. destruct (Byte.of_N n) as [x|] eqn:E.
  - now apply Byte.to_of_N.
  - apply Byte.of_N_None_iff in E. lia.
Qed.

(** A number in base 64: quotient and digit. *)
Lemma base64_digits (n : N) : n = 64 * (n / 64) + n mod 64 /\ n mod 64 < 64.
Proof.
  split; [apply N.div_mod; discriminate | apply N.mod_lt; discriminate].
Qed.

Lemma div_4096 (n : N) : n / 4096 = n / 64 / 64.
Proof. rewrite N.Div0.div_div. reflexivity. Qed.

Lemma div_262144 (n : N) : n / 262144 = n / 64 / 64 / 64.
Proof. rewrite !N.Div0.div_div. reflexivity. Qed.

Lemma start_1 (x : N) : x < 128 -> utf8_start x = (Idle, [x]).
Proof. intro H. unfold utf8_start. now rewrite (proj2 (N.ltb_lt _ _) H). Qed.

Lemma start_2 (x : N) :
  194 <= x -> x < 224 -> utf8_start x = (Pending 0 (x - 192) 128 191, []).
Proof.
  intros H1 H2. unfold utf8_start.
  rewrite (proj2 (N.ltb_ge x 128)) by lia.
  rewrite (proj2 (N.ltb_ge x 194)) by lia.
  now rewrite (proj2 (N.ltb_lt x 224)) by lia.
Qed.

Lemma start_3 (x : N) :
  224 <= x -> x < 240 ->
  utf8_start x = (Pending 1 (x - 224) (if x =? 224 then 160 else 128)
                          (if x =? 237 then 159 else 191), []).
Proof.
  intros H1 H2. unfold utf8_start.
  rewrite (proj2 (N.ltb_ge x 128)) by lia.
  rewrite (proj2 (N.ltb_ge x 194)) by lia.
  rewrite (proj2 (N.ltb_ge x 224)) by lia.
  now rewrite (proj2 (N.ltb_lt x 240)) by lia.
Qed.

Lemma start_4 (x : N) :
  240 <= x -> x < 245 ->
  utf8_start x = (Pending 2 (x - 240) (if x =? 240 then 144 else 128)
                          (if x =? 244 then 143 else 191), []).
Proof.
  intros H1 H2. unfold utf8_start.
  rewrite (proj2 (N.ltb_ge x 128)) by lia.
  rewrite (proj2 (N.ltb_ge x 194)) by lia.
  rewrite (proj2 (N.ltb_ge x 224)) by lia.
  rewrite (proj2 (N.ltb_ge x 240)) by lia.
  now rewrite (proj2 (N.ltb_lt x 245)) by lia.
Qed.

(** A continuation byte within the bounds is taken. *)
Lemma feed_cont (need : nat) (acc lo hi n : N) :
  n < 256 -> lo <= n -> n <= hi ->
  utf8_feed (Pending need acc lo hi) (byte_of n)
  = match need with
    | O => (Idle, [acc * 64 + (n - 128)])
    | S need' => (Pending need' (acc * 64 + (n - 128)) 128 191, [])
    end.
Proof.
  intros Hn H1 H2. unfold utf8_feed. rewrite (to_N_byte_of n Hn).
  rewrite (proj2 (N.leb_le lo n) H1), (proj2 (N.leb_le n hi) H2).
  reflexivity.
Qed.

Lemma feed_start (n : N) :
  n < 256 -> utf8_feed Idle (byte_of n) = utf8_start n.
Proof. intro H. unfold utf8_feed. now rewrite (to_N_byte_of n H). Qed.

End Utf8Facts.

Module Lossless.
Import Codecs Utf8Facts.
Local Open Scope N_scope.

Lemma utf8_feed_all_1 (cp : N) :
  cp < 128 -> feed_all utf8_codec Idle [byte_of cp] = (Idle, [cp]).
Proof.
  intro H. cbn [feed_all dfeed utf8_codec].
  rewrite feed_start by lia. rewrite start_1 by lia. reflexivity.
Qed.

Lemma utf8_feed_all_2 (cp : N) :
  128 <= cp -> cp < 2048 ->
  feed_all utf8_codec Idle [byte_of (192 + cp / 64); byte_of (128 + cp mod 64)]
  = (Idle, [cp]).
Proof.
  intros H1 H2. destruct (base64_digits cp) as [D R].
  remember (cp / 64) as q. remember (cp mod 64) as d.
  cbn [feed_all dfeed utf8_codec].
  rewrite feed_start by lia. rewrite start_2 by lia.
  rewrite feed_cont by lia.
  cbn [app]. do 2 f_equal. lia.
Qed.

Lemma utf8_feed_all_3 (cp : N) :
  2048 <= cp -> cp < 65536 -> ~ (55296 <= cp /\ cp < 57344) ->
  feed_all utf8_codec Idle
    [byte_of (224 + cp / 4096); byte_of (128 + (cp / 64) mod 64);
     byte_of (128 + cp mod 64)]
  = (Idle, [cp]).
Proof.
  intros H1 H2 H3. rewrite div_4096.
  destruct (base64_digits cp) as [D1 R1].
  remember (cp mod 64) as d1. remember (cp / 64) as q1.
  destruct (base64_digits q1) as [D2 R2].
  remember (q1 mod 64) as d2. remember (q1 / 64) as q2.
  cbn [feed_all dfeed utf8_codec].
  rewrite feed_start by lia. rewrite start_3 by lia.
  destruct (N.eqb_spec (224 + q2) 224), (N.eqb_spec (224 + q2) 237);
    rewrite feed_cont by lia; rewrite feed_cont by lia;
    cbn [app]; do 2 f_equal; lia.
Qed.

Lemma utf8_feed_all_4 (cp : N) :
  65536 <= cp -> cp < 1114112 ->
  feed_all utf8_codec Idle
    [byte_of (240 + cp / 262144); byte_of (128 + (cp / 4096) mod 64);
     byte_of (128 + (cp / 64) mod 64); byte_of (128 + cp mod 64)]
  = (Idle, [cp]).
Proof.
  intros H1 H2. rewrite div_262144, div_4096.
  destruct (base64_digits cp) as [D1 R1].
  remember (cp mod 64) as d1. remember (cp / 64) as q1.
  destruct (base64_digits q1) as [D2 R2].
  remember (q1 mod 64) as d2. remember (q1 / 64) as q2.
  destruct (base64_digits q2) as [D3 R3].
  remember (q2 mod 64) as d3. remember (q2 / 64) as q3.
  cbn [feed_all dfeed utf8_codec].
  rewrite feed_start by lia. rewrite start_4 by lia.
  destruct (N.eqb_spec (240 + q3) 240), (N.eqb_spec (240 + q3) 244);
    rewrite feed_cont by lia; rewrite feed_cont by lia;
    rewrite feed_cont by lia;
    cbn [app]; do 2 f_equal; lia.
Qed.

Lemma utf8_lossless : lossless utf8_codec.
Proof.
  split; [reflexivity|]. intros cp bs. cbn [enc_char utf8_codec dinit].
  unfold utf8_enc.
  destruct (N.ltb_spec cp 128).
  { intros [= <-]. now apply utf8_feed_all_1. }
  destruct (N.ltb_spec cp 2048).
  { intros [= <-]. now apply utf8_feed_all_2. }
  destruct (N.ltb_spec cp 65536).
  { destruct (N.leb_spec 55296 cp), (N.ltb_spec cp 57344); cbn [andb];
      try discriminate; intros [= <-]; apply utf8_feed_all_3; lia. }
  destruct (N.ltb_spec cp 1114112); [|discriminate].
  intros [= <-]. now apply utf8_feed_all_4.
Qed.

Lemma ascii_lossless : lossless ascii_codec.
Proof.
  split; [reflexivity|]. intros cp bs. cbn [enc_char ascii_codec dinit].
  destruct (N.ltb_spec cp 128); [|discriminate]. intros [= <-].
  cbn [feed_all dfeed ascii_codec]. rewrite to_N_byte_of by lia.
  now rewrite (proj2 (N.ltb_lt _ _) H).
Qed.

Lemma latin1_lossless : lossless latin1_codec.
Proof.
  split; [reflexivity|]. intros cp bs. cbn [enc_char latin1_codec dinit].
  destruct (N.ltb_spec cp 256); [|discriminate]. intros [= <-].
  cbn [feed_all dfeed latin1_codec]. now rewrite to_N_byte_of by lia.
Qed.

End Lossless.

Lemma encode_strict_succeeds (c : CharCodec) (t : text) :
  (forall cp, In cp t -> enc_char c cp <> None) ->
  exists bs, encode_strict c t = Some bs.
Proof.
  intro H. destruct (encode_strict c t) as [bs|] eqn:E; [now exists bs|].
  apply encode_strict_fails in E. destruct E as (cp & Hin & Hn).
  now elim (H cp Hin).
Qed.

(** The same, asked of the code points of the text only. *)
Lemma roundtrip_comes_back (c : CharCodec) :
  decode_replace c [] = [] ->
  forall t, Forall (comes_back c) t ->
  exists bs, encode_strict c t = Some bs /\ decode_replace c bs = t.
Proof.
  intros Hflush. unfold decode_replace in *.
  induction 1 as [|cp t (part & E & F) Ht (rest & Er & Dr)].
  - exists []. split; [reflexivity | exact Hflush].
  - exists (part ++ rest)%list. cbn [encode_strict]. rewrite E, Er.
    split; [reflexivity|].
    rewrite decode_from_app, F. cbn [fst snd app]. now rewrite Dr.
Qed.

Lemma of_chars_signed (c : CharCodec) : signed_by (of_chars c) [] c.
Proof. split; intros; reflexivity. Qed.

Lemma utf_8_sig_signed :
  signed_by Codecs.utf_8_sig_codec Codecs.BOM_UTF8 Codecs.utf8_codec.
Proof. split; intros; reflexivity. Qed.

(** C7, as stated, does not hold: in cp932 the code point U+301C WAVE DASH
    is representable, its encoding is the byte pair 81 60, and that pair
    decodes to U+FF5E FULLWIDTH TILDE. *)
Lemma wave_dash_does_not_come_back :
  enc_char Codecs.cp932_codec 12316%N <> None
  /\ str_encode Codecs.lookup "cp932" [12316%N]
     = inr [Codecs.byte_of 129; Codecs.byte_of 96]
  /\ bytes_decode Codecs.lookup "cp932" [Codecs.byte_of 129; Codecs.byte_of 96]
     = inr [65374%N]
  /\ [65374%N] <> [12316%N].
Proof.
  repeat split; try reflexivity; discriminate.
Qed.

(** C7, amended.  For an encoding whose codec writes a fixed signature,
    possibly empty, and then encodes one character at a time, and for a
    text whose every code point is representable and comes back from its
    own encoding, the text is encoded, and decoding the bytes with the same
    encoding gives the text back exactly.  Nothing is asked of the code
    points that are not in the text. *)
Theorem roundtrip
    (codecs : string -> CodecError + Codec) (e : string) (k : Codec)
    (signature : bytes) (c : CharCodec) (t : text) :
  codecs e = inr k ->
  signed_by k signature c ->
  decode_replace c [] = [] ->
  Forall (comes_back c) t ->
  exists bs, str_encode codecs e t = inr bs
             /\ bytes_decode codecs e bs = inr t.
Proof.
  intros Hk [Henc Hdec] Hflush Ht.
  destruct (roundtrip_comes_back c Hflush t Ht) as (bs & E & D).
  exists (signature ++ bs)%list. unfold str_encode, bytes_decode.
  rewrite Hk, Henc, E. split; [reflexivity|].
  destruct (signature ++ bs)%list as [|x l] eqn:Es.
  - apply app_eq_nil in Es. destruct Es as [_ ->].
    rewrite Hflush in D. now rewrite D.
  - rewrite <- Es, Hdec, D. reflexivity.
Qed.


Lemma roundtrip_witness :
  (exists bs, str_encode Codecs.lookup "cp932" tilde_text = inr bs
              /\ bytes_decode Codecs.lookup "cp932" bs = inr tilde_text)
  /\ (exists bs, str_encode Codecs.lookup "utf-8-sig" greeting = inr bs
                 /\ bytes_decode Codecs.lookup "utf-8-sig" bs = inr greeting).
Proof.
  split.
  - apply (roundtrip Codecs.lookup "cp932" (of_chars Codecs.cp932_codec) []
             Codecs.cp932_codec tilde_text eq_refl
             (of_chars_signed Codecs.cp932_codec) eq_refl).
    repeat constructor; eexists; split; reflexivity.
  - apply (roundtrip Codecs.lookup "utf-8-sig" Codecs.utf_8_sig_codec
             Codecs.BOM_UTF8 Codecs.utf8_codec greeting eq_refl
             utf_8_sig_signed eq_refl).
    repeat constructor; eexists; split; reflexivity.
Defined.

Lemma safe_path_spec_witness :
  safe_path "/srv/site/" "a/../../x" = inl InvalidPath
  /\ safe_path "/srv/site/" "/a/./b//c.html" = inr "/srv/site/a/b/c.html".
Proof.
  split.
  - apply (proj1 (safe_path_spec "/srv/site/" "a/../../x")). left. reflexivity.
  - apply (proj2 (safe_path_spec "/srv/site/" "/a/./b//c.html")); reflexivity.
Defined.

(* ================================================================== *)
(** * The model on sample inputs

    Each value below is what CPython returns for the same input. *)

Example normpath_samples :
  map PosixPath.normpath
    [ "/../../etc/passwd"; "../../etc/passwd"; "a/../.."; "./a/./b/"; "a//b";
      "//a"; "///a"; ""; "/.."; "a/b/../c"; "\.."; "..foo" ]
  = [ "/etc/passwd"; "../../etc/passwd"; ".."; "a/b"; "a/b";
      "//a"; "/a"; "."; "/"; "a/c"; "\.."; "..foo" ].
Proof. reflexivity. Qed.

Example splitext_samples :
  map Splitext.ext
    [ "a.png"; "a.tar.gz"; ".bashrc"; "..a"; "a/.b"; "a.b/c"; "x.HTML";
      "...txt"; "a."; "a/.x.y" ]
  = [ ".png"; ".gz"; ""; ""; ""; ""; ".HTML"; ""; "."; ".y" ].
Proof. reflexivity. Qed.

Example is_text_file_samples :
  map is_text_file [ "index.html"; "A.HTM"; "site.css"; "logo.png"; "README"; ".txt" ]
  = [ true; true; true; false; false; false ].
Proof. reflexivity. Qed.

Example extract_meta_charset_samples :
  map (fun s => extract_meta_charset (list_byte_of_string s))
    [ "<meta http-equiv='Content-Type' content='text/html; charset=EUC-JP'>";
      "<meta charset=''>";
      "<meta charset=a charset='b' >";
      "<meta x>charset=abc";
      "<meta name='a>b' content='text/html;charset=x>y'>";
      "content='charset=q'" ]
  = [ Some "euc-jp"; None; Some "b"; None; Some "x>y"; Some "q" ].
Proof. vm_compute. reflexivity. Qed.

Example b64encode_samples :
  map (fun s => Base64.b64encode (list_byte_of_string s)) [ ""; "M"; "Ma"; "Man"; "Many" ]
  = [ ""; "TQ=="; "TWE="; "TWFu"; "TWFueQ==" ].
Proof. reflexivity. Qed.

Example utf8_decode_samples :
  map (fun l => decode_replace Codecs.utf8_codec (map Codecs.byte_of l))
    [ [255]; [224; 128]; [224; 160; 97]; [237; 160; 128]; [240; 144; 128];
      [226; 130; 172]; [240; 159; 152; 128]; [225; 128; 225; 128; 128] ]%N
  = [ [65533]; [65533; 65533]; [65533; 97]; [65533; 65533; 65533]; [65533];
      [8364]; [128512]; [65533; 4096] ]%N.
Proof. reflexivity. Qed.

Example codec_layer_samples :
  str_encode Codecs.lookup "utf-8-sig" [97; 233]%N
  = inr (map Codecs.byte_of [239; 187; 191; 97; 195; 169]%N)
  /\ bytes_decode Codecs.lookup "UTF-8-SIG"
       (map Codecs.byte_of [239; 187; 191; 239; 187; 191; 97; 98]%N)
     = inr [65279; 97; 98]%N
  /\ bytes_decode Codecs.lookup "utf_8_sig" (map Codecs.byte_of [239; 187; 97; 98]%N)
     = inr [65533; 97; 98]%N
  /\ str_encode Codecs.lookup "x-bogus" [104; 105]%N = inl LookupError
  /\ str_encode Codecs.lookup "x-bogus" [] = inl LookupError
  /\ bytes_decode Codecs.lookup "x-bogus" [Codecs.byte_of 97] = inl LookupError
  /\ bytes_decode Codecs.lookup "x-bogus" [] = inr []
  /\ str_encode Codecs.lookup "UNDEFINED" [104; 105]%N = inl UnicodeError
  /\ bytes_decode Codecs.lookup "undefined" [Codecs.byte_of 97] = inl UnicodeError
  /\ bytes_decode Codecs.lookup "undefined" [] = inr []
  /\ str_encode Codecs.lookup (String zero "utf-8") [104; 105]%N = inl ValueError
  /\ bytes_decode Codecs.lookup ("utf" ++ String zero "8") [] = inl ValueError
  /\ str_encode Codecs.lookup "ascii" [104; 233]%N = inl UnicodeEncodeError
  /\ str_encode Codecs.lookup "Latin-1" [104; 233]%N
     = inr (map Codecs.byte_of [104; 233]%N).
Proof. repeat split; reflexivity. Qed.

(** A file name made of a backslash and two dots is, on POSIX, one
    component; once the backslash is replaced the normalized form ends with
    a [..] that neither test of the sanitizer looks for. *)
Example safe_path_trailing_dotdot :
  normalized_of "\.." = "/.." /\ safe_path "/srv/site" "\.." = inr "/srv/site/..".
Proof. split; reflexivity. Qed.

(* ================================================================== *)
(** * The session, whatever runs in it *)

Section SessionScope.

Variable cfg : Config.
Variable net : Faults.

(** [ftp_connection] step by step: the faults of connect and login end it
    before the body, the body runs between login and quit, and a fault of
    quit replaces the outcome of the body. *)
Lemma ftp_connection_run (A : Type) (body : M A) (r : Remote) :
  ftp_connection cfg net body r
  = match connect_fault net with
    | Some e => (inl e, r)
    | None =>
        match login_fault net with
        | Some e => (inl e, with_events r [Connected (FTP_HOST cfg)])
        | None =>
            let r2 := with_events r [Connected (FTP_HOST cfg);
                                     LoggedIn (FTP_USER cfg) (FTP_PASS cfg)] in
            match quit_fault net with
            | Some e => (inl e, snd (body r2))
            | None => (fst (body r2), with_events (snd (body r2)) [Closed])
            end
        end
    end.
Proof.
  unfold ftp_connection, client_connect, client_login, client_quit,
    finally, bind, may_fail, log, ret, raise, with_events.
  destruct (connect_fault net); [reflexivity|].
  destruct (login_fault net); [reflexivity|].
  cbn [files journal]. rewrite <- app_assoc. cbn [app].
  destruct (body _) as [res r3]. cbn [fst snd].
  destruct (quit_fault net); reflexivity.
Qed.

(** A body that leaves the store alone makes a session that does. *)
Lemma ftp_connection_keeps_files (A : Type) (body : M A) (r : Remote) :
  (forall r0, files (snd (body r0)) = files r0) ->
  files (snd (ftp_connection cfg net body r)) = files r.
Proof.
  intro H. rewrite ftp_connection_run.
  destruct (connect_fault net); [reflexivity|].
  destruct (login_fault net); [reflexivity|].
  cbv zeta. destruct (quit_fault net); cbn [snd with_events files]; now rewrite H.
Qed.

End SessionScope.

(** X1.  When connect, login and quit meet no fault, the session is closed
    after the body whether the body returned or raised: the outcome is the
    body's own, and the journal is the body's with [Closed] at its end. *)
Theorem session_closed_after_body
    (cfg : Config) (net : Faults) (A : Type) (body : M A) (r : Remote) :
  connect_fault net = None -> login_fault net = None -> quit_fault net = None ->
  let r2 := with_events r [Connected (FTP_HOST cfg);
                           LoggedIn (FTP_USER cfg) (FTP_PASS cfg)] in
  fst (ftp_connection cfg net body r) = fst (body r2)
  /\ journal (snd (ftp_connection cfg net body r))
     = (journal (snd (body r2)) ++ [Closed])%list.
Proof.
  intros Hc Hl Hq r2. rewrite ftp_connection_run, Hc, Hl, Hq. now split.
Qed.

Lemma session_closed_after_body_witness :
  fst (ftp_connection Sample.cfg no_faults (raise (A := unit) "boom") Sample.remote)
  = inl "boom"
  /\ journal (snd (ftp_connection Sample.cfg no_faults
                     (raise (A := unit) "boom") Sample.remote))
     = [Connected "ftp.example.org"; LoggedIn "cms" "secret"; Closed].
Proof.
  exact (session_closed_after_body Sample.cfg no_faults unit (raise "boom")
           Sample.remote eq_refl eq_refl eq_refl).
Defined.

(** X2.  When the login fails after a successful connect, the body does not
    run and quit is not called: the exception is the login's, and the
    journal gains the connection and nothing else, so no [Closed]. *)
Theorem login_failure_leaves_session_open
    (cfg : Config) (net : Faults) (A : Type) (body : M A) (r : Remote) (e : string) :
  connect_fault net = None -> login_fault net = Some e ->
  ftp_connection cfg net body r
  = (inl e, with_events r [Connected (FTP_HOST cfg)]).
Proof.
  intros Hc Hl. now rewrite ftp_connection_run, Hc, Hl.
Qed.

Lemma login_failure_leaves_session_open_witness :
  ftp_connection Sample.cfg login_refused (ret tt) Sample.remote
  = (inl "530 Login incorrect",
     with_events Sample.remote [Connected "ftp.example.org"]).
Proof.
  exact (login_failure_leaves_session_open Sample.cfg login_refused unit (ret tt)
           Sample.remote "530 Login incorrect" eq_refl eq_refl).
Defined.

(* ================================================================== *)
(** * What the endpoints do to the store *)

Lemma download_stream_keeps_files (net : Faults) (ftp_path : string) (r : Remote) :
  files (snd (download_stream net ftp_path r)) = files r.
Proof.
  unfold download_stream, bind, may_fail, log, ret, raise.
  destruct (transfer_fault net); [reflexivity|].
  now destruct (lookup_file (files r) ftp_path).
Qed.

Lemma client_list_keeps_files
    (net : Faults) (server_list : string -> string + list (string * Info))
    (ftp_path : string) (A : Type) (k : list (string * Info) -> string + A)
    (r : Remote) :
  files (snd ((items <- client_list net server_list ftp_path ;;
               match k items with
               | inl e => raise e
               | inr a => ret a
               end) r)) = files r.
Proof.
  unfold client_list, bind, may_fail, ret, raise.
  destruct (transfer_fault net); [reflexivity|].
  destruct (server_list ftp_path) as [e|items]; [reflexivity|].
  now destruct (k items).
Qed.

(** X3.  A read and a listing never change the files of the store,
    whatever the path, the faults of the server and the collaborators. *)
Theorem reads_keep_store
    (cfg : Config) (net : Faults) (chardet_detect : bytes -> option string)
    (guess_type : string -> option string) (codecs : string -> CodecError + Codec)
    (py_int : string -> option Z)
    (server_list : string -> string + list (string * Info)) (r : Remote) :
  (forall path,
     files (snd (ftp_read cfg net chardet_detect guess_type codecs path r)) = files r)
  /\ (forall query,
        files (snd (ftp_list cfg net guess_type py_int server_list query r)) = files r).
Proof.
  split.
  - intro path. unfold ftp_read.
    destruct (safe_path _ _) as [e|ftp_path]; [reflexivity|].
    pose proof (ftp_connection_keeps_files cfg net _
                  (download_stream net ftp_path) r
                  (download_stream_keeps_files net ftp_path)) as K.
    destruct (ftp_connection cfg net _ r) as [[e|blocks] r']; cbn [snd] in *;
      [exact K|].
    destruct (is_text_file path); [|exact K].
    destruct (decode_with_fallback _ _ _) as [?|[? ?]]; exact K.
  - intro query. unfold ftp_list.
    destruct (safe_path _ _) as [e|ftp_path]; [reflexivity|].
    match goal with
    | |- context [ftp_connection cfg net ?body r] =>
        pose proof (ftp_connection_keeps_files cfg net _ body r) as K
    end.
    match type of K with
    | ?P -> _ => assert (H : P) by (intro r0; apply client_list_keeps_files)
    end.
    specialize (K H).
    destruct (ftp_connection cfg net _ r) as [[e|entries] r']; exact K.
Qed.

Lemma lookup_file_other (fs : list (string * bytes)) (p q : string) (data : bytes) :
  p <> q -> lookup_file ((q, data) :: fs) p = lookup_file fs p.
Proof.
  intro H. simpl. destruct (String.eqb_spec q p); [congruence | reflexivity].
Qed.

Lemma lookup_file_same (fs : list (string * bytes)) (p : string) (data : bytes) :
  lookup_file ((p, data) :: fs) p = Some data.
Proof. simpl. now rewrite String.eqb_refl. Qed.

(** The store after a session of one upload: as before, or with the file. *)
Lemma upload_session_files
    (cfg : Config) (net : Faults) (ftp_path : string) (data : bytes) (r : Remote) :
  files (snd (ftp_connection cfg net (upload_stream net ftp_path data) r)) = files r
  \/ files (snd (ftp_connection cfg net (upload_stream net ftp_path data) r))
     = (ftp_path, data) :: files r.
Proof.
  rewrite ftp_connection_run.
  destruct (connect_fault net); [now left|].
  destruct (login_fault net); [now left|].
  cbv zeta. unfold upload_stream, bind, may_fail, ret, raise.
  destruct (transfer_fault net); destruct (quit_fault net);
    cbn [snd files with_events]; auto.
Qed.

(** X4.  A write and an upload change at most the file at the sanitized
    path of the request: every other path of the store holds what it held,
    whatever the faults. *)
Theorem writes_touch_one_path
    (cfg : Config) (net : Faults) (codecs : string -> CodecError + Codec) (r : Remote)
    (p : string) :
  (forall req ftp_path,
     safe_path (FTP_BASE cfg) (WriteRequest.path req) = inr ftp_path ->
     p <> ftp_path ->
     lookup_file (files (snd (ftp_write cfg net codecs req r))) p
     = lookup_file (files r) p)
  /\ (forall dir file ftp_path,
        safe_path (FTP_BASE cfg) (dir ++ "/" ++ UploadFile.filename file)
        = inr ftp_path ->
        p <> ftp_path ->
        lookup_file (files (snd (ftp_upload_image cfg net dir file r))) p
        = lookup_file (files r) p).
Proof.
  split.
  - intros req ftp_path Hs Hp. unfold ftp_write. rewrite Hs.
    destruct (str_encode codecs _ _) as [e|bs]; [now destruct e|].
    destruct (upload_session_files cfg net ftp_path bs r) as [K|K];
      destruct (ftp_connection cfg net _ r) as [[e|u] r']; cbn [snd] in *;
      rewrite K; auto using lookup_file_other.
  - intros dir file ftp_path Hs Hp. unfold ftp_upload_image. rewrite Hs.
    destruct (upload_session_files cfg net ftp_path (UploadFile.data file) r)
      as [K|K];
      destruct (ftp_connection cfg net _ r) as [[e|u] r']; cbn [snd] in *;
      rewrite K; auto using lookup_file_other.
Qed.

Lemma writes_touch_one_path_witness :
  lookup_file (files (snd (Sample.write utf8_request Sample.remote)))
    "/srv/site/index.html"
  = Some Sample.page.
Proof.
  exact (proj1 (writes_touch_one_path Sample.cfg no_faults Codecs.lookup
                  Sample.remote "/srv/site/index.html")
           utf8_request "/srv/site/news.html" eq_refl
           ltac:(discriminate)).
Defined.

(* ================================================================== *)
(** * Faults of the transfer *)

(** The outcome of the session of a read, case by case. *)
Lemma download_session_outcome
    (cfg : Config) (net : Faults) (ftp_path : string) (r : Remote) :
  fst (ftp_connection cfg net (download_stream net ftp_path) r)
  = match connect_fault net, login_fault net, quit_fault net,
          transfer_fault net, lookup_file (files r) ftp_path with
    | Some e, _, _, _, _ => inl e
    | None, Some e, _, _, _ => inl e
    | None, None, Some e, _, _ => inl e
    | None, None, None, Some e, _ => inl e
    | None, None, None, None, None => inl "550 file unavailable"
    | None, None, None, None, Some data => inr (iter_by_block 8192 data)
    end.
Proof.
  rewrite ftp_connection_run.
  destruct (connect_fault net); [reflexivity|].
  destruct (login_fault net); [reflexivity|].
  cbv zeta. destruct (quit_fault net); [reflexivity|].
  unfold download_stream, bind, may_fail, log, ret, raise. cbn [fst].
  destruct (transfer_fault net); [reflexivity|].
  cbn [files with_events]. now destruct (lookup_file (files r) ftp_path).
Qed.

(** X5.  For a path the sanitizer accepts, a read answers with status 502
    and the message of the read fault exactly when a call of the session
    fails or the file is missing; a fault of quit alone is enough, even
    though the payload was already fetched. *)
Theorem read_fails_on_any_fault
    (cfg : Config) (net : Faults) (chardet_detect : bytes -> option string)
    (guess_type : string -> option string) (codecs : string -> CodecError + Codec)
    (path ftp_path : string) (r : Remote) :
  safe_path (FTP_BASE cfg) path = inr ftp_path ->
  ((exists e, fst (ftp_read cfg net chardet_detect guess_type codecs path r)
              = inl (HTTPExc 502 (FtpReadMsg e)))
   <->
   (connect_fault net <> None \/ login_fault net <> None
    \/ transfer_fault net <> None \/ quit_fault net <> None
    \/ lookup_file (files r) ftp_path = None)).
Proof.
  intro Hs. unfold ftp_read. rewrite Hs.
  pose proof (download_session_outcome cfg net ftp_path r) as K.
  destruct (ftp_connection cfg net _ r) as [[e|blocks] r']; cbn [fst] in *.
  - split.
    + intros _.
      destruct (connect_fault net); [left; discriminate|].
      destruct (login_fault net); [right; left; discriminate|].
      destruct (quit_fault net); [do 3 right; left; discriminate|].
      destruct (transfer_fault net); [do 2 right; left; discriminate|].
      destruct (lookup_file (files r) ftp_path); [discriminate|].
      do 4 right. reflexivity.
    + intros _. now exists e.
  - split.
    + intros [e He].
      destruct (is_text_file path); [|discriminate].
      destruct (decode_with_fallback _ _ _) as [?|[? ?]]; discriminate.
    + destruct (connect_fault net); [discriminate|].
      destruct (login_fault net); [discriminate|].
      destruct (quit_fault net); [discriminate|].
      destruct (transfer_fault net); [discriminate|].
      destruct (lookup_file (files r) ftp_path); [|discriminate].
      intros [H|[H|[H|[H|H]]]]; congruence.
Qed.

Lemma read_fails_on_any_fault_witness :
  fst (ftp_read Sample.cfg quit_fails Sample.chardet_detect Sample.guess_type
         Codecs.lookup "logo.png" Sample.remote)
  = inl (HTTPExc 502 (FtpReadMsg "421 Timeout")).
Proof.
  destruct (proj2 (read_fails_on_any_fault Sample.cfg quit_fails
                     Sample.chardet_detect Sample.guess_type Codecs.lookup
                     "logo.png" "/srv/site/logo.png" Sample.remote eq_refl))
    as [e He].
  - do 3 right. left. discriminate.
  - rewrite He. vm_compute in He. now injection He as <-.
Defined.

(* ================================================================== *)
(** * Writing, then reading *)

Section WriteRead.

Variable cfg : Config.
Variable codecs : string -> CodecError + Codec.

(** A write that meets no fault stores the encoded content. *)
Lemma ftp_write_ok (req : WriteRequest.t) (ftp_path : string) (bs : bytes)
    (r : Remote) :
  safe_path (FTP_BASE cfg) (WriteRequest.path req) = inr ftp_path ->
  str_encode codecs (target_encoding req) (WriteRequest.content req) = inr bs ->
  ftp_write cfg no_faults codecs req r
  = (inr StatusOk,
     {| files := (ftp_path, bs) :: files r;
        journal := (journal r ++ upload_events cfg ftp_path bs)%list |}).
Proof.
  intros Hs He. unfold ftp_write. fold (target_encoding req).
  now rewrite Hs, He, upload_ok.
Qed.

End WriteRead.

(** X6.  Without a fault, a write whose content the strict encoder of the
    target encoding accepts answers ok and leaves at the sanitized path
    exactly the bytes the encoder returned, which are also the bytes of the
    one upload in the journal.  When the codec of the encoding works one
    character at a time, those bytes are the encodings of the code points
    of the content, one after the other, none dropped and none replaced. *)
Theorem write_stores_strict_encoding
    (cfg : Config) (codecs : string -> CodecError + Codec) (req : WriteRequest.t)
    (ftp_path : string) (bs : bytes) (r : Remote) :
  safe_path (FTP_BASE cfg) (WriteRequest.path req) = inr ftp_path ->
  str_encode codecs
    (normalize_encoding (PyStr.or_else (WriteRequest.encoding req) "utf-8"))
    (WriteRequest.content req) = inr bs ->
  fst (ftp_write cfg no_faults codecs req r) = inr StatusOk
  /\ lookup_file (files (snd (ftp_write cfg no_faults codecs req r))) ftp_path
     = Some bs
  /\ journal (snd (ftp_write cfg no_faults codecs req r))
     = (journal r ++ upload_events cfg ftp_path bs)%list
  /\ (forall c,
        codecs (normalize_encoding
                  (PyStr.or_else (WriteRequest.encoding req) "utf-8"))
        = inr (of_chars c) ->
        exists parts,
          Forall2 (fun cp part => enc_char c cp = Some part)
                  (WriteRequest.content req) parts
          /\ bs = List.concat parts).
Proof.
  intros Hs He.
  rewrite (ftp_write_ok cfg codecs req ftp_path bs r Hs He).
  cbn [fst snd files journal].
  split; [reflexivity|]. split; [apply lookup_file_same|].
  split; [reflexivity|].
  intros c Hc. unfold str_encode in He. rewrite Hc in He.
  cbn [codec_encode of_chars] in He.
  destruct (encode_strict c (WriteRequest.content req)) as [bs'|] eqn:E;
    [|discriminate].
  injection He as <-. now apply encode_strict_complete.
Qed.

Lemma write_stores_strict_encoding_witness :
  fst (Sample.write utf8_request Sample.remote) = inr StatusOk
  /\ lookup_file (files (snd (Sample.write utf8_request Sample.remote)))
       "/srv/site/news.html"
     = Some utf8_page_bytes
  /\ skipn 20 utf8_page_bytes
     = map Codecs.byte_of [227; 129; 147; 227; 130; 147; 240; 159; 152; 128]%N.
Proof.
  destruct (write_stores_strict_encoding Sample.cfg Codecs.lookup utf8_request
              "/srv/site/news.html" utf8_page_bytes Sample.remote
              eq_refl eq_refl) as (H1 & H2 & _).
  split; [exact H1|]. split; [exact H2 | reflexivity].
Defined.

(** X24.  An exception of the encoding step that is neither
    [UnicodeEncodeError] nor [LookupError] is caught by no handler of
    [ftp_write]: for a path the sanitizer accepts the write ends with an
    unhandled exception, status 500, before any session is connected, and
    the remote side is as it was. *)
Theorem uncaught_encode_error_aborts_write
    (cfg : Config) (net : Faults) (codecs : string -> CodecError + Codec)
    (req : WriteRequest.t) (ftp_path : string) (r : Remote) (e : CodecError) :
  safe_path (FTP_BASE cfg) (WriteRequest.path req) = inr ftp_path ->
  str_encode codecs
    (normalize_encoding (PyStr.or_else (WriteRequest.encoding req) "utf-8"))
    (WriteRequest.content req) = inl e ->
  e <> UnicodeEncodeError -> e <> LookupError ->
  ftp_write cfg net codecs req r = (inl (HTTPExc 500 Unhandled), r).
Proof.
  intros Hs He H1 H2.
  rewrite (ftp_write_encode_failure cfg net codecs req ftp_path e r Hs He).
  destruct e; try reflexivity; congruence.
Qed.

Lemma uncaught_encode_error_aborts_write_witness :
  Sample.write undefined_request Sample.remote
  = (inl (HTTPExc 500 Unhandled), Sample.remote).
Proof.
  exact (uncaught_encode_error_aborts_write Sample.cfg no_faults Codecs.lookup
           undefined_request "/srv/site/index.html" Sample.remote UnicodeError
           eq_refl eq_refl ltac:(discriminate) ltac:(discriminate)).
Defined.

(** X7.  Write, then read.  When a text file is written without a fault in
    an encoding whose codec is lossless, and the resolver settles for the
    stored bytes on a name of that same codec, the read that follows
    returns the written content exactly. *)
Theorem write_then_read
    (cfg : Config) (chardet_detect : bytes -> option string)
    (guess_type : string -> option string)
    (codecs : string -> CodecError + Codec)
    (req : WriteRequest.t) (c : CharCodec) (ftp_path : string) (bs : bytes)
    (r : Remote) :
  safe_path (FTP_BASE cfg) (WriteRequest.path req) = inr ftp_path ->
  is_text_file (WriteRequest.path req) = true ->
  codecs (normalize_encoding (PyStr.or_else (WriteRequest.encoding req) "utf-8"))
  = inr (of_chars c) ->
  lossless c ->
  encode_strict c (WriteRequest.content req) = Some bs ->
  codecs (resolve_encoding chardet_detect bs) = inr (of_chars c) ->
  fst (ftp_write cfg no_faults codecs req r) = inr StatusOk
  /\ fst (ftp_read cfg no_faults chardet_detect guess_type codecs
            (WriteRequest.path req)
            (snd (ftp_write cfg no_faults codecs req r)))
     = inr {| content := WriteRequest.content req;
              detectedEncoding := resolve_encoding chardet_detect bs;
              mimeType := PyStr.or_else (guess_type (WriteRequest.path req))
                            "application/octet-stream" |}.
Proof.
  intros Hs Ht Hc Hl He Hres.
  rewrite (ftp_write_ok cfg codecs req ftp_path bs r Hs)
    by (unfold str_encode, target_encoding; rewrite Hc;
        cbn [codec_encode of_chars]; now rewrite He).
  cbn [fst snd]. split; [reflexivity|].
  rewrite (ftp_read_fetched cfg chardet_detect guess_type codecs
             (WriteRequest.path req) ftp_path bs
             {| files := (ftp_path, bs) :: files r;
                journal := (journal r ++ upload_events cfg ftp_path bs)%list |}
             Hs (lookup_file_same (files r) ftp_path bs)).
  assert (Hflush : decode_replace c [] = []) by exact (proj1 Hl).
  rewrite Ht, (decode_with_fallback_known codecs c bs _ Hres (or_intror Hflush)).
  cbn [fst]. now rewrite (roundtrip_lossless c Hl _ bs He).
Qed.

Lemma write_then_read_witness :
  fst (Sample.write utf8_request Sample.remote) = inr StatusOk
  /\ fst (Sample.read "news.html" (snd (Sample.write utf8_request Sample.remote)))
     = inr {| content := WriteRequest.content utf8_request;
              detectedEncoding := "utf-8";
              mimeType := "text/html" |}.
Proof.
  exact (write_then_read Sample.cfg Sample.chardet_detect Sample.guess_type
           Codecs.lookup utf8_request Codecs.utf8_codec "/srv/site/news.html"
           utf8_page_bytes Sample.remote
           eq_refl eq_refl eq_refl Lossless.utf8_lossless eq_refl eq_refl).
Defined.

(** X8.  Upload, then read.  Without a fault, an upload to a path the
    sanitizer accepts answers with the url [path/filename], stores the
    bytes of the file unchanged, and a read of that url, when its extension
    is not a text one, returns those bytes in base64: the code points of
    the base64 characters, four for every three bytes of the file. *)
Theorem upload_then_read
    (cfg : Config) (chardet_detect : bytes -> option string)
    (guess_type : string -> option string)
    (codecs : string -> CodecError + Codec)
    (dir : string) (file : UploadFile.t) (ftp_path : string) (r : Remote) :
  let url := dir ++ "/" ++ UploadFile.filename file in
  safe_path (FTP_BASE cfg) url = inr ftp_path ->
  is_text_file url = false ->
  fst (ftp_upload_image cfg no_faults dir file r) = inr url
  /\ lookup_file (files (snd (ftp_upload_image cfg no_faults dir file r))) ftp_path
     = Some (UploadFile.data file)
  /\ fst (ftp_read cfg no_faults chardet_detect guess_type codecs url
            (snd (ftp_upload_image cfg no_faults dir file r)))
     = inr {| content := map N_of_ascii
                           (list_ascii_of_string
                              (Base64.b64encode (UploadFile.data file)));
              detectedEncoding := "binary";
              mimeType := PyStr.or_else (guess_type url) "application/octet-stream" |}
  /\ List.length (map N_of_ascii
                    (list_ascii_of_string
                       (Base64.b64encode (UploadFile.data file))))
     = 4 * ((List.length (UploadFile.data file) + 2) / 3).
Proof.
  intros url Hs Hb. unfold ftp_upload_image. fold url. rewrite Hs, upload_ok.
  cbn [fst snd files]. split; [reflexivity|].
  split; [apply lookup_file_same|]. split.
  - rewrite (ftp_read_fetched cfg chardet_detect guess_type codecs url ftp_path
               (UploadFile.data file)
               {| files := (ftp_path, UploadFile.data file) :: files r;
                  journal := (journal r ++ upload_events cfg ftp_path
                                             (UploadFile.data file))%list |}
               Hs (lookup_file_same (files r) ftp_path (UploadFile.data file))).
    now rewrite Hb.
  - now rewrite length_map, length_list_ascii_of_string, b64encode_length.
Qed.

Lemma upload_then_read_witness :
  fst (ftp_upload_image Sample.cfg no_faults "/img" icon_upload Sample.remote)
  = inr "/img/icon.png"
  /\ fst (Sample.read "/img/icon.png"
            (snd (ftp_upload_image Sample.cfg no_faults "/img" icon_upload
                    Sample.remote)))
     = inr {| content := [105; 86; 66; 79]%N;           (* i V B O *)
              detectedEncoding := "binary";
              mimeType := "image/png" |}.
Proof.
  destruct (upload_then_read Sample.cfg Sample.chardet_detect Sample.guess_type
              Codecs.lookup "/img" icon_upload "/srv/site/img/icon.png"
              Sample.remote eq_refl eq_refl) as (H1 & _ & H3 & _).
  split; [exact H1 | exact H3].
Defined.

(* ================================================================== *)
(** * The encoding a read reports *)

Lemma or_else_nonempty (x : option string) (d : string) :
  d <> "" -> PyStr.or_else x d <> "".
Proof. intro H. destruct x as [[|a s]|]; simpl; [exact H | discriminate | exact H]. Qed.

Lemma normalize_encoding_nonempty (enc : string) :
  enc <> "" -> normalize_encoding enc <> "".
Proof.
  intro H. unfold normalize_encoding.
  destruct (dict_get ENCODING_ALIASES _) as [v|] eqn:E; [|exact H].
  simpl in E.
  repeat match type of E with
         | (if ?c then _ else _) = _ => destruct c
         end;
    try discriminate; injection E as <-; discriminate.
Qed.

(** A canonical name is left alone by the alias table. *)
Lemma normalize_encoding_canonical (enc : string) :
  normalize_encoding (normalize_encoding enc) = normalize_encoding enc.
Proof.
  unfold normalize_encoding at 2 3.
  destruct (dict_get ENCODING_ALIASES (PyStr.replace "-" "_" (PyStr.lower enc)))
    as [v|] eqn:E.
  - simpl in E.
    repeat match type of E with
           | (if ?c then _ else _) = _ => destruct c
           end;
      try discriminate; injection E as <-; reflexivity.
  - unfold normalize_encoding. now rewrite E.
Qed.

Lemma resolve_encoding_nonempty (chardet_detect : bytes -> option string) (raw : bytes) :
  resolve_encoding chardet_detect raw <> "".
Proof.
  unfold resolve_encoding. apply normalize_encoding_nonempty.
  apply or_else_nonempty, or_else_nonempty. discriminate.
Qed.

(** A decoding that returned a text with a character in it looked its
    codec up and found it: only the empty payload is answered without. *)
Lemma bytes_decode_found
    (codecs : string -> CodecError + Codec) (name : string) (raw : bytes)
    (t : text) :
  bytes_decode codecs name raw = inr t -> t <> [] -> exists c, codecs name = inr c.
Proof.
  unfold bytes_decode. destruct (codecs name) as [e|c]; [|intros _ _; now exists c].
  destruct raw as [|x raw].
  - destruct e; intros H; try discriminate H; injection H as <-; congruence.
  - destruct e; discriminate.
Qed.

(** X9.  Read, then write back.  The encoding a text read reports,
    whenever the read returns a response and whatever the faults, can be
    handed to a write as it is: the write encodes with exactly that name.
    When the content returned has a character in it, the lookup of that
    name in the codec layer succeeds, so that an exception of the encoding
    step of such a write is the codec's own.  (An empty file is decoded
    without any lookup, so nothing is known of the name reported for it.) *)
Theorem reported_encoding_accepted_by_write
    (cfg : Config) (net : Faults) (guess_type : string -> option string)
    (chardet_detect : bytes -> option string)
    (codecs : string -> CodecError + Codec)
    (path : string) (r : Remote) (resp : ReadResponse) :
  is_text_file path = true ->
  fst (ftp_read cfg net chardet_detect guess_type codecs path r) = inr resp ->
  normalize_encoding (PyStr.or_else (Some (detectedEncoding resp)) "utf-8")
  = detectedEncoding resp
  /\ (content resp <> [] ->
      (exists c, codecs (detectedEncoding resp) = inr c)
      /\ (forall t e,
            str_encode codecs (detectedEncoding resp) t = inl e ->
            exists c, codecs (detectedEncoding resp) = inr c
                      /\ codec_encode c t = inl e)).
Proof.
  intros Ht. unfold ftp_read.
  destruct (safe_path _ _) as [e|ftp_path]; [discriminate|].
  destruct (ftp_connection cfg net _ r) as [[e|blocks] r']; [discriminate|].
  rewrite Ht. cbv zeta.
  set (raw := getvalue blocks). set (resolved := resolve_encoding chardet_detect raw).
  destruct (decode_with_fallback codecs raw resolved) as [e|[t decision]] eqn:D;
    [discriminate|].
  cbn [fst]. intros [= <-]. cbn [detectedEncoding content].
  assert (Hne : resolved <> "") by apply resolve_encoding_nonempty.
  assert (W : forall name, (exists c, codecs name = inr c) ->
                (exists c, codecs name = inr c)
                /\ forall u e, str_encode codecs name u = inl e ->
                     exists c, codecs name = inr c /\ codec_encode c u = inl e).
  { intros name [c Hc]. split; [now exists c|].
    intros u e. unfold str_encode. rewrite Hc. intros He. now exists c. }
  destruct (decode_with_fallback_inv codecs raw resolved t decision D)
    as [[-> B] | [-> B]].
  - split; [|intros Hc; exact (W _ (bytes_decode_found codecs _ _ _ B Hc))].
    replace (PyStr.or_else (Some resolved) "utf-8") with resolved
      by (destruct resolved; [congruence | reflexivity]).
    apply normalize_encoding_canonical.
  - split; [reflexivity|].
    intros Hc. exact (W _ (bytes_decode_found codecs _ _ _ B Hc)).
Qed.

Lemma reported_encoding_accepted_by_write_witness :
  fst (Sample.read "index.html" Sample.remote)
  = inr {| content := decode_replace Codecs.cp932_codec Sample.page;
           detectedEncoding := "cp932"; mimeType := "text/html" |}
  /\ normalize_encoding (PyStr.or_else (Some "cp932") "utf-8") = "cp932"
  /\ exists c, Codecs.lookup "cp932" = inr c.
Proof.
  assert (R : fst (Sample.read "index.html" Sample.remote)
              = inr {| content := decode_replace Codecs.cp932_codec Sample.page;
                       detectedEncoding := "cp932"; mimeType := "text/html" |})
    by (vm_compute; reflexivity).
  destruct (reported_encoding_accepted_by_write Sample.cfg no_faults
              Sample.guess_type Sample.chardet_detect Codecs.lookup
              "index.html" Sample.remote _ eq_refl R) as (H1 & H2).
  split; [exact R|]. split; [exact H1|].
  exact (proj1 (H2 ltac:(vm_compute; discriminate))).
Defined.

(* ================================================================== *)
(** * The listing *)

Lemma split_no_separator (c : ascii) (s : string) :
  Forall (fun comp => PyStr.contains (String c "") comp = false) (PyStr.split c s).
Proof.
  induction s as [|x s IH]; simpl.
  - repeat constructor.
  - destruct (Ascii.eqb x c) eqn:E.
    + constructor; [reflexivity | exact IH].
    + destruct (PyStr.split c s) as [|h t].
      * constructor; [|constructor].
        simpl. unfold PyStr.startswith. simpl.
        destruct (ascii_dec c x) as [->|_]; [|reflexivity].
        now rewrite Ascii.eqb_refl in E.
      * inversion IH as [|? ? Hh Ht]; subst.
        constructor; [|exact Ht].
        simpl. unfold PyStr.startswith. simpl.
        destruct (ascii_dec c x) as [->|_]; [|exact Hh].
        now rewrite Ascii.eqb_refl in E.
Qed.

Lemma split_nonempty (c : ascii) (s : string) : PyStr.split c s <> [].
Proof.
  destruct s as [|x s]; simpl; [discriminate|].
  destruct (Ascii.eqb x c); [discriminate|].
  destruct (PyStr.split c s); discriminate.
Qed.

Lemma last_Forall (A : Type) (P : A -> Prop) (l : list A) (d : A) :
  l <> [] -> Forall P l -> P (last l d).
Proof.
  induction l as [|x l IH]; [congruence|]. intros _ H.
  inversion H as [|? ? Hx Hl]; subst. destruct l as [|y l]; [exact Hx|].
  apply IH; [discriminate | exact Hl].
Qed.

(** The name of an entry has no slash in it. *)
Lemma last_component_no_slash (item_path : string) :
  PyStr.contains "/" (last_component item_path) = false.
Proof.
  unfold last_component. apply (last_Forall _ (fun comp => PyStr.contains "/" comp = false)).
  - apply split_nonempty.
  - apply split_no_separator.
Qed.

Section Listing.

Variable guess_type : string -> option string.
Variable py_int : string -> option Z.

Lemma entry_of_kept (path : string) (item : string * Info) (n : Z) :
  last_component (fst item) <> "" ->
  size_of py_int (snd item) = Some n ->
  exists entry,
    entry_of guess_type py_int path item = inr (Some entry)
    /\ DirectoryEntry.name entry = last_component (fst item)
    /\ DirectoryEntry.size entry = n
    /\ entry_ok path entry.
Proof.
  destruct item as [item_path info]. cbn [fst snd]. intros Hn Hs.
  unfold entry_of. destruct (String.eqb_spec (last_component item_path) "");
    [contradiction|].
  unfold size_of in Hs. rewrite Hs. eexists. split; [reflexivity|].
  unfold entry_ok.
  cbn [DirectoryEntry.name DirectoryEntry.path DirectoryEntry.size
       DirectoryEntry.type].
  split; [reflexivity|]. split; [reflexivity|]. split; [exact Hn|].
  split; [apply last_component_no_slash|]. split; [reflexivity|].
  destruct (dict_get info "type") as [ty|]; [|now right].
  destruct (String.eqb_spec ty "dir") as [->|Hd]; [now left|].
  right. destruct ty as [|a1 [|a2 [|a3 [|a4 ty]]]]; try reflexivity;
    (destruct a1 as [[] [] [] [] [] [] [] []]; try reflexivity);
    (destruct a2 as [[] [] [] [] [] [] [] []]; try reflexivity);
    try (destruct a3 as [[] [] [] [] [] [] [] []]; try reflexivity);
    try (now elim Hd).
Qed.

Lemma entry_of_skipped (path : string) (item : string * Info) :
  last_component (fst item) = "" ->
  entry_of guess_type py_int path item = inr None.
Proof.
  destruct item as [item_path info]. cbn [fst]. intro H.
  unfold entry_of. now rewrite H.
Qed.

Lemma list_loop_all (path : string) (items : list (string * Info)) :
  Forall (fun item => size_of py_int (snd item) <> None) (kept items) ->
  forall entries,
  exists out,
    list_loop guess_type py_int path items entries = inr (entries ++ out)%list
    /\ map DirectoryEntry.name out = map (fun item => last_component (fst item)) (kept items)
    /\ map (fun e => Some (DirectoryEntry.size e)) out
       = map (fun item => size_of py_int (snd item)) (kept items)
    /\ Forall (entry_ok path) out.
Proof.
  induction items as [|item items IH]; intros Hsz entries.
  - exists []. simpl. rewrite app_nil_r. repeat split; constructor.
  - cbn [list_loop]. unfold kept in *. cbn [filter] in *.
    destruct (String.eqb_spec (last_component (fst item)) "") as [He|He];
      cbn [negb] in *.
    + rewrite (entry_of_skipped path item He). apply IH, Hsz.
    + inversion Hsz as [|? ? Hitem Hrest]; subst.
      destruct (size_of py_int (snd item)) as [n|] eqn:Hn; [|congruence].
      destruct (entry_of_kept path item n He Hn) as (entry & E & En & Es & Eok).
      rewrite E. destruct (IH Hrest (entries ++ [entry])%list)
        as (out & L & Hnames & Hsizes & Hok).
      exists (entry :: out). rewrite L, <- app_assoc. cbn [app map].
      rewrite En, Es, Hnames, Hsizes, Hn.
      repeat split. now constructor.
Qed.

Lemma list_loop_bad_size (path : string) (items : list (string * Info)) :
  Exists (fun item => size_of py_int (snd item) = None) (kept items) ->
  forall entries,
    list_loop guess_type py_int path items entries = inl "invalid literal for int()".
Proof.
  induction items as [|item items IH]; intros Hex entries.
  - inversion Hex.
  - cbn [list_loop]. unfold kept in *. cbn [filter] in *.
    destruct (String.eqb_spec (last_component (fst item)) "") as [He|He];
      cbn [negb] in *.
    + rewrite (entry_of_skipped path item He). apply IH, Hex.
    + destruct (size_of py_int (snd item)) as [n|] eqn:Hn.
      * destruct (entry_of_kept path item n He Hn) as (entry & E & _).
        rewrite E. apply IH. inversion Hex; subst; [congruence | assumption].
      * destruct item as [item_path info]. cbn [fst snd] in *.
        unfold entry_of. destruct (String.eqb_spec (last_component item_path) "");
          [contradiction|].
        unfold size_of in Hn. now rewrite Hn.
Qed.

(** What the loop appends is an entry of the shape [entry_ok]. *)
Lemma entry_of_ok (path : string) (item : string * Info)
    (entry : DirectoryEntry.t) :
  entry_of guess_type py_int path item = inr (Some entry) ->
  entry_ok path entry.
Proof.
  intros E.
  destruct (String.eqb_spec (last_component (fst item)) "") as [He|He].
  { rewrite (entry_of_skipped path item He) in E. discriminate. }
  destruct (size_of py_int (snd item)) as [n|] eqn:Hn.
  - destruct (entry_of_kept path item n He Hn) as (entry' & E' & _ & _ & Hok).
    rewrite E in E'. now injection E' as <-.
  - destruct item as [item_path info]. cbn [fst snd] in *.
    unfold entry_of in E.
    destruct (String.eqb_spec (last_component item_path) "");
      [contradiction|].
    unfold size_of in Hn. rewrite Hn in E. discriminate.
Qed.

Lemma list_loop_ok (path : string) (items : list (string * Info)) :
  forall entries out,
    Forall (entry_ok path) entries ->
    list_loop guess_type py_int path items entries = inr out ->
    Forall (entry_ok path) out.
Proof.
  induction items as [|item items IH]; intros entries out Hacc L.
  - cbn [list_loop] in L. now injection L as <-.
  - cbn [list_loop] in L.
    destruct (entry_of guess_type py_int path item) as [e|[entry|]] eqn:E;
      [discriminate| |].
    + apply (IH _ _ (proj2 (Forall_app _ _ _)
                       (conj Hacc (Forall_cons _ (entry_of_ok _ _ _ E)
                                     (Forall_nil _)))) L).
    + exact (IH _ _ Hacc L).
Qed.

End Listing.

Section ListingEndpoint.

Variable cfg : Config.
Variable guess_type : string -> option string.
Variable py_int : string -> option Z.
Variable server_list : string -> string + list (string * Info).

(** A listing that meets no fault: the loop decides the answer, and the
    session is opened and closed around it. *)
Lemma ftp_list_run (path ftp_path : string) (items : list (string * Info))
    (r : Remote) :
  safe_path (FTP_BASE cfg) path = inr ftp_path ->
  server_list ftp_path = inr items ->
  ftp_list cfg no_faults guess_type py_int server_list (Some path) r
  = (match list_loop guess_type py_int path items [] with
     | inl e => inl (FtpListError e)
     | inr entries => inr entries
     end,
     with_events r [Connected (FTP_HOST cfg);
                    LoggedIn (FTP_USER cfg) (FTP_PASS cfg); Closed]).
Proof.
  intros Hs Hl. unfold ftp_list. rewrite Hs, ftp_connection_run.
  cbn [no_faults connect_fault login_fault quit_fault]. cbv zeta.
  unfold client_list, bind, may_fail, ret, raise.
  cbn [no_faults transfer_fault]. rewrite Hl.
  destruct (list_loop guess_type py_int path items []);
    cbn [fst snd]; unfold with_events; cbn [files journal];
    now rewrite <- app_assoc.
Qed.

End ListingEndpoint.

(** X10.  Without a fault, a listing returns one entry for each child whose
    name (the last component of its path) is not empty, in the order of the
    server, provided the size of each of them reads as an integer.  The
    name of an entry has no slash, its path is the request path without
    trailing slashes, a slash and the name, and its type is [directory] or
    [file].  An empty directory gives the empty list, not an error. *)
Theorem listing_entries
    (cfg : Config) (guess_type : string -> option string)
    (py_int : string -> option Z)
    (server_list : string -> string + list (string * Info))
    (path ftp_path : string) (items : list (string * Info)) (r : Remote) :
  safe_path (FTP_BASE cfg) path = inr ftp_path ->
  server_list ftp_path = inr items ->
  Forall (fun item => size_of py_int (snd item) <> None) (kept items) ->
  exists entries,
    fst (ftp_list cfg no_faults guess_type py_int server_list (Some path) r)
    = inr entries
    /\ map DirectoryEntry.name entries
       = map (fun item => last_component (fst item)) (kept items)
    /\ map (fun e => Some (DirectoryEntry.size e)) entries
       = map (fun item => size_of py_int (snd item)) (kept items)
    /\ Forall (entry_ok path) entries
    /\ (items = [] -> entries = []).
Proof.
  intros Hs Hl Hsz.
  destruct (list_loop_all guess_type py_int path items Hsz [])
    as (out & L & Hn & Hz & Hok).
  exists out. rewrite (ftp_list_run cfg guess_type py_int server_list
                         path ftp_path items r Hs Hl), L.
  cbn [fst app]. repeat split; try assumption.
  intros ->. destruct out; [reflexivity | discriminate].
Qed.

Lemma listing_entries_witness :
  exists entries,
    fst (SampleListing.list (Some "/img/") Sample.remote) = inr entries
    /\ map DirectoryEntry.name entries = ["a.png"; "sub"]
    /\ map DirectoryEntry.path entries = ["/img/a.png"; "/img/sub"]
    /\ map DirectoryEntry.type entries = ["file"; "directory"]
    /\ map DirectoryEntry.size entries = [120; 0]%Z.
Proof.
  destruct (listing_entries Sample.cfg Sample.guess_type SampleListing.py_int
              SampleListing.server_list "/img/" "/srv/site/img"
              SampleListing.children Sample.remote eq_refl eq_refl)
    as (entries & H & _).
  - repeat constructor; discriminate.
  - exists entries. split; [exact H|].
    vm_compute in H. injection H as <-. repeat split.
Defined.

(** X11.  When the size of a child that is not skipped does not read as an
    integer, the whole listing fails with status 502, though the server
    met no fault: no entry is returned, not even those of the children
    before it. *)
Theorem listing_fails_on_bad_size
    (cfg : Config) (guess_type : string -> option string)
    (py_int : string -> option Z)
    (server_list : string -> string + list (string * Info))
    (path ftp_path : string) (items : list (string * Info)) (r : Remote) :
  safe_path (FTP_BASE cfg) path = inr ftp_path ->
  server_list ftp_path = inr items ->
  Exists (fun item => size_of py_int (snd item) = None) (kept items) ->
  fst (ftp_list cfg no_faults guess_type py_int server_list (Some path) r)
  = inl (FtpListError "invalid literal for int()")
  /\ error_status (FtpListError "invalid literal for int()") = 502.
Proof.
  intros Hs Hl Hex.
  rewrite (ftp_list_run cfg guess_type py_int server_list
             path ftp_path items r Hs Hl).
  rewrite (list_loop_bad_size guess_type py_int path items Hex []).
  split; reflexivity.
Qed.

Lemma listing_fails_on_bad_size_witness :
  fst (SampleListing.list (Some "old") Sample.remote)
  = inl (FtpListError "invalid literal for int()").
Proof.
  exact (proj1 (listing_fails_on_bad_size Sample.cfg Sample.guess_type
                  SampleListing.py_int SampleListing.server_list
                  "old" "/srv/site/old" SampleListing.broken Sample.remote
                  eq_refl eq_refl
                  ltac:(right; left; reflexivity))).
Defined.

(* ================================================================== *)
(** * The shape of a declared charset *)

Lemma all_chars_lower (c : Re.cclass) (s : string) :
  Re.ci c -> Re.all_chars c (PyStr.lower s) = Re.all_chars c s.
Proof.
  intro H. induction s as [|x s IH]; simpl; [reflexivity|].
  now rewrite H, IH.
Qed.

Lemma captured_in_class (c : Re.cclass) (pre : Re.pattern) (s g : string) :
  Forall Re.groupless pre ->
  Re.search (pre ++ [Re.Group c])%list s = Some g ->
  Re.all_chars c g = true.
Proof.
  intros Hpre (s' & Hm)%ReFacts.search_found.
  exact (proj2 (ReFacts.match_here_capture c pre Hpre _ _ _ Hm)).
Qed.

Lemma charset_char_ci : Re.ci charset_char.
Proof. intro x. destruct x as [[] [] [] [] [] [] [] []]; reflexivity. Qed.

(** X12.  A declaration that is found is never empty, is in lower case,
    and has no quote, no white space and no semicolon in it. *)
Theorem declared_charset_shape (raw : bytes) (d : string) :
  extract_meta_charset raw = Some d ->
  d <> ""
  /\ PyStr.lower d = d
  /\ Re.all_chars charset_char d = true.
Proof.
  intro H. split; [exact (extract_meta_charset_nonempty raw d H)|].
  rewrite extract_meta_charset_eq in H.
  assert (K : exists g, d = PyStr.lower g /\ Re.all_chars charset_char g = true).
  { destruct (Re.search meta_charset_re (snippet_of raw)) as [g|] eqn:S1.
    - injection H as <-. exists g. split; [reflexivity|].
      unfold meta_charset_re in S1.
      match type of S1 with
      | Re.search [?a1; ?a2; ?a3; ?a4; Re.Group ?cl] _ = _ =>
          pose proof (captured_in_class cl [a1; a2; a3; a4] _ g
                        ltac:(repeat constructor) S1) as C
      end.
      revert C. apply ReFacts.all_chars_impl. intros x.
      unfold charset_char. destruct (is_quote x || PyStr.isspace x || Ascii.eqb x ";");
        [discriminate | reflexivity].
    - destruct (Re.search http_equiv_re (snippet_of raw)) as [g|] eqn:S2;
        [|discriminate].
      injection H as <-. exists g. split; [reflexivity|].
      unfold http_equiv_re in S2.
      match type of S2 with
      | Re.search [?a1; ?a2; ?a3; ?a4; Re.Group ?cl] _ = _ =>
          exact (captured_in_class cl [a1; a2; a3; a4] _ g
                   ltac:(repeat constructor) S2)
      end. }
  destruct K as (g & -> & Hg). split.
  - apply CaseFold.lower_lower.
  - now rewrite (all_chars_lower _ g charset_char_ci).
Qed.

Lemma declared_charset_shape_witness :
  "shift_jis" <> "" /\ PyStr.lower "shift_jis" = "shift_jis"
  /\ Re.all_chars charset_char "shift_jis" = true.
Proof.
  exact (declared_charset_shape Sample.page "shift_jis"
           ltac:(vm_compute; reflexivity)).
Defined.

(* ================================================================== *)
(** * No declaration without the text [charset=] *)

Module SuffixFacts.
Import PyStr Re.

Lemma suffix_refl (s : string) : suffix_of s s.
Proof. now exists "". Qed.

Lemma suffix_tail (t s : string) (x : ascii) :
  suffix_of t s -> suffix_of t (String x s).
Proof. intros [pre ->]. now exists (String x pre). Qed.

Lemma suffix_trans (a b c : string) :
  suffix_of a b -> suffix_of b c -> suffix_of a c.
Proof.
  intros [p ->] [q ->]. exists (q ++ p). now rewrite PyStrFacts.append_assoc.
Qed.

Lemma skip_lit_suffix (l s rest : string) :
  skip_lit l s = Some rest -> suffix_of rest s.
Proof.
  revert s. induction l as [|a l IH]; intros s; simpl.
  - intros [= <-]. apply suffix_refl.
  - destruct s as [|x s]; [discriminate|].
    destruct (Ascii.eqb _ _); [|discriminate].
    intro H. apply suffix_tail. now apply IH.
Qed.

Lemma skip_lit_startswith (l s rest : string) :
  skip_lit l s = Some rest -> startswith (lower l) (lower s) = true.
Proof.
  unfold startswith. revert s. induction l as [|a l IH]; intros s; simpl.
  - intros _. now destruct (lower s).
  - destruct s as [|x s]; [discriminate|].
    destruct (Ascii.eqb (lower_char a) (lower_char x)) eqn:E; [|discriminate].
    apply Ascii.eqb_eq in E. intro H. simpl. rewrite E.
    destruct (ascii_dec (lower_char x) (lower_char x)) as [_|N]; [|now elim N].
    now apply IH.
Qed.

Lemma contains_suffix (sub t s : string) :
  suffix_of t s -> startswith sub t = true -> contains sub s = true.
Proof.
  intros [pre ->] H. induction pre as [|x pre IH]; simpl.
  - destruct t; simpl in *; now rewrite H.
  - now rewrite IH, orb_true_r.
Qed.

Lemma lower_suffix (t s : string) :
  suffix_of t s -> suffix_of (lower t) (lower s).
Proof. intros [pre ->]. exists (lower pre). apply CaseFold.lower_app. Qed.

Lemma star_bt_suffix (c : cclass) (k : string -> option string) (s g : string) :
  star_bt c k s = Some g -> exists s', suffix_of s' s /\ k s' = Some g.
Proof.
  induction s as [|x s IH]; simpl.
  - intro H. exists "". split; [apply suffix_refl | exact H].
  - assert (K : k (String x s) = Some g ->
                exists s', suffix_of s' (String x s) /\ k s' = Some g).
    { intro H. exists (String x s). split; [apply suffix_refl | exact H]. }
    destruct (c x); [|exact K].
    destruct (star_bt c k s) as [r|]; [|exact K].
    intros [= <-]. destruct (IH eq_refl) as (s' & Hs & Hk).
    exists s'. split; [now apply suffix_tail | exact Hk].
Qed.

Lemma group_bt_suffix (c : cclass) (k : string -> string -> option string)
    (s acc g : string) :
  group_bt c k acc s = Some g ->
  exists acc' s', suffix_of s' s /\ k acc' s' = Some g.
Proof.
  revert acc. induction s as [|x s IH]; intros acc; simpl.
  - intro H. exists acc, "". split; [apply suffix_refl | exact H].
  - assert (K : k acc (String x s) = Some g ->
                exists acc' s', suffix_of s' (String x s) /\ k acc' s' = Some g).
    { intro H. exists acc, (String x s). split; [apply suffix_refl | exact H]. }
    destruct (c x); [|exact K].
    destruct (group_bt c k (acc ++ String x "") s) as [r|] eqn:G; [|exact K].
    intros [= <-]. destruct (IH _ G) as (acc' & s' & Hs & Hk).
    exists acc', s'. split; [now apply suffix_tail | exact Hk].
Qed.

(** A match goes through every literal of the pattern: each one stands at
    the front of some suffix of the text. *)
Lemma match_here_literal (l : string) (p : pattern) :
  In (Lit l) p ->
  forall cap s g,
    match_here p cap s = Some g ->
    exists t rest, suffix_of t s /\ skip_lit l t = Some rest.
Proof.
  induction p as [|a p IH]; [intros []|].
  intros Hin cap s g.
  assert (Later : In (Lit l) p ->
            forall cap' s', suffix_of s' s ->
            match_here p cap' s' = Some g ->
            exists t rest, suffix_of t s /\ skip_lit l t = Some rest).
  { intros Hp cap' s' Hs Hm. destruct (IH Hp cap' s' g Hm) as (t & rest & Ht & Hl).
    exists t, rest. split; [exact (suffix_trans _ _ _ Ht Hs) | exact Hl]. }
  destruct a as [l0|c|c|c|c|c]; cbn [match_here].
  - destruct (skip_lit l0 s) as [s'|] eqn:E; [|discriminate].
    destruct Hin as [[= ->]|Hp].
    + intros _. exists s, s'. split; [apply suffix_refl | exact E].
    + apply (Later Hp). exact (skip_lit_suffix _ _ _ E).
  - destruct Hin as [|Hp]; [discriminate|].
    destruct s as [|x s]; [discriminate|]. destruct (c x); [|discriminate].
    apply (Later Hp). apply suffix_tail, suffix_refl.
  - destruct Hin as [|Hp]; [discriminate|].
    destruct s as [|x s]; [apply (Later Hp), suffix_refl|].
    destruct (c x); [|apply (Later Hp), suffix_refl].
    destruct (match_here p cap s) as [r|] eqn:M.
    + intros [= <-]. apply (Later Hp cap s); [apply suffix_tail, suffix_refl | exact M].
    + apply (Later Hp), suffix_refl.
  - destruct Hin as [|Hp]; [discriminate|].
    intros (s' & Hs & Hk)%star_bt_suffix. exact (Later Hp cap s' Hs Hk).
  - destruct Hin as [|Hp]; [discriminate|].
    destruct s as [|x s]; [discriminate|]. destruct (c x); [|discriminate].
    intros (s' & Hs & Hk)%star_bt_suffix.
    exact (Later Hp cap s' (suffix_tail _ _ _ Hs) Hk).
  - destruct Hin as [|Hp]; [discriminate|].
    destruct s as [|x s]; [discriminate|]. destruct (c x); [|discriminate].
    intros (acc' & s' & Hs & Hk)%group_bt_suffix.
    exact (Later Hp acc' s' (suffix_tail _ _ _ Hs) Hk).
Qed.

Lemma search_suffix (p : pattern) (s g : string) :
  search p s = Some g -> exists s', suffix_of s' s /\ match_here p "" s' = Some g.
Proof.
  induction s as [|x s IH]; simpl.
  - destruct (match_here p "" "") eqn:M; [|discriminate].
    intros [= <-]. exists "". split; [apply suffix_refl | exact M].
  - destruct (match_here p "" (String x s)) eqn:M.
    + intros [= <-]. exists (String x s). split; [apply suffix_refl | exact M].
    + intros (s' & Hs & Hm)%IH. exists s'. split; [now apply suffix_tail | exact Hm].
Qed.

(** A search that succeeds has met each literal of its pattern in the
    text, in some case. *)
Lemma search_literal (l : string) (p : pattern) (s g : string) :
  In (Lit l) p -> search p s = Some g ->
  contains (lower l) (lower s) = true.
Proof.
  intros Hin (s' & Hs & Hm)%search_suffix.
  destruct (match_here_literal l p Hin _ _ _ Hm) as (t & rest & Ht & Hl).
  apply (contains_suffix _ (lower t)).
  - apply lower_suffix. exact (suffix_trans _ _ _ Ht Hs).
  - exact (skip_lit_startswith _ _ _ Hl).
Qed.

End SuffixFacts.

(** X13.  A declaration is found only if the text [charset=], in some case,
    stands among the ASCII bytes of the first 4096: without it the result
    is [None], and the detector alone decides the encoding. *)
Theorem no_charset_no_declaration (raw : bytes) :
  PyStr.contains "charset=" (PyStr.lower (snippet_of raw)) = false ->
  extract_meta_charset raw = None
  /\ forall chardet_detect,
       resolve_encoding chardet_detect raw
       = normalize_encoding (PyStr.or_else (chardet_detect raw) "utf-8").
Proof.
  intro H.
  assert (E : extract_meta_charset raw = None).
  { rewrite extract_meta_charset_eq.
    destruct (Re.search meta_charset_re (snippet_of raw)) as [g|] eqn:S1.
    - apply (SuffixFacts.search_literal "charset=") in S1;
        [change (PyStr.lower "charset=") with "charset=" in S1; congruence|].
      simpl. auto.
    - destruct (Re.search http_equiv_re (snippet_of raw)) as [g|] eqn:S2;
        [|reflexivity].
      apply (SuffixFacts.search_literal "charset=") in S2;
        [change (PyStr.lower "charset=") with "charset=" in S2; congruence|].
      simpl. auto. }
  split; [exact E|]. intro det. unfold resolve_encoding. rewrite E.
  pose proof (or_else_nonempty (det raw) "utf-8" ltac:(discriminate)) as Hne.
  destruct (PyStr.or_else (det raw) "utf-8"); [congruence | reflexivity].
Qed.

Lemma no_charset_no_declaration_witness :
  extract_meta_charset Sample.logo = None
  /\ resolve_encoding Sample.chardet_detect Sample.logo = "ISO-8859-1".
Proof.
  destruct (no_charset_no_declaration Sample.logo ltac:(vm_compute; reflexivity))
    as [H1 H2].
  split; [exact H1 | exact (H2 Sample.chardet_detect)].
Defined.

(* ================================================================== *)
(** * A declaration the search finds *)

Module DeclarationFacts.
Import PyStr Re.

Lemma startswith_cons (a x : ascii) (l s : string) :
  startswith (String a l) (String x s) = true ->
  a = x /\ startswith l s = true.
Proof.
  unfold startswith. cbn [prefix].
  destruct (ascii_dec a x); [now split | discriminate].
Qed.

Ltac peel H :=
  repeat (apply startswith_cons in H;
          let E := fresh "E" in destruct H as [E H]; try discriminate E).

(** An occurrence of the tag name that starts before the tag lies wholly
    before it. *)
Lemma meta_overlap (suf z : string) :
  suf <> "" ->
  startswith "<meta" (suf ++ "<meta" ++ z) = true ->
  startswith "<meta" suf = true.
Proof.
  intros Hne H.
  destruct suf as [|a [|b [|c [|d [|e w]]]]]; [congruence| | | | |];
    cbn [append] in H; peel H.
  subst. exact (PyStrFacts.startswith_app "<meta" w).
Qed.

Lemma no_meta_before (pre x : string) :
  contains "<meta" (lower pre) = false ->
  forall suf, suffix_of suf pre -> suf <> "" ->
  skip_lit "<meta" (suf ++ "<meta" ++ x) = None.
Proof.
  intros Hpre suf Hsuf Hne.
  destruct (skip_lit "<meta" (suf ++ "<meta" ++ x)) as [rest|] eqn:E;
    [|reflexivity].
  apply SuffixFacts.skip_lit_startswith in E.
  rewrite CaseFold.lower_app in E.
  change (lower "<meta") with "<meta" in E.
  change (lower ("<meta" ++ x)) with ("<meta" ++ lower x) in E.
  apply meta_overlap in E; [|now apply ReFacts.lower_nonempty].
  rewrite (SuffixFacts.contains_suffix "<meta" (lower suf) (lower pre)) in Hpre;
    [discriminate | now apply SuffixFacts.lower_suffix | exact E].
Qed.

Lemma search_unfold (p : pattern) (s : string) :
  search p s
  = match match_here p "" s with
    | Some r => Some r
    | None => match s with String _ s' => search p s' | "" => None end
    end.
Proof. destruct s; reflexivity. Qed.

(** The search goes past the positions where the pattern does not match. *)
Lemma search_after (p : pattern) (pre x g : string) :
  (forall suf, suffix_of suf pre -> suf <> "" ->
               match_here p "" (suf ++ x) = None) ->
  match_here p "" x = Some g ->
  search p (pre ++ x) = Some g.
Proof.
  intros Hpre Hx. induction pre as [|a pre IH].
  - cbn [append]. now rewrite search_unfold, Hx.
  - rewrite search_unfold.
    rewrite (Hpre (String a pre)) by (apply SuffixFacts.suffix_refl || discriminate).
    cbn [append]. apply IH. intros suf Hs Hne.
    apply Hpre; [now apply SuffixFacts.suffix_tail | exact Hne].
Qed.

Lemma star_bt_stop (c : cclass) (k : string -> option string) (b : string) :
  stops c b -> star_bt c k b = k b.
Proof. destruct b as [|x b]; simpl; [reflexivity | now intros ->]. Qed.

(** A run after which the continuation fails everywhere. *)
Lemma star_bt_none (c : cclass) (k : string -> option string) (a b : string) :
  all_chars c a = true -> stops c b ->
  (forall u v, a = u ++ v -> k (v ++ b) = None) ->
  star_bt c k (a ++ b) = None.
Proof.
  intros Ha Hb. induction a as [|x a IH]; intros Hk.
  - cbn [append]. rewrite (star_bt_stop c k b Hb). exact (Hk "" "" eq_refl).
  - cbn [all_chars] in Ha. apply andb_prop in Ha. destruct Ha as [Hx Ha].
    cbn [append star_bt]. rewrite Hx, (IH Ha).
    + exact (Hk "" (String x a) eq_refl).
    + intros u v ->. exact (Hk (String x u) v eq_refl).
Qed.

(** The greedy run gives way to the last position where the continuation
    succeeds. *)
Lemma star_bt_pick (c : cclass) (k : string -> option string)
    (a1 a2 b r : string) :
  all_chars c a1 = true -> all_chars c a2 = true -> stops c b ->
  a2 <> "" ->
  k (a2 ++ b) = Some r ->
  (forall u v, a2 = u ++ v -> u <> "" -> k (v ++ b) = None) ->
  star_bt c k (a1 ++ a2 ++ b) = Some r.
Proof.
  intros H1 H2 Hb Hne Hk Hlater.
  assert (P : star_bt c k (a2 ++ b) = Some r).
  { destruct a2 as [|y a2]; [congruence|].
    cbn [all_chars] in H2. apply andb_prop in H2. destruct H2 as [Hy H2].
    cbn [append star_bt]. rewrite Hy.
    rewrite (star_bt_none c k a2 b H2 Hb); [exact Hk|].
    intros u v ->. apply (Hlater (String y u) v); [reflexivity | discriminate]. }
  induction a1 as [|x a1 IH]; [exact P|].
  cbn [all_chars] in H1. apply andb_prop in H1. destruct H1 as [Hx H1].
  cbn [append star_bt]. now rewrite Hx, (IH H1).
Qed.

(** The group takes the whole run when the pattern ends with it. *)
Lemma group_bt_greedy (c : cclass) (u b acc : string) :
  all_chars c u = true -> stops c b ->
  group_bt c (fun cap _ => Some cap) acc (u ++ b) = Some (acc ++ u).
Proof.
  intros Hu Hb. revert acc. induction u as [|x u IH]; intros acc.
  - cbn [append]. rewrite ReFacts.append_nil_r.
    destruct b as [|y b]; simpl; [reflexivity|]. simpl in Hb. now rewrite Hb.
  - cbn [all_chars] in Hu. apply andb_prop in Hu. destruct Hu as [Hx Hu].
    cbn [append group_bt]. rewrite Hx, (IH Hu).
    now rewrite PyStrFacts.append_assoc.
Qed.

Lemma skip_lit_wrong_head (a x : ascii) (l s : string) :
  Ascii.eqb (lower_char a) (lower_char x) = false ->
  skip_lit (String a l) (String x s) = None.
Proof. intro H. cbn [skip_lit]. now rewrite H. Qed.

Lemma lower_char_equals (x : ascii) :
  Ascii.eqb x "=" = false -> Ascii.eqb (lower_char "=") (lower_char x) = false.
Proof. destruct x as [[] [] [] [] [] [] [] []]; intro H; try reflexivity; discriminate H. Qed.

(** A literal that ends with the equals sign does not match where no
    equals sign comes before the next [>]. *)
Lemma skip_lit_blocked (l v rest : string) :
  all_chars (fun a => negb (Ascii.eqb (lower_char a) (lower_char ">"))) l = true ->
  all_chars (fun x => negb (Ascii.eqb x "=")) v = true ->
  skip_lit (l ++ "=") (v ++ String ">" rest) = None.
Proof.
  revert v. induction l as [|a l IH]; intros v Hl Hv.
  - destruct v as [|x v]; [reflexivity|].
    cbn [all_chars] in Hv. apply andb_prop in Hv. destruct Hv as [Hx _].
    apply negb_true_iff in Hx.
    cbn [append]. apply skip_lit_wrong_head. now apply lower_char_equals.
  - cbn [all_chars] in Hl. apply andb_prop in Hl. destruct Hl as [Ha Hl].
    apply negb_true_iff in Ha.
    destruct v as [|x v].
    + cbn [append]. now apply skip_lit_wrong_head.
    + cbn [all_chars] in Hv. apply andb_prop in Hv. destruct Hv as [_ Hv].
      cbn [append skip_lit].
      destruct (Ascii.eqb (lower_char a) (lower_char x)); [|reflexivity].
      now apply IH.
Qed.

Lemma append_split (u v a b : string) :
  u ++ v = a ++ b ->
  (exists m, a = u ++ m /\ v = m ++ b) \/ (exists m, u = a ++ m /\ b = m ++ v).
Proof.
  revert a. induction u as [|x u IH]; intros a H.
  - left. exists a. now split.
  - destruct a as [|y a].
    + right. exists (String x u). now split.
    + cbn [append] in H. injection H as -> H.
      destruct (IH a H) as [(m & -> & ->) | (m & -> & ->)];
        [left | right]; exists m; now split.
Qed.

Lemma all_chars_suffix (c : cclass) (u v : string) :
  all_chars c (u ++ v) = true -> all_chars c v = true.
Proof. rewrite ReFacts.all_chars_app. now intros [_ H]%andb_prop. Qed.

(** After the [c] of the attribute name, and as far as the next [>], the
    attribute name does not start again. *)
Lemma no_later_charset (tail rest u v : string) :
  all_chars (fun x => negb (Ascii.eqb x "=")) tail = true ->
  u ++ v = "charset=" ++ tail -> u <> "" ->
  skip_lit "charset=" (v ++ String ">" rest) = None.
Proof.
  intros Ht E Hne. destruct u as [|c0 u]; [congruence|].
  cbn [append] in E. injection E as _ E.
  destruct (append_split u v "harset=" tail E) as [(m & Em & ->) | (m & _ & Et)].
  - destruct m as [|x m].
    + cbn [append]. now apply (skip_lit_blocked "charset").
    + assert (H : all_chars (fun y => negb (Ascii.eqb (lower_char "c")
                                                       (lower_char y)))
                    (String x m) = true).
      { apply (all_chars_suffix _ u). now rewrite <- Em. }
      cbn [all_chars] in H. apply andb_prop in H. destruct H as [Hx _].
      apply negb_true_iff in Hx. cbn [append].
      now apply skip_lit_wrong_head.
  - apply (skip_lit_blocked "charset"); [reflexivity|].
    apply (all_chars_suffix _ m). now rewrite <- Et.
Qed.

Lemma declared_char_plain (x : ascii) :
  declared_char x = true -> is_quote x = false /\ Ascii.eqb x ">" = false.
Proof.
  unfold declared_char. intros H%negb_true_iff.
  apply orb_false_iff in H. destruct H as [H H4].
  apply orb_false_iff in H. destruct H as [H _].
  apply orb_false_iff in H. now destruct H as [H1 _].
Qed.

Lemma match_here_lit (l : string) (p : pattern) (cap s : string) :
  match_here (Lit l :: p) cap s
  = match skip_lit l s with
    | Some s' => match_here p cap s'
    | None => None
    end.
Proof. reflexivity. Qed.

Lemma skip_lit_here (l s : string) : skip_lit l (l ++ s) = Some s.
Proof.
  induction l as [|a l IH]; [reflexivity|].
  cbn [append skip_lit]. now rewrite Ascii.eqb_refl.
Qed.

Lemma match_here_opt_skip (c : cclass) (p : pattern) (cap : string)
    (x : ascii) (s : string) :
  c x = false ->
  match_here (Opt c :: p) cap (String x s) = match_here p cap (String x s).
Proof. intro H. cbn [match_here]. now rewrite H. Qed.

Lemma match_here_opt_take (c : cclass) (p : pattern) (cap : string)
    (x : ascii) (s r : string) :
  c x = true -> match_here p cap s = Some r ->
  match_here (Opt c :: p) cap (String x s) = Some r.
Proof. intros H M. cbn [match_here]. now rewrite H, M. Qed.

Lemma match_here_plus (c : cclass) (p : pattern) (cap : string)
    (x : ascii) (s : string) :
  c x = true ->
  match_here (Plus c :: p) cap (String x s) = star_bt c (match_here p cap) s.
Proof. intro H. cbn [match_here]. now rewrite H. Qed.

(** The first pattern on a tag of the family, written in lower case. *)
Lemma declaration_matched (gap q name t1 rest : string) :
  gap <> "" ->
  all_chars (fun c => negb (Ascii.eqb c ">")) gap = true ->
  q = "" \/ (exists x, q = String x "" /\ is_quote x = true) ->
  name <> "" ->
  all_chars declared_char name = true ->
  all_chars (fun c => negb (Ascii.eqb c "=")) name = true ->
  all_chars (fun c => negb (Ascii.eqb c ">") && negb (Ascii.eqb c "=")) t1 = true ->
  stops declared_char t1 ->
  match_here meta_charset_re ""
    ("<meta" ++ gap ++ "charset=" ++ q ++ name ++ t1 ++ String ">" rest)
  = Some name.
Proof.
  intros Hgap Hg Hq Hname Hn Hneq Ht1 Hstop.
  set (cls := fun c => negb (is_quote c || isspace c
                             || Ascii.eqb c ";" || Ascii.eqb c ">")).
  set (nogt := fun c : ascii => negb (Ascii.eqb c ">")).
  set (k := match_here [Lit "charset="; Opt is_quote; Group cls] "").
  assert (Hq1 : all_chars nogt q = true /\ all_chars (fun c => negb (Ascii.eqb c "=")) q = true).
  { destruct Hq as [Eq|(x & Eq & Hx)]; rewrite Eq; [now split|].
    destruct x as [[] [] [] [] [] [] [] []]; try discriminate Hx; now split. }
  assert (Hn1 : all_chars nogt name = true).
  { apply (ReFacts.all_chars_impl declared_char); [|exact Hn].
    intros x Hx. unfold nogt. now rewrite (proj2 (declared_char_plain x Hx)). }
  assert (Ht2 : all_chars nogt t1 = true
                /\ all_chars (fun c => negb (Ascii.eqb c "=")) t1 = true).
  { split;
      (apply (ReFacts.all_chars_impl
                (fun c => negb (Ascii.eqb c ">") && negb (Ascii.eqb c "=")));
       [intros x [H1 H2]%andb_prop; assumption | exact Ht1]). }
  (* the tail of the tag after the attribute name *)
  assert (Htail : all_chars (fun c => negb (Ascii.eqb c "=")) (q ++ name ++ t1) = true).
  { rewrite !ReFacts.all_chars_app, (proj2 Hq1), Hneq. exact (proj2 Ht2). }
  (* the group *)
  assert (G : forall cap, match_here [Group cls] cap (name ++ t1 ++ String ">" rest)
                          = Some name).
  { intros cap. destruct name as [|n0 name']; [congruence|].
    cbn [all_chars] in Hn. apply andb_prop in Hn. destruct Hn as [Hn0 Hn'].
    cbn [append match_here].
    change (cls n0) with (declared_char n0). rewrite Hn0.
    change (match_here []) with (fun (cap0 : string) (_ : string) => Some cap0).
    rewrite (group_bt_greedy cls name' (t1 ++ String ">" rest) (String n0 ""));
      [reflexivity | exact Hn' |].
    destruct t1 as [|y t1']; [reflexivity | exact Hstop]. }
  (* the continuation at the attribute *)
  assert (K : k ("charset=" ++ q ++ name ++ t1 ++ String ">" rest) = Some name).
  { unfold k. rewrite match_here_lit, (skip_lit_here "charset=").
    destruct Hq as [->|(x & -> & Hx)].
    - cbn [append]. destruct name as [|n0 name'] eqn:En; [congruence|].
      cbn [all_chars] in Hn. apply andb_prop in Hn. destruct Hn as [Hn0 _].
      cbn [append].
      rewrite match_here_opt_skip by exact (proj1 (declared_char_plain n0 Hn0)).
      exact (G "").
    - cbn [append]. now apply match_here_opt_take. }
  unfold meta_charset_re. fold cls. fold nogt.
  rewrite match_here_lit, (skip_lit_here "<meta").
  destruct gap as [|g0 gap']; [congruence|].
  cbn [all_chars] in Hg. apply andb_prop in Hg. destruct Hg as [Hg0 Hg'].
  assert (X : "charset=" ++ q ++ name ++ t1 ++ String ">" rest
              = ("charset=" ++ q ++ name ++ t1) ++ String ">" rest)
    by (now rewrite !PyStrFacts.append_assoc).
  rewrite X in *.
  change (String g0 gap' ++ ("charset=" ++ q ++ name ++ t1) ++ String ">" rest)
    with (String g0 (gap' ++ ("charset=" ++ q ++ name ++ t1) ++ String ">" rest)).
  rewrite match_here_plus by exact Hg0. fold k.
  apply (star_bt_pick nogt k gap' ("charset=" ++ q ++ name ++ t1)
           (String ">" rest) name).
  - exact Hg'.
  - rewrite !ReFacts.all_chars_app, (proj1 Hq1), Hn1, (proj1 Ht2). reflexivity.
  - reflexivity.
  - discriminate.
  - exact K.
  - intros u v E Hu. unfold k. rewrite match_here_lit.
    now rewrite (no_later_charset (q ++ name ++ t1) rest u v Htail (eq_sym E) Hu).
Qed.

End DeclarationFacts.

(** C5, as stated, does not hold: a payload can carry a declaration that
    the search does not find, and then the guess of the detector decides.
    So it is with white space around the equals sign, and with a
    declaration that starts at byte 4096. *)
Lemma undetected_declaration_loses :
  extract_meta_charset spaced_declaration = None
  /\ resolve_encoding Sample.chardet_detect spaced_declaration = "ISO-8859-1"
  /\ extract_meta_charset late_declaration = None
  /\ resolve_encoding Sample.chardet_detect late_declaration = "ISO-8859-1"
  /\ "ISO-8859-1" <> "cp932".
Proof.
  assert (A : extract_meta_charset spaced_declaration = None)
    by (vm_compute; reflexivity).
  assert (B : extract_meta_charset late_declaration = None)
    by (vm_compute; reflexivity).
  split; [exact A|]. split; [unfold resolve_encoding; now rewrite A|].
  split; [exact B|]. split; [unfold resolve_encoding; now rewrite B|].
  discriminate.
Qed.

(** C5, amended.  When the search of [extract_meta_charset] finds a
    declaration, the resolved encoding is the canonical form of the
    declared charset, whatever the detector guesses.  The search finds the
    declaration of the first [meta] tag whenever the ASCII text among the
    first 4096 bytes reads, case aside: some text without [<meta], then
    [<meta], attributes without [>], [charset=], an optional quote, the
    name, and up to the closing [>] nothing more than text without an
    equals sign that does not go on with a character of a name.  In
    particular a payload that starts with a tag declaring Shift_JIS
    resolves to cp932, whatever its content and whatever the detector says
    of it. *)
Theorem declared_charset_wins :
  (forall (chardet_detect : bytes -> option string) (raw : bytes) (d : string),
     extract_meta_charset raw = Some d ->
     resolve_encoding chardet_detect raw = normalize_encoding d)
  /\ (forall (chardet_detect : bytes -> option string) (raw : bytes)
             (pre gap q name t1 rest : string),
        PyStr.lower (snippet_of raw)
        = pre ++ "<meta" ++ gap ++ "charset=" ++ q ++ name ++ t1 ++ ">" ++ rest ->
        PyStr.contains "<meta" (PyStr.lower pre) = false ->
        gap <> "" ->
        Re.all_chars (fun c => negb (Ascii.eqb c ">")) gap = true ->
        (q = "" \/ exists x, q = String x "" /\ is_quote x = true) ->
        name <> "" ->
        Re.all_chars declared_char name = true ->
        Re.all_chars (fun c => negb (Ascii.eqb c "=")) name = true ->
        Re.all_chars (fun c => negb (Ascii.eqb c ">") && negb (Ascii.eqb c "="))
          t1 = true ->
        match t1 with "" => True | String x _ => declared_char x = false end ->
        extract_meta_charset raw = Some (PyStr.lower name)
        /\ resolve_encoding chardet_detect raw
           = normalize_encoding (PyStr.lower name))
  /\ (forall (chardet_detect : bytes -> option string) (rest : bytes),
        resolve_encoding chardet_detect (shift_jis_declaration ++ rest)%list = "cp932").
Proof.
  split; [exact resolve_encoding_declared|]. split.
  - intros det raw pre gap q name t1 rest E Hpre Hgap Hg Hq Hname Hn Hneq Ht1 Hstop.
    assert (S : Re.search meta_charset_re (PyStr.lower (snippet_of raw))
                = Some name).
    { rewrite E. apply DeclarationFacts.search_after.
      - intros suf Hs Hne. unfold meta_charset_re.
        rewrite DeclarationFacts.match_here_lit.
        now rewrite (DeclarationFacts.no_meta_before pre _ Hpre suf Hs Hne).
      - now apply DeclarationFacts.declaration_matched. }
    pose proof (CaseFold.search_ci _ meta_charset_re_ci (snippet_of raw)
                  (PyStr.lower (snippet_of raw))
                  (eq_sym (CaseFold.lower_lower _))) as A.
    rewrite S in A. unfold Re.agree in A.
    assert (X : extract_meta_charset raw = Some (PyStr.lower name)).
    { rewrite extract_meta_charset_eq.
      destruct (Re.search meta_charset_re (snippet_of raw)) as [g|];
        [|discriminate A].
      cbn [option_map] in A. now injection A as ->. }
    split; [exact X | exact (resolve_encoding_declared det raw _ X)].
  - intros det rest.
    now rewrite (resolve_encoding_declared det _ _ (shift_jis_declaration_found rest)).
Qed.

Lemma declared_charset_wins_witness :
  Sample.chardet_detect xhtml_page = Some "ISO-8859-1"
  /\ extract_meta_charset xhtml_page = Some "euc-jp"
  /\ resolve_encoding Sample.chardet_detect xhtml_page = "euc-jp".
Proof.
  split; [reflexivity|].
  apply (proj1 (proj2 declared_charset_wins) Sample.chardet_detect xhtml_page
           "<html><head>"
           " http-equiv='content-type' content='text/html; "
           "" "euc-jp" "' /" "</head>");
    try reflexivity; try discriminate.
  now left.
Defined.


(* ================================================================== *)
(** * Which names the alias table maps *)

Lemma replace_removes (a b : ascii) (s : string) :
  a <> b -> Re.all_chars (fun c => negb (Ascii.eqb c a)) (PyStr.replace a b s) = true.
Proof.
  intro H. induction s as [|x s IH]; simpl; [reflexivity|]. rewrite IH, andb_true_r.
  destruct (Ascii.eqb_spec x a) as [->|Hx].
  - destruct (Ascii.eqb_spec b a); [congruence | reflexivity].
  - destruct (Ascii.eqb_spec x a); [congruence | reflexivity].
Qed.

(** The key never has a hyphen, so it is never the key [euc-jp]. *)
Lemma alias_key_not_hyphenated (enc : string) : alias_key enc <> "euc-jp".
Proof.
  intro H. pose proof (replace_removes "-" "_" (PyStr.lower enc)
                         ltac:(discriminate)) as K.
  fold (alias_key enc) in K. rewrite H in K. discriminate.
Qed.

(** X14.  The alias table at work: a name is mapped to cp932 exactly when
    its key (lower case, hyphens as underscores) is shift_jis, shiftjis or
    sjis, and to euc_jp exactly when its key is eucjp; every other name is
    returned as it was given.  The entry under the key [euc-jp] is never
    used, so the spellings of EUC-JP with a hyphen or an underscore are
    among the names returned unchanged. *)
Theorem normalize_encoding_cases (enc : string) :
  (In (alias_key enc) ["shift_jis"; "shiftjis"; "sjis"] ->
   normalize_encoding enc = "cp932")
  /\ (alias_key enc = "eucjp" -> normalize_encoding enc = "euc_jp")
  /\ (~ In (alias_key enc) ["shift_jis"; "shiftjis"; "sjis"; "eucjp"] ->
      normalize_encoding enc = enc)
  /\ (alias_key enc = "euc_jp" -> normalize_encoding enc = enc).
Proof.
  pose proof (alias_key_not_hyphenated enc) as Hh.
  unfold normalize_encoding. fold (alias_key enc). cbn [ENCODING_ALIASES dict_get].
  destruct (String.eqb_spec "shift_jis" (alias_key enc)) as [E1|N1].
  { rewrite <- E1. repeat split; try reflexivity; try discriminate.
    intros H. elim H. simpl. auto. }
  destruct (String.eqb_spec "shiftjis" (alias_key enc)) as [E2|N2].
  { rewrite <- E2. repeat split; try reflexivity; try discriminate.
    intros H. elim H. simpl. auto. }
  destruct (String.eqb_spec "sjis" (alias_key enc)) as [E3|N3].
  { rewrite <- E3. repeat split; try reflexivity; try discriminate.
    intros H. elim H. simpl. auto. }
  destruct (String.eqb_spec "euc-jp" (alias_key enc)) as [E4|_];
    [now elim Hh|].
  destruct (String.eqb_spec "eucjp" (alias_key enc)) as [E5|N5].
  { rewrite <- E5. repeat split; try reflexivity; try discriminate.
    - intros [H|[H|[H|[]]]]; discriminate.
    - intros H. elim H. simpl. auto. }
  repeat split; try reflexivity.
  - intros [H|[H|[H|[]]]]; congruence.
  - congruence.
Qed.

Lemma normalize_encoding_cases_witness :
  normalize_encoding "Shift-JIS" = "cp932"
  /\ normalize_encoding "EUCJP" = "euc_jp"
  /\ normalize_encoding "EUC-JP" = "EUC-JP".
Proof.
  split; [|split].
  - apply (proj1 (normalize_encoding_cases "Shift-JIS")). simpl. auto.
  - apply (proj1 (proj2 (normalize_encoding_cases "EUCJP"))). reflexivity.
  - apply (proj2 (proj2 (proj2 (normalize_encoding_cases "EUC-JP")))). reflexivity.
Defined.

(* ================================================================== *)
(** * The classification ignores case *)

Module SplitextFacts.
Import PyStr Splitext.

Lemma rfind_from_lower (c : ascii) (p : string) (i : Z) :
  (forall x, Ascii.eqb (lower_char x) c = Ascii.eqb x c) ->
  rfind_from c (lower p) i = rfind_from c p i.
Proof.
  intro H. revert i. induction p as [|x p IH]; intro i; simpl; [reflexivity|].
  now rewrite IH, H.
Qed.

Lemma substring_lower (n m : nat) (s : string) :
  substring n m (lower s) = lower (substring n m s).
Proof.
  revert n m. induction s as [|x s IH]; intros n m.
  - destruct n, m; reflexivity.
  - destruct n as [|n]; simpl.
    + destruct m as [|m]; simpl; [reflexivity | now rewrite IH].
    + apply IH.
Qed.

Lemma length_lower (s : string) : String.length (lower s) = String.length s.
Proof. induction s as [|x s IH]; simpl; [reflexivity | now rewrite IH]. Qed.

Lemma non_dot_lower (s : string) :
  existsb (fun ch => negb (Ascii.eqb ch ".")) (list_ascii_of_string (lower s))
  = existsb (fun ch => negb (Ascii.eqb ch ".")) (list_ascii_of_string s).
Proof.
  induction s as [|x s IH]; simpl; [reflexivity|]. rewrite IH. f_equal.
  destruct x as [[] [] [] [] [] [] [] []]; reflexivity.
Qed.

Lemma slash_lower (x : ascii) : Ascii.eqb (lower_char x) "/" = Ascii.eqb x "/".
Proof. destruct x as [[] [] [] [] [] [] [] []]; reflexivity. Qed.

Lemma dot_lower (x : ascii) : Ascii.eqb (lower_char x) "." = Ascii.eqb x ".".
Proof. destruct x as [[] [] [] [] [] [] [] []]; reflexivity. Qed.

(** The extension of the path in lower case is the extension in lower case. *)
Lemma ext_lower (p : string) : ext (lower p) = lower (ext p).
Proof.
  unfold ext, rfind, has_non_dot.
  rewrite !(rfind_from_lower "/" p 0 slash_lower),
          !(rfind_from_lower "." p 0 dot_lower).
  rewrite !substring_lower, non_dot_lower, length_lower.
  now destruct (_ && _).
Qed.

End SplitextFacts.

(** X15.  The classification of a path does not depend on the case of its
    letters: a path and the same path in lower case are both text or both
    binary. *)
Theorem is_text_file_ignores_case (path : string) :
  is_text_file (PyStr.lower path) = is_text_file path.
Proof.
  unfold is_text_file.
  now rewrite SplitextFacts.ext_lower, CaseFold.lower_lower.
Qed.

(* ================================================================== *)
(** * No parent directory in a sanitized path *)

Module SanitizerFacts.
Import PyStr PosixPath Components.

Lemma split_parts (s : string) :
  Re.all_chars noback s = true -> Forall part_ok (split "/" s).
Proof.
  induction s as [|x s IH]; simpl.
  - intros _. repeat constructor.
  - intros [Hx Hs]%andb_prop. specialize (IH Hs).
    destruct (Ascii.eqb x "/") eqn:E.
    + constructor; [now split | exact IH].
    + destruct (split "/" s) as [|h t].
      * constructor; [|constructor]. split; simpl.
        -- unfold nonslash. now rewrite E.
        -- now rewrite Hx.
      * inversion IH as [|? ? [Hh1 Hh2] Ht]; subst.
        constructor; [|exact Ht]. split; simpl.
        -- unfold nonslash at 1. now rewrite E.
        -- now rewrite Hx.
Qed.

Lemma removelast_Forall (A : Type) (P : A -> Prop) (l : list A) :
  Forall P l -> Forall P (removelast l).
Proof.
  induction 1 as [|x l Hx Hl IH]; simpl; [constructor|].
  destruct l; [constructor | now constructor].
Qed.

Lemma removelast_In (A : Type) (x : A) (l : list A) :
  In x (removelast l) -> In x l.
Proof.
  induction l as [|y l IH]; simpl; [tauto|].
  destruct l as [|z l]; [intros []|].
  intros [->|H]; [now left | right; now apply IH].
Qed.

Lemma last_In (A : Type) (l : list A) (d : A) : l <> [] -> In (last l d) l.
Proof.
  induction l as [|x l IH]; [congruence|]. intros _.
  destruct l as [|y l]; [now left|]. right. apply IH. discriminate.
Qed.

Lemma last_app_cons (A : Type) (l1 l2 : list A) (y d : A) :
  last (l1 ++ y :: l2)%list d = last (y :: l2) d.
Proof.
  induction l1 as [|x l1 IH]; [reflexivity|].
  cbn [app]. change (last (x :: l1 ++ y :: l2)%list d) with
    (match (l1 ++ y :: l2)%list with [] => x | _ => last (l1 ++ y :: l2)%list d end).
  destruct (l1 ++ y :: l2)%list eqn:E; [now destruct l1 | exact IH].
Qed.

Lemma removelast_app_cons (A : Type) (l1 l2 : list A) (y : A) :
  removelast (l1 ++ y :: l2)%list = (l1 ++ removelast (y :: l2))%list.
Proof. apply removelast_app. discriminate. Qed.

Lemma last_repeat (A : Type) (x d : A) (k : nat) :
  k <> 0 -> last (repeat x k) d = x.
Proof.
  induction k as [|k IH]; [congruence|]. intros _.
  destruct k as [|k]; [reflexivity|].
  change (last (repeat x (S (S k))) d) with (last (repeat x (S k)) d).
  apply IH. discriminate.
Qed.

Lemma repeat_snoc (A : Type) (x : A) (k : nat) :
  (repeat x k ++ [x])%list = repeat x (S k).
Proof. induction k as [|k IH]; simpl; [reflexivity | now rewrite IH]. Qed.

Lemma Inv_nil (n : nat) : Inv n [].
Proof.
  split; [constructor|]. split; [intros _ []|].
  intros _. exists 0, []. split; [reflexivity | intros []].
Qed.

(** One step of the loop keeps the invariant. *)
Lemma normpath_step_Inv (n : nat) (l : list string) (comp : string) :
  part_ok comp -> Inv n l -> Inv n (normpath_step n l comp).
Proof.
  intros Hc (HF & Habs & Hrel). unfold normpath_step.
  destruct (String.eqb_spec comp "") as [->|Hne]; [now repeat split|].
  destruct (String.eqb_spec comp ".") as [->|Hnd]; [now repeat split|].
  cbn [orb].
  assert (Hgood : good comp) by now split.
  destruct (String.eqb_spec comp "..") as [->|Hdd]; cbn [negb orb].
  - (* the component is [..] *)
    destruct l as [|x l'] eqn:El.
    + (* nothing kept so far *)
      cbn [is_nil negb andb orb].
      destruct (Nat.eqb_spec n 0) as [->|Hn]; cbn [andb orb app].
      * split; [constructor; [exact Hgood | constructor]|]. split; [congruence|].
        intros _. exists 1, []. split; [reflexivity | intros []].
      * apply Inv_nil.
    + rewrite <- El in *. assert (Hl : l <> []) by (rewrite El; discriminate).
      replace (is_nil l) with false by (rewrite El; reflexivity).
      cbn [negb andb orb]. rewrite andb_false_r. cbn [orb].
      destruct (String.eqb_spec (last l "") "..") as [Hlast|Hlast].
      * (* the last kept is [..]: one more *)
        destruct (Nat.eq_dec n 0) as [Hn|Hn].
        -- destruct (Hrel Hn) as (k & rest & -> & Hrest).
           assert (rest = []) as ->.
           { destruct rest as [|y rest]; [reflexivity|]. exfalso. apply Hrest.
             rewrite last_app_cons in Hlast. rewrite <- Hlast.
             apply last_In. discriminate. }
           rewrite app_nil_r in *. split.
           ++ apply Forall_app. split; [exact HF|].
              constructor; [exact Hgood | constructor].
           ++ split; [congruence|]. intros _. exists (S k), [].
              rewrite app_nil_r. split; [apply repeat_snoc | intros []].
        -- exfalso. apply (Habs Hn). rewrite <- Hlast. now apply last_In.
      * (* the last kept is a name: it goes *)
        split; [now apply removelast_Forall|]. split.
        -- intros Hn Hin. apply (Habs Hn). now apply removelast_In.
        -- intros Hn. destruct (Hrel Hn) as (k & rest & E & Hrest).
           destruct rest as [|y rest].
           ++ exfalso. rewrite app_nil_r in E. apply Hlast. rewrite E.
              apply last_repeat. intros ->. now rewrite E in Hl.
           ++ exists k, (removelast (y :: rest)). split.
              ** rewrite E. apply removelast_app_cons.
              ** intro Hin. apply Hrest. now apply removelast_In.
  - (* a name: it is kept *)
    split; [apply Forall_app; split;
              [exact HF | constructor; [exact Hgood | constructor]]|].
    split.
    + intros Hn [Hin|[E|[]]]%in_app_or; [now apply (Habs Hn) | congruence].
    + intros Hn. destruct (Hrel Hn) as (k & rest & -> & Hrest).
      exists k, (rest ++ [comp])%list. split; [now rewrite app_assoc|].
      intros [Hin|[E|[]]]%in_app_or; [now apply Hrest | congruence].
Qed.

Lemma fold_Inv (n : nat) (comps : list string) :
  Forall part_ok comps ->
  forall l, Inv n l -> Inv n (fold_left (normpath_step n) comps l).
Proof.
  induction 1 as [|c comps Hc Hcs IH]; intros l Hl; [exact Hl|].
  cbn [fold_left]. apply IH. now apply normpath_step_Inv.
Qed.

Lemma replace_id (s : string) :
  Re.all_chars noback s = true -> replace "\" "/" s = s.
Proof.
  induction s as [|x s IH]; simpl; [reflexivity|].
  intros [Hx Hs]%andb_prop. rewrite (IH Hs). unfold noback in Hx.
  now destruct (Ascii.eqb x "\").
Qed.

Lemma all_chars_times (P : Re.cclass) (n : nat) :
  P "/"%char = true -> Re.all_chars P (times "/" n) = true.
Proof. intro H. induction n as [|n IH]; simpl; [reflexivity | now rewrite H, IH]. Qed.

Lemma join_cons (c : string) (l : list string) :
  join "/" (c :: l) = c ++ match l with [] => "" | _ => String "/" (join "/" l) end.
Proof.
  destruct l; simpl; [now rewrite ReFacts.append_nil_r | reflexivity].
Qed.

Lemma all_chars_join (P : Re.cclass) (l : list string) :
  P "/"%char = true ->
  Forall (fun c => Re.all_chars P c = true) l ->
  Re.all_chars P (join "/" l) = true.
Proof.
  intros HP. induction 1 as [|c l Hc Hl IH]; [reflexivity|].
  rewrite join_cons, ReFacts.all_chars_app, Hc. destruct l; [reflexivity|].
  cbn [Re.all_chars]. now rewrite HP, IH.
Qed.

Lemma lstrip_times (n : nat) (s : string) :
  lstrip "/" (times "/" n ++ s) = lstrip "/" s.
Proof. induction n as [|n IH]; simpl; [reflexivity | exact IH]. Qed.

Lemma lstrip_good (c s : string) : good c -> lstrip "/" (c ++ s) = c ++ s.
Proof.
  intros [Hne [Hs _]]. destruct c as [|x c]; [congruence|].
  simpl in *. apply andb_prop in Hs. destruct Hs as [Hx _].
  unfold nonslash in Hx. now destruct (Ascii.eqb x "/").
Qed.

Lemma split_part (a : string) :
  Re.all_chars nonslash a = true -> split "/" a = [a].
Proof.
  induction a as [|x a IH]; simpl; [reflexivity|].
  intros [Hx Ha]%andb_prop. unfold nonslash in Hx.
  destruct (Ascii.eqb x "/"); [discriminate|]. now rewrite (IH Ha).
Qed.

Lemma split_app (a b : string) :
  Re.all_chars nonslash a = true ->
  split "/" (a ++ String "/" b) = a :: split "/" b.
Proof.
  induction a as [|x a IH]; simpl; [reflexivity|].
  intros [Hx Ha]%andb_prop. unfold nonslash in Hx.
  destruct (Ascii.eqb x "/"); [discriminate|]. now rewrite (IH Ha).
Qed.

Lemma split_join (l : list string) :
  Forall good l -> l <> [] -> split "/" (join "/" l) = l.
Proof.
  induction 1 as [|c l [_ [Hc _]] Hl IH]; [congruence|]. intros _.
  rewrite join_cons. destruct l as [|d l].
  - rewrite ReFacts.append_nil_r. now apply split_part.
  - rewrite split_app by exact Hc. f_equal. apply IH. discriminate.
Qed.

Lemma join_nonempty (c : string) (l : list string) (n : nat) :
  c <> "" -> times "/" n ++ join "/" (c :: l) <> "".
Proof.
  intro H. rewrite join_cons. destruct n; simpl; [|discriminate].
  destruct c; [congruence | discriminate].
Qed.

(** What [normpath] returns on a path without backslash: the initial
    slashes and the kept components joined, or a dot when that is empty. *)
Lemma normpath_shape (path : string) :
  Re.all_chars noback path = true ->
  exists n l,
    Inv n l
    /\ normpath path
       = if times "/" n ++ join "/" l =? "" then "."
         else times "/" n ++ join "/" l.
Proof.
  intro H. unfold normpath.
  destruct (String.eqb_spec path "") as [->|_].
  - exists 0, []. split; [apply Inv_nil | reflexivity].
  - eexists _, _. split; [|reflexivity].
    apply fold_Inv; [now apply split_parts | apply Inv_nil].
Qed.

Lemma good_noback (l : list string) :
  Forall good l -> Forall (fun c => Re.all_chars noback c = true) l.
Proof. apply Forall_impl. now intros c [_ [_ H]]. Qed.

Lemma startswith_split (p s : string) :
  startswith p s = true -> exists b, s = p ++ b.
Proof.
  unfold startswith. revert s. induction p as [|a p IH]; intros s; simpl.
  - intros _. now exists s.
  - destruct s as [|x s]; simpl; [discriminate|].
    destruct (ascii_dec a x) as [->|_]; [|discriminate].
    intros [b ->]%IH. now exists b.
Qed.

Lemma contains_split (sub s : string) :
  contains sub s = true -> exists a b, s = a ++ sub ++ b.
Proof.
  induction s as [|x s IH]; cbn [contains].
  - rewrite orb_false_r. intros [b ->]%startswith_split. now exists "", b.
  - intros [H|H]%orb_prop.
    + apply startswith_split in H. destruct H as [b ->]. now exists "", b.
    + destruct (IH H) as (a & b & ->). now exists (String x a), b.
Qed.

Lemma split_append (a b : string) :
  split "/" (a ++ String "/" b) = (split "/" a ++ split "/" b)%list.
Proof.
  induction a as [|x a IH]; simpl; [reflexivity|].
  destruct (Ascii.eqb x "/").
  - now rewrite IH.
  - rewrite IH. destruct (split "/" a) as [|h t] eqn:E; [|reflexivity].
    now elim (split_nonempty "/" a).
Qed.

(** The text [/../] in a string is a component [..] of it. *)
Lemma contains_parent (s : string) :
  contains "/../" s = true -> In ".." (split "/" s).
Proof.
  intros (a & b & ->)%contains_split.
  change (a ++ "/../" ++ b) with (a ++ String "/" (".." ++ String "/" b)).
  rewrite split_append, (split_append ".." b).
  apply in_or_app. right. apply in_or_app. left. now left.
Qed.

Lemma split_times (n : nat) (s : string) :
  split "/" (times "/" n ++ s) = (repeat "" n ++ split "/" s)%list.
Proof. induction n as [|n IH]; simpl; [reflexivity | now rewrite IH]. Qed.

(** On the normalized form of a path without backslash the test for
    [/../] adds nothing to the test for a leading [..]. *)
Lemma parent_inside_is_leading (n : nat) (l : list string) :
  Inv n l ->
  let r := times "/" n ++ join "/" l in
  contains "/../" (if r =? "" then "." else r) = true ->
  startswith ".." (if r =? "" then "." else r) = true.
Proof.
  intros (HF & Habs & Hrel) r H. apply contains_parent in H.
  destruct (String.eqb_spec r "") as [_|Hr].
  { simpl in H. destruct H as [H|[]]. discriminate. }
  unfold r in *. rewrite split_times in H.
  assert (Hl : In ".." l).
  { apply in_app_or in H. destruct H as [H|H].
    - apply repeat_spec in H. discriminate.
    - destruct l as [|c l']; [simpl in H; destruct H as [H|[]]; discriminate|].
      now rewrite (split_join (c :: l') HF) in H by discriminate. }
  destruct (Nat.eq_dec n 0) as [->|Hn]; [|now elim (Habs Hn)].
  destruct (Hrel eq_refl) as (k & rest & -> & Hrest).
  destruct k as [|k]; [now elim Hrest|].
  cbn [repeat app times append]. rewrite join_cons.
  apply PyStrFacts.startswith_app.
Qed.

Lemma nonslash_backslashes (n : nat) :
  Re.all_chars nonslash (times "\" n ++ "..") = true.
Proof. induction n as [|n IH]; simpl; [reflexivity | exact IH]. Qed.

Lemma replace_backslashes (n : nat) (s : string) :
  replace "\" "/" (times "\" n ++ s) = times "/" n ++ replace "\" "/" s.
Proof. induction n as [|n IH]; simpl; [reflexivity | now rewrite IH]. Qed.

Lemma no_parent_in_slashes (n : nat) :
  contains "/../" (times "/" n ++ "..") = false.
Proof.
  induction n as [|n IH]; [reflexivity|].
  change (times "/" (S n) ++ "..") with (String "/" (times "/" n ++ "..")).
  cbn [contains]. rewrite IH, orb_false_r.
  now destruct n.
Qed.

(** [normpath] leaves a run of backslashes before [..] as it is: on
    POSIX the backslash is an ordinary character of a name. *)
Lemma normpath_backslashes (n : nat) :
  normpath (times "\" (S n) ++ "..") = times "\" (S n) ++ "..".
Proof.
  unfold normpath. rewrite (split_part _ (nonslash_backslashes (S n))).
  reflexivity.
Qed.

End SanitizerFacts.

(** X16.  For a path without backslash, a path the sanitizer returns is
    the root, a slash, and a relative path none of whose components is
    [..]: the file is looked for under the root, never above it. *)
Theorem safe_path_no_parent_component (base path result : string) :
  no_backslash path = true ->
  safe_path base path = inr result ->
  exists rel,
    result = PyStr.rstrip "/" base ++ "/" ++ rel
    /\ ~ In ".." (PyStr.split "/" rel).
Proof.
  intros Hb Hs.
  destruct (SanitizerFacts.normpath_shape path Hb) as (n & l & HI & E).
  destruct HI as (HF & Habs & Hrel).
  set (r := PyStr.times "/" n ++ PyStr.join "/" l) in *.
  assert (Hr : Re.all_chars Components.noback r = true).
  { unfold r. rewrite ReFacts.all_chars_app,
      SanitizerFacts.all_chars_times by reflexivity.
    apply SanitizerFacts.all_chars_join; [reflexivity|].
    now apply SanitizerFacts.good_noback. }
  assert (En : normalized_of path = PosixPath.normpath path).
  { unfold normalized_of. apply SanitizerFacts.replace_id. rewrite E.
    destruct (r =? ""); [reflexivity | exact Hr]. }
  unfold safe_path in Hs. rewrite En in Hs.
  destruct (PyStr.startswith ".." (PosixPath.normpath path)) eqn:Hst;
    [discriminate|].
  destruct (PyStr.contains "/../" (PosixPath.normpath path)); [discriminate|].
  injection Hs as <-. eexists. split; [reflexivity|].
  rewrite E in *. destruct l as [|c l'].
  - (* nothing kept: the root itself *)
    unfold r in *. cbn [PyStr.join] in *. rewrite ReFacts.append_nil_r in *.
    destruct (PyStr.times "/" n =? "") eqn:Et.
    + simpl. intros [H|[]]. discriminate.
    + replace (PyStr.lstrip "/" (PyStr.times "/" n)) with ""
        by (rewrite <- (ReFacts.append_nil_r (PyStr.times "/" n)),
              SanitizerFacts.lstrip_times; reflexivity).
      simpl. intros [H|[]]. discriminate.
  - inversion HF as [|? ? Hc Hl']; subst.
    destruct (String.eqb_spec r "") as [Hz|_];
      [now elim (SanitizerFacts.join_nonempty c l' n (proj1 Hc))|].
    unfold r in *. rewrite SanitizerFacts.lstrip_times.
    rewrite SanitizerFacts.join_cons, (SanitizerFacts.lstrip_good _ _ Hc),
      <- SanitizerFacts.join_cons.
    rewrite (SanitizerFacts.split_join (c :: l') HF) by discriminate.
    destruct (Nat.eq_dec n 0) as [Hn|Hn]; [|now apply Habs].
    destruct (Hrel Hn) as (k & rest & El & Hrest).
    destruct k as [|k]; [now rewrite El|].
    exfalso. cbn [repeat app] in El. injection El as -> _.
    subst n. cbn [PyStr.times append] in Hst.
    rewrite SanitizerFacts.join_cons in Hst.
    now rewrite (PyStrFacts.startswith_app ".." _) in Hst.
Qed.

Lemma safe_path_no_parent_component_witness :
  exists rel,
    "/srv/site/b/c.html" = PyStr.rstrip "/" "/srv/site" ++ "/" ++ rel
    /\ ~ In ".." (PyStr.split "/" rel).
Proof.
  exact (safe_path_no_parent_component "/srv/site" "/a/../../b//c.html"
           "/srv/site/b/c.html" eq_refl eq_refl).
Defined.

(* ================================================================== *)
(** * Streaming in blocks *)

Lemma blocks_fuel_bounded (n : nat) :
  0 < n ->
  forall fuel data,
    Forall (fun block => 0 < List.length block <= n) (blocks_fuel fuel n data).
Proof.
  intros Hn. induction fuel as [|fuel IH]; intro data; [constructor|].
  destruct data as [|x data]; [constructor|].
  cbn [blocks_fuel]. constructor; [|apply IH].
  rewrite length_firstn. simpl List.length. lia.
Qed.

(** X17.  The size of the blocks a download is streamed in does not
    matter: for every positive size, each block has between one byte and
    that many, and the blocks written one after the other into the buffer
    give the stored file, all of it. *)
Theorem streamed_blocks_rebuild_file (n : nat) (data : bytes) :
  0 < n ->
  getvalue (iter_by_block n data) = data
  /\ Forall (fun block => 0 < List.length block <= n) (iter_by_block n data).
Proof.
  intro Hn. split.
  - unfold getvalue, iter_by_block. rewrite getvalue_from. simpl.
    now apply concat_blocks_fuel.
  - now apply blocks_fuel_bounded.
Qed.

Lemma streamed_blocks_rebuild_file_witness :
  getvalue (iter_by_block 2 Sample.logo) = Sample.logo
  /\ List.length (iter_by_block 2 Sample.logo) = 2.
Proof.
  split; [|reflexivity].
  exact (proj1 (streamed_blocks_rebuild_file 2 Sample.logo ltac:(lia))).
Defined.

(** X18.  For a path without backslash the sanitizer rejects exactly the
    paths whose normalized form begins with [..]: on such paths the test
    for [/../] never fires on its own. *)
Theorem safe_path_rejects_leading_parent (base path : string) :
  no_backslash path = true ->
  (safe_path base path = inl InvalidPath
   <-> PyStr.startswith ".." (PosixPath.normpath path) = true)
  /\ (PyStr.contains "/../" (PosixPath.normpath path) = true ->
      PyStr.startswith ".." (PosixPath.normpath path) = true).
Proof.
  intros Hb.
  destruct (SanitizerFacts.normpath_shape path Hb) as (n & l & HI & E).
  assert (K : PyStr.contains "/../" (PosixPath.normpath path) = true ->
              PyStr.startswith ".." (PosixPath.normpath path) = true).
  { rewrite E. exact (SanitizerFacts.parent_inside_is_leading n l HI). }
  split; [|exact K].
  assert (En : normalized_of path = PosixPath.normpath path).
  { unfold normalized_of. apply SanitizerFacts.replace_id. rewrite E.
    destruct HI as (HF & _).
    destruct (_ =? ""); [reflexivity|].
    rewrite ReFacts.all_chars_app, SanitizerFacts.all_chars_times by reflexivity.
    apply SanitizerFacts.all_chars_join; [reflexivity|].
    now apply SanitizerFacts.good_noback. }
  unfold safe_path. rewrite En.
  destruct (PyStr.startswith ".." (PosixPath.normpath path)) eqn:Hst.
  - split; reflexivity.
  - destruct (PyStr.contains "/../" (PosixPath.normpath path)) eqn:Hc.
    + specialize (K eq_refl). discriminate.
    + split; discriminate.
Qed.

Lemma safe_path_rejects_leading_parent_witness :
  safe_path "/srv/site" "a/b/../../../c" = inl InvalidPath
  <-> PyStr.startswith ".." (PosixPath.normpath "a/b/../../../c") = true.
Proof.
  exact (proj1 (safe_path_rejects_leading_parent "/srv/site" "a/b/../../../c"
                  eq_refl)).
Defined.

(** X19.  The restriction of X16 and X18 to paths without backslash is
    needed: a path made of backslashes followed by [..] is accepted, and
    the path it resolves to is the parent of the root.  [normpath] keeps
    the backslashes as part of a name, and the replacement that follows
    turns them into separators after the components were resolved. *)
Theorem backslash_parent_accepted (base : string) (n : nat) :
  (0 < n)%nat ->
  safe_path base (PyStr.times "\" n ++ "..")
  = inr (PyStr.rstrip "/" base ++ "/..").
Proof.
  intros Hn. destruct n as [|n]; [lia|].
  unfold safe_path, normalized_of.
  rewrite SanitizerFacts.normpath_backslashes,
    SanitizerFacts.replace_backslashes.
  change (PyStr.replace "\" "/" "..") with "..".
  rewrite SanitizerFacts.no_parent_in_slashes,
    SanitizerFacts.lstrip_times.
  reflexivity.
Qed.

Lemma backslash_parent_accepted_witness :
  safe_path "/srv/site/" (PyStr.times "\" 2 ++ "..") = inr "/srv/site/..".
Proof. exact (backslash_parent_accepted "/srv/site/" 2 ltac:(lia)). Defined.

(* ================================================================== *)
(** * The path of a listed child *)

Module ChildFacts.
Import PyStr PosixPath Components SanitizerFacts.

(** A path is what [rstrip] leaves of it, then slashes. *)
Lemma rstrip_decomp (s : string) :
  exists k, s = rstrip "/" s ++ times "/" k.
Proof.
  induction s as [|x s [k IH]]; [now exists 0|].
  cbn [rstrip]. destruct (rstrip "/" s) as [|y r] eqn:E.
  - destruct (Ascii.eqb_spec x "/") as [->|_].
    + exists (S k). simpl in *. now f_equal.
    + exists k. simpl in *. now f_equal.
  - exists k. cbn [append]. now f_equal.
Qed.

Lemma rstrip_nonslash (c : string) :
  Re.all_chars nonslash c = true -> rstrip "/" c = c.
Proof.
  induction c as [|x c IH]; simpl; [reflexivity|].
  intros [Hx Hc]%andb_prop. rewrite (IH Hc). unfold nonslash in Hx.
  destruct c; [|reflexivity]. now destruct (Ascii.eqb x "/").
Qed.

Lemma rstrip_app_keep (a b : string) :
  b <> "" -> rstrip "/" b = b -> rstrip "/" (a ++ b) = a ++ b.
Proof.
  intros Hb E. induction a as [|x a IH]; simpl; [exact E|].
  rewrite IH. destruct (a ++ b) eqn:F; [|reflexivity].
  destruct a; simpl in F; [congruence | discriminate].
Qed.

Lemma rstrip_app_slash (s : string) : rstrip "/" (s ++ "/") = rstrip "/" s.
Proof. induction s as [|x s IH]; simpl; [reflexivity | now rewrite IH]. Qed.

Lemma rstrip_idem (s : string) : rstrip "/" (rstrip "/" s) = rstrip "/" s.
Proof.
  induction s as [|x s IH]; simpl; [reflexivity|].
  destruct (rstrip "/" s) as [|y r] eqn:E.
  - destruct (Ascii.eqb x "/") eqn:F; simpl; [reflexivity | now rewrite F].
  - cbn [rstrip] in *. now rewrite IH.
Qed.

Lemma join_snoc (l : list string) (x : string) :
  l <> [] -> join "/" (l ++ [x]) = join "/" l ++ String "/" x.
Proof.
  induction l as [|c l IH]; [congruence|]. intros _.
  destruct l as [|d l]; [reflexivity|].
  change (join "/" ((c :: d :: l) ++ [x]))
    with (c ++ "/" ++ join "/" ((d :: l) ++ [x])).
  rewrite IH by discriminate.
  change (join "/" (c :: d :: l)) with (c ++ "/" ++ join "/" (d :: l)).
  now rewrite !PyStrFacts.append_assoc.
Qed.

Lemma lstrip_join (c s : string) (l : list string) :
  good c -> lstrip "/" (join "/" (c :: l) ++ s) = join "/" (c :: l) ++ s.
Proof.
  intros H. rewrite join_cons, PyStrFacts.append_assoc. now apply lstrip_good.
Qed.

Lemma lstrip_join_all (c : string) (l : list string) :
  good c -> lstrip "/" (join "/" (c :: l)) = join "/" (c :: l).
Proof. intros H. rewrite join_cons. now apply lstrip_good. Qed.

Lemma rstrip_join (l : list string) :
  Forall good l -> l <> [] -> rstrip "/" (join "/" l) = join "/" l.
Proof.
  induction 1 as [|c l [Hne [Hc _]] Hl IH]; [congruence|]. intros _.
  rewrite join_cons. destruct l as [|d l].
  - rewrite ReFacts.append_nil_r. now apply rstrip_nonslash.
  - assert (Hj : join "/" (d :: l) <> "").
    { inversion Hl as [|? ? [Hd _] _]; subst.
      exact (join_nonempty d l 0 Hd). }
    apply rstrip_app_keep; [discriminate|].
    apply (rstrip_app_keep "/"); [exact Hj | apply IH; discriminate].
Qed.

Lemma split_slashes (p : string) (k : nat) :
  split "/" (p ++ times "/" k) = (split "/" p ++ repeat "" k)%list.
Proof.
  destruct k as [|k].
  - simpl. now rewrite ReFacts.append_nil_r, app_nil_r.
  - change (times "/" (S k)) with (String "/" (times "/" k)).
    rewrite split_append. f_equal.
    rewrite <- (ReFacts.append_nil_r (times "/" k)), split_times.
    apply repeat_snoc.
Qed.

(** The loop of [normpath] skips empty components. *)
Lemma fold_empties (n k : nat) (l : list string) :
  fold_left (normpath_step n) (repeat "" k) l = l.
Proof. induction k as [|k IH]; simpl; [reflexivity | exact IH]. Qed.

(** The loop looks at the number of initial slashes only to see whether
    there are any. *)
Lemma fold_slashes (n n' : nat) (comps l : list string) :
  (n =? 0)%nat = (n' =? 0)%nat ->
  fold_left (normpath_step n) comps l = fold_left (normpath_step n') comps l.
Proof.
  intros H. revert l. induction comps as [|c comps IH]; intros l;
    [reflexivity|].
  cbn [fold_left]. rewrite IH. f_equal. unfold normpath_step. now rewrite H.
Qed.

Lemma step_name (n : nat) (l : list string) (c : string) :
  c <> "" -> c <> "." -> c <> ".." ->
  normpath_step n l c = (l ++ [c])%list.
Proof.
  intros H1 H2 H3. unfold normpath_step.
  destruct (String.eqb_spec c ""); [contradiction|].
  destruct (String.eqb_spec c "."); [contradiction|].
  destruct (String.eqb_spec c ".."); [contradiction|]. reflexivity.
Qed.

(** [normpath] on a path that is not empty, with the number of initial
    slashes named. *)
Lemma normpath_unfold (path : string) :
  path <> "" ->
  exists n,
    (n =? 0)%nat = negb (startswith "/" path)
    /\ normpath path
       = if times "/" n
            ++ join "/" (fold_left (normpath_step n) (split "/" path) [])
            =? ""
         then "."
         else times "/" n
              ++ join "/" (fold_left (normpath_step n) (split "/" path) []).
Proof.
  intros H. unfold normpath.
  destruct (String.eqb_spec path "") as [E|_]; [contradiction|].
  cbv zeta. destruct (startswith "/" path).
  - destruct (startswith "//" path && negb (startswith "///" path)).
    + now exists 2.
    + now exists 1.
  - now exists 0.
Qed.

Lemma startswith_char (c x : ascii) (s : string) :
  startswith (String c "") (String x s) = if ascii_dec c x then true else false.
Proof.
  unfold startswith. cbn [prefix].
  destruct (ascii_dec c x); [now destruct s | reflexivity].
Qed.

Lemma startswith_slash_child (path name : string) :
  path <> "" ->
  startswith "/" (rstrip "/" path ++ String "/" name) = startswith "/" path.
Proof.
  intros H. destruct (rstrip_decomp path) as [k E].
  destruct (rstrip "/" path) as [|x p].
  - destruct k as [|k]; cbn [times append] in E; [congruence|]. rewrite E.
    cbn [append]. now rewrite !startswith_char.
  - rewrite E. cbn [append]. now rewrite !startswith_char.
Qed.

Lemma startswith_dots_app (a b : string) :
  startswith ".." a = false -> startswith ".." (a ++ String "/" b) = false.
Proof.
  unfold startswith. destruct a as [|x [|y a]]; cbn [prefix append].
  - intros _. destruct (ascii_dec "." "/") as [E|_];
      [discriminate E | reflexivity].
  - intros _. destruct (ascii_dec "." x); [|reflexivity].
    destruct (ascii_dec "." "/") as [E|_]; [discriminate E | reflexivity].
  - destruct (ascii_dec "." x); [|reflexivity].
    destruct (ascii_dec "." y); [|reflexivity].
    now destruct a.
Qed.

End ChildFacts.

(** The sanitizer on the path of a child: for a directory path that it
    accepts, that has no backslash and does not normalize to a single dot,
    and for a proper file name, [path.rstrip('/') + '/' + name] is
    accepted and resolves to the remote path of the directory, without
    trailing slashes, followed by a slash and the name. *)
Lemma child_path_resolves (base path name r : string) :
  no_backslash path = true ->
  Components.good name -> name <> "." -> name <> ".." ->
  PosixPath.normpath path <> "." ->
  safe_path base path = inr r ->
  safe_path base (PyStr.rstrip "/" path ++ "/" ++ name)
  = inr (PyStr.rstrip "/" r ++ "/" ++ name).
Proof.
  intros Hb Hname Hnd Hndd Hdot Hr.
  change (Re.all_chars Components.noback path = true) in Hb.
  assert (Hpne : path <> "") by (intros ->; now apply Hdot).
  change (PyStr.rstrip "/" path ++ "/" ++ name)
    with (PyStr.rstrip "/" path ++ String "/" name).
  pose proof (ChildFacts.startswith_slash_child path name Hpne) as Hsl.
  destruct (ChildFacts.rstrip_decomp path) as [k Ek].
  remember (PyStr.rstrip "/" path) as p eqn:Ep. clear Ep.
  destruct Hname as [Hne [Hns Hnb]].
  assert (Hbp : Re.all_chars Components.noback p = true).
  { rewrite Ek, ReFacts.all_chars_app in Hb. now apply andb_prop in Hb. }
  assert (Hbe : Re.all_chars Components.noback (p ++ String "/" name) = true).
  { rewrite ReFacts.all_chars_app, Hbp. simpl. exact Hnb. }
  assert (He : p ++ String "/" name <> "") by (destruct p; discriminate).
  destruct (ChildFacts.normpath_unfold path Hpne) as (n & Hn & En).
  destruct (ChildFacts.normpath_unfold _ He) as (n' & Hn' & En').
  assert (Hnn : (n' =? 0)%nat = (n =? 0)%nat) by (now rewrite Hn, Hn', Hsl).
  assert (HI : Components.Inv n
                 (fold_left (PosixPath.normpath_step n) (PyStr.split "/" path) [])).
  { apply SanitizerFacts.fold_Inv;
      [now apply SanitizerFacts.split_parts | apply SanitizerFacts.Inv_nil]. }
  assert (HI' : Components.Inv n'
                  (fold_left (PosixPath.normpath_step n')
                     (PyStr.split "/" (p ++ String "/" name)) [])).
  { apply SanitizerFacts.fold_Inv;
      [now apply SanitizerFacts.split_parts | apply SanitizerFacts.Inv_nil]. }
  assert (El : fold_left (PosixPath.normpath_step n')
                 (PyStr.split "/" (p ++ String "/" name)) []
               = (fold_left (PosixPath.normpath_step n) (PyStr.split "/" path) []
                  ++ [name])%list).
  { rewrite SanitizerFacts.split_append,
      (SanitizerFacts.split_part name Hns), fold_left_app.
    cbn [fold_left]. rewrite ChildFacts.step_name by assumption. f_equal.
    rewrite (ChildFacts.fold_slashes n' n) by exact Hnn.
    rewrite Ek at 1. rewrite ChildFacts.split_slashes, fold_left_app.
    now rewrite ChildFacts.fold_empties. }
  rewrite El in En', HI'.
  remember (fold_left (PosixPath.normpath_step n) (PyStr.split "/" path) [])
    as l eqn:Hl. clear Hl.
  (* the listed directory *)
  destruct (String.eqb_spec (PyStr.times "/" n ++ PyStr.join "/" l) "")
    as [E0|N0]; [contradiction|].
  assert (Hgl : Forall Components.good l) by apply HI.
  unfold safe_path, normalized_of in Hr. rewrite En in Hr.
  rewrite SanitizerFacts.replace_id in Hr.
  2:{ rewrite ReFacts.all_chars_app, SanitizerFacts.all_chars_times
        by reflexivity.
      apply SanitizerFacts.all_chars_join; [reflexivity|].
      now apply SanitizerFacts.good_noback. }
  destruct (PyStr.startswith ".." (PyStr.times "/" n ++ PyStr.join "/" l))
    eqn:Hs; [discriminate|].
  destruct (PyStr.contains "/../" (PyStr.times "/" n ++ PyStr.join "/" l));
    [discriminate|].
  cbn [orb] in Hr. injection Hr as <-.
  (* the entry *)
  assert (Hgl' : Forall Components.good (l ++ [name])) by apply HI'.
  assert (N1 : PyStr.times "/" n' ++ PyStr.join "/" (l ++ [name]) <> "").
  { destruct (l ++ [name])%list as [|c t] eqn:F;
      [now destruct l|].
    inversion Hgl' as [|? ? [Hc _] _]; subst.
    now apply SanitizerFacts.join_nonempty. }
  pose proof (SanitizerFacts.parent_inside_is_leading n' _ HI') as K.
  cbv zeta in K.
  destruct (String.eqb_spec (PyStr.times "/" n' ++ PyStr.join "/" (l ++ [name])) "")
    as [E1|_]; [contradiction|].
  unfold safe_path, normalized_of. rewrite En'.
  rewrite SanitizerFacts.replace_id.
  2:{ rewrite ReFacts.all_chars_app, SanitizerFacts.all_chars_times
        by reflexivity.
      apply SanitizerFacts.all_chars_join; [reflexivity|].
      now apply SanitizerFacts.good_noback. }
  assert (Hs1 : PyStr.startswith ".."
                  (PyStr.times "/" n' ++ PyStr.join "/" (l ++ [name])) = false).
  { destruct n' as [|m]; [|reflexivity].
    destruct n as [|m]; [|discriminate].
    assert (l <> []) by (intros ->; now apply N0).
    cbn [PyStr.times append] in *.
    rewrite ChildFacts.join_snoc by assumption.
    now apply ChildFacts.startswith_dots_app. }
  rewrite Hs1.
  destruct (PyStr.contains "/../"
              (PyStr.times "/" n' ++ PyStr.join "/" (l ++ [name]))).
  { specialize (K eq_refl). congruence. }
  cbn [orb]. f_equal. rewrite !SanitizerFacts.lstrip_times.
  destruct l as [|c l0].
  - cbn [app PyStr.join PyStr.lstrip].
    rewrite <- (ReFacts.append_nil_r name) at 1.
    rewrite SanitizerFacts.lstrip_good by (repeat split; assumption).
    rewrite ReFacts.append_nil_r.
    change (PyStr.rstrip "/" base ++ "/" ++ "")
      with (PyStr.rstrip "/" base ++ "/").
    now rewrite ChildFacts.rstrip_app_slash, ChildFacts.rstrip_idem.
  - assert (Hc : Components.good c) by now inversion Hgl.
    rewrite ChildFacts.join_snoc by discriminate.
    rewrite ChildFacts.lstrip_join, ChildFacts.lstrip_join_all by exact Hc.
    assert (Hj : PyStr.join "/" (c :: l0) <> "").
    { exact (SanitizerFacts.join_nonempty c l0 0 (proj1 Hc)). }
    assert (R : PyStr.rstrip "/"
                  (PyStr.rstrip "/" base ++ "/" ++ PyStr.join "/" (c :: l0))
                = PyStr.rstrip "/" base ++ "/" ++ PyStr.join "/" (c :: l0)).
    { apply ChildFacts.rstrip_app_keep; [discriminate|].
      apply (ChildFacts.rstrip_app_keep "/"); [exact Hj|].
      apply ChildFacts.rstrip_join; [exact Hgl | discriminate]. }
    change (PyStr.rstrip "/" base ++ "/"
              ++ PyStr.join "/" (c :: l0) ++ String "/" name
            = PyStr.rstrip "/"
                (PyStr.rstrip "/" base ++ "/" ++ PyStr.join "/" (c :: l0))
              ++ "/" ++ name).
    rewrite R. now rewrite !PyStrFacts.append_assoc.
Qed.

(** Whatever the faults, the entries [ftp_list] answers with have the
    shape [entry_ok]. *)
Lemma ftp_list_entries_ok
    (cfg : Config) (net : Faults) (guess_type : string -> option string)
    (py_int : string -> option Z)
    (server_list : string -> string + list (string * Info))
    (path : string) (r : Remote) (entries : list DirectoryEntry.t) :
  fst (ftp_list cfg net guess_type py_int server_list (Some path) r)
  = inr entries ->
  Forall (entry_ok path) entries.
Proof.
  unfold ftp_list. destruct (safe_path (FTP_BASE cfg) path) as [e|ftp_path];
    [discriminate|].
  unfold ftp_connection, client_connect, client_login, client_quit,
    client_list, finally, bind, may_fail, log, ret, raise.
  destruct (connect_fault net), (login_fault net), (transfer_fault net),
    (quit_fault net), (server_list ftp_path) as [e|items];
    cbn; try discriminate;
    destruct (list_loop guess_type py_int path items []) as [e|out] eqn:L;
    cbn; try discriminate;
    intros [= <-]; exact (list_loop_ok _ _ _ _ _ _ (Forall_nil _) L).
Qed.

Lemma no_slash_chars (s : string) :
  PyStr.contains "/" s = false -> Re.all_chars Components.nonslash s = true.
Proof.
  induction s as [|x s IH]; [reflexivity|].
  cbn [PyStr.contains Re.all_chars]. rewrite ChildFacts.startswith_char.
  unfold Components.nonslash at 1.
  destruct (ascii_dec "/" x) as [<-|N]; [discriminate|].
  intros H. cbn [orb] in H. rewrite (IH H), andb_true_r.
  destruct (Ascii.eqb_spec x "/") as [->|_]; [now elim N | reflexivity].
Qed.

(** X20.  The path [ftp_list] gives an entry leads to the child: when the
    listed path has no backslash and does not normalize to a single dot,
    then, whatever the faults, for every entry of the answer whose name
    has no backslash and is neither [.] nor [..], the sanitizer accepts
    the entry's path and resolves it to the remote path of the listed
    directory, without trailing slashes, followed by a slash and the
    entry's name. *)
Theorem listed_child_resolves
    (cfg : Config) (net : Faults) (guess_type : string -> option string)
    (py_int : string -> option Z)
    (server_list : string -> string + list (string * Info))
    (path ftp_path : string) (r : Remote) (entries : list DirectoryEntry.t) :
  no_backslash path = true ->
  PosixPath.normpath path <> "." ->
  safe_path (FTP_BASE cfg) path = inr ftp_path ->
  fst (ftp_list cfg net guess_type py_int server_list (Some path) r)
  = inr entries ->
  Forall (fun entry =>
            no_backslash (DirectoryEntry.name entry) = true ->
            DirectoryEntry.name entry <> "." ->
            DirectoryEntry.name entry <> ".." ->
            safe_path (FTP_BASE cfg) (DirectoryEntry.path entry)
            = inr (PyStr.rstrip "/" ftp_path ++ "/" ++ DirectoryEntry.name entry))
         entries.
Proof.
  intros Hb Hdot Hs Hl.
  apply (Forall_impl _ (P := entry_ok path));
    [|exact (ftp_list_entries_ok _ _ _ _ _ _ _ _ Hl)].
  intros entry (Hne & Hslash & Hpath & _) Hnb Hd Hdd.
  rewrite Hpath.
  apply child_path_resolves; try assumption.
  split; [exact Hne|]. split; [now apply no_slash_chars | exact Hnb].
Qed.

Lemma listed_child_resolves_witness :
  exists entries,
    fst (SampleListing.list (Some "/img/") Sample.remote) = inr entries
    /\ Forall (fun entry =>
                 no_backslash (DirectoryEntry.name entry) = true ->
                 DirectoryEntry.name entry <> "." ->
                 DirectoryEntry.name entry <> ".." ->
                 safe_path (FTP_BASE Sample.cfg) (DirectoryEntry.path entry)
                 = inr (PyStr.rstrip "/" "/srv/site/img" ++ "/"
                        ++ DirectoryEntry.name entry))
              entries.
Proof.
  eexists. split; [reflexivity|].
  apply (listed_child_resolves Sample.cfg no_faults Sample.guess_type
           SampleListing.py_int SampleListing.server_list "/img/"
           "/srv/site/img" Sample.remote).
  - reflexivity.
  - discriminate.
  - reflexivity.
  - reflexivity.
Defined.

(* ================================================================== *)
(** * The CSRF guard *)

Module CsrfFacts.
Import PyStr.

Lemma split_one (c : ascii) (s b : string) : split c s = [b] -> s = b.
Proof.
  revert b. induction s as [|x s IH]; intros b; cbn [split].
  - now intros [= <-].
  - destruct (Ascii.eqb x c).
    + intros [= _ H]. now elim (split_nonempty c s).
    + destruct (split c s) as [|h t] eqn:E;
        [now elim (split_nonempty c s)|].
      intros [= <- ->]. now rewrite (IH h eq_refl).
Qed.

(** A string that splits in two is the two parts around the separator. *)
Lemma split_two (c : ascii) (s a b : string) :
  split c s = [a; b] -> s = a ++ String c b.
Proof.
  revert a. induction s as [|x s IH]; intros a; cbn [split];
    [discriminate|].
  destruct (Ascii.eqb_spec x c) as [->|_].
  - intros [= <- H]. now rewrite (split_one c s b H).
  - destruct (split c s) as [|h t] eqn:E; [discriminate|].
    intros [= <- ->]. now rewrite (IH h eq_refl).
Qed.

Lemma split_single (c : ascii) (s : string) :
  contains (String c "") s = false -> split c s = [s].
Proof.
  induction s as [|x s IH]; [reflexivity|].
  cbn [contains split]. rewrite ChildFacts.startswith_char.
  destruct (ascii_dec c x) as [<-|N]; [discriminate|].
  cbn [orb]. intros H. rewrite (IH H).
  destruct (Ascii.eqb_spec x c) as [->|_]; [now elim N | reflexivity].
Qed.

Lemma split_pair (c : ascii) (a b : string) :
  contains (String c "") a = false ->
  split c (a ++ String c b) = a :: split c b.
Proof.
  induction a as [|x a IH]; cbn [contains split append].
  - intros _. now rewrite Ascii.eqb_refl.
  - rewrite ChildFacts.startswith_char.
    destruct (ascii_dec c x) as [<-|N]; [discriminate|].
    cbn [orb]. intros H. rewrite (IH H).
    destruct (Ascii.eqb_spec x c) as [->|_]; [now elim N | reflexivity].
Qed.

(** The parts of a token made of a timestamp and a signature that have
    no dot. *)
Lemma split_token (timestamp signature : string) :
  contains "." timestamp = false ->
  contains "." signature = false ->
  split "." (timestamp ++ "." ++ signature) = [timestamp; signature].
Proof.
  intros H1 H2.
  change (timestamp ++ "." ++ signature)
    with (timestamp ++ String "." signature).
  now rewrite split_pair, split_single.
Qed.

Lemma compare_digest_true (a b : string) :
  compare_digest a b = Some true -> a = b.
Proof.
  unfold compare_digest.
  destruct (_ && _); [|discriminate].
  intros [= H]. now apply String.eqb_eq.
Qed.

Lemma token_not_empty (timestamp signature : string) :
  timestamp ++ "." ++ signature <> "".
Proof. destruct timestamp; discriminate. Qed.

(** A guarded request is not the request for a token. *)
Lemma guarded_not_issue (request : Request.t) :
  guarded request ->
  (Request.url_path request =? "/api/csrf-token")
  && (Request.method request =? "GET") = false.
Proof.
  intros [Hm _]. apply andb_false_iff. right.
  cbn [existsb CSRF_SAFE_METHODS] in Hm.
  apply orb_false_iff in Hm. exact (proj1 Hm).
Qed.

End CsrfFacts.

Section CsrfGuard.

Variable hexdigest : string -> string.
Variable py_int : string -> option Z.
Variable py_str : Z -> string.
Variable issue_time : Z.
Variable elapsed : Z -> option QArith_base.Q.

(** What [dispatch] does with a guarded request that carries a token. *)
Lemma dispatch_guarded (A : Type) (request : Request.t)
    (call_next : Request.t -> A) (token : string) :
  guarded request ->
  Request.csrf_token request = Some token ->
  token <> "" ->
  dispatch hexdigest py_int py_str issue_time elapsed request call_next
  = match _validate_csrf_token hexdigest py_int elapsed token with
    | inl e => Raised e
    | inr false => Forbidden
    | inr true => Forwarded (call_next request)
    end.
Proof.
  intros Hg Ht Hne. unfold dispatch.
  rewrite (CsrfFacts.guarded_not_issue request Hg).
  destruct Hg as [Hm Hp]. rewrite Hm, Hp, Ht. cbn [negb andb].
  destruct token; [congruence | reflexivity].
Qed.

End CsrfGuard.

(** X21.  The guard is sound: when [dispatch] passes on to the
    application a request under [/api/] whose method is not GET, HEAD or
    OPTIONS, the request carries a token [timestamp.signature] whose
    timestamp reads as an integer, is at most 3600 seconds old on the
    clock, and whose signature is the keyed digest of the timestamp. *)
Theorem guarded_request_needs_token
    (A : Type) (hexdigest : string -> string) (py_int : string -> option Z)
    (py_str : Z -> string) (issue_time : Z)
    (elapsed : Z -> option QArith_base.Q)
    (request : Request.t) (call_next : Request.t -> A) (response : A) :
  guarded request ->
  dispatch hexdigest py_int py_str issue_time elapsed request call_next
  = Forwarded response ->
  exists timestamp signature issued_at age,
    Request.csrf_token request = Some (timestamp ++ "." ++ signature)
    /\ py_int timestamp = Some issued_at
    /\ elapsed issued_at = Some age
    /\ QArith_base.Qle_bool age (QArith_base.inject_Z CSRF_TOKEN_TTL) = true
    /\ signature = hexdigest timestamp.
Proof.
  intros Hg. unfold dispatch.
  rewrite (CsrfFacts.guarded_not_issue request Hg).
  destruct Hg as [Hm Hp]. rewrite Hm, Hp. cbn [negb andb].
  destruct (Request.csrf_token request) as [[|x token]|]; try discriminate.
  unfold _validate_csrf_token.
  destruct (PyStr.split "." (String x token))
    as [|timestamp [|signature [|? ?]]] eqn:Hs; try discriminate.
  destruct (py_int timestamp) as [issued_at|] eqn:Hi; [|discriminate].
  destruct (elapsed issued_at) as [age|] eqn:He; [|discriminate].
  destruct (QArith_base.Qle_bool age (QArith_base.inject_Z CSRF_TOKEN_TTL))
    eqn:Hq; cbn [negb]; [|discriminate].
  cbv zeta.
  destruct (compare_digest signature (hexdigest timestamp)) as [[|]|] eqn:Hc;
    try discriminate.
  intros _. exists timestamp, signature, issued_at, age.
  rewrite (CsrfFacts.split_two _ _ _ _ Hs).
  repeat split; try assumption; try reflexivity.
  now apply CsrfFacts.compare_digest_true.
Qed.

Lemma guarded_request_needs_token_witness :
  exists timestamp signature issued_at age,
    Some SampleCsrf.token = Some (timestamp ++ "." ++ signature)
    /\ SampleListing.py_int timestamp = Some issued_at
    /\ SampleCsrf.elapsed issued_at = Some age
    /\ QArith_base.Qle_bool age (QArith_base.inject_Z CSRF_TOKEN_TTL) = true
    /\ signature = SampleCsrf.hexdigest timestamp.
Proof.
  apply (guarded_request_needs_token string SampleCsrf.hexdigest
           SampleListing.py_int SampleCsrf.py_str 1700000000
           SampleCsrf.elapsed (SampleCsrf.post (Some SampleCsrf.token))
           (fun _ => "handled") "handled").
  - split; reflexivity.
  - reflexivity.
Defined.

(** X22.  A token of the application is accepted while it is fresh: when
    [str] of the time of issue and its keyed digest have no dot, the
    digest is ASCII, [int] reads the timestamp back, and the clock is at
    most 3600 seconds past it, a guarded request that carries the token
    [_generate_csrf_token] made is passed on to the application. *)
Theorem fresh_token_accepted
    (A : Type) (hexdigest : string -> string) (py_int : string -> option Z)
    (py_str : Z -> string) (issue_time : Z)
    (elapsed : Z -> option QArith_base.Q) (age : QArith_base.Q)
    (request : Request.t) (call_next : Request.t -> A) :
  PyStr.contains "." (py_str issue_time) = false ->
  PyStr.contains "." (hexdigest (py_str issue_time)) = false ->
  Re.all_chars is_ascii_char (hexdigest (py_str issue_time)) = true ->
  py_int (py_str issue_time) = Some issue_time ->
  elapsed issue_time = Some age ->
  QArith_base.Qle_bool age (QArith_base.inject_Z CSRF_TOKEN_TTL) = true ->
  guarded request ->
  Request.csrf_token request
  = Some (_generate_csrf_token hexdigest py_str issue_time) ->
  _validate_csrf_token hexdigest py_int elapsed
    (_generate_csrf_token hexdigest py_str issue_time) = inr true
  /\ dispatch hexdigest py_int py_str issue_time elapsed request call_next
     = Forwarded (call_next request).
Proof.
  intros Hd1 Hd2 Ha Hi He Hq Hg Ht.
  assert (V : _validate_csrf_token hexdigest py_int elapsed
                (_generate_csrf_token hexdigest py_str issue_time) = inr true).
  { unfold _validate_csrf_token, _generate_csrf_token. cbv zeta.
    rewrite (CsrfFacts.split_token _ _ Hd1 Hd2), Hi, He, Hq. cbn [negb].
    unfold compare_digest. rewrite Ha. cbn [andb].
    now rewrite String.eqb_refl. }
  split; [exact V|].
  rewrite (dispatch_guarded hexdigest py_int py_str issue_time elapsed A
             request call_next _ Hg Ht (CsrfFacts.token_not_empty _ _)).
  now rewrite V.
Qed.

Lemma fresh_token_accepted_witness :
  _validate_csrf_token SampleCsrf.hexdigest SampleListing.py_int
    SampleCsrf.elapsed SampleCsrf.token = inr true
  /\ SampleCsrf.run (SampleCsrf.post (Some SampleCsrf.token))
     = Forwarded "handled".
Proof.
  apply (fresh_token_accepted string SampleCsrf.hexdigest SampleListing.py_int
           SampleCsrf.py_str 1700000000 SampleCsrf.elapsed
           (QArith_base.Qminus (QArith_base.Qmake 3400000051 2)
              (QArith_base.inject_Z 1700000000))
           (SampleCsrf.post (Some SampleCsrf.token)) (fun _ => "handled")).
  - reflexivity.
  - reflexivity.
  - reflexivity.
  - reflexivity.
  - reflexivity.
  - reflexivity.
  - split; reflexivity.
  - reflexivity.
Defined.

(** X23.  A signature with a character that is not ASCII is not answered
    with 403: for a guarded request whose token has a timestamp that
    reads as an integer at most 3600 seconds old, the comparison of the
    signatures raises [TypeError], and [dispatch] lets it escape. *)
Theorem non_ascii_signature_raises
    (A : Type) (hexdigest : string -> string) (py_int : string -> option Z)
    (py_str : Z -> string) (issue_time : Z)
    (elapsed : Z -> option QArith_base.Q)
    (timestamp signature : string) (issued_at : Z) (age : QArith_base.Q)
    (request : Request.t) (call_next : Request.t -> A) :
  guarded request ->
  Request.csrf_token request = Some (timestamp ++ "." ++ signature) ->
  PyStr.contains "." timestamp = false ->
  PyStr.contains "." signature = false ->
  py_int timestamp = Some issued_at ->
  elapsed issued_at = Some age ->
  QArith_base.Qle_bool age (QArith_base.inject_Z CSRF_TOKEN_TTL) = true ->
  Re.all_chars is_ascii_char signature = false ->
  dispatch hexdigest py_int py_str issue_time elapsed request call_next
  = Raised TypeError.
Proof.
  intros Hg Ht Hd1 Hd2 Hi He Hq Hn.
  rewrite (dispatch_guarded hexdigest py_int py_str issue_time elapsed A
             request call_next _ Hg Ht (CsrfFacts.token_not_empty _ _)).
  unfold _validate_csrf_token.
  rewrite (CsrfFacts.split_token _ _ Hd1 Hd2), Hi, He, Hq. cbn [negb].
  cbv zeta. unfold compare_digest. now rewrite Hn.
Qed.

Lemma non_ascii_signature_raises_witness :
  SampleCsrf.run
    (SampleCsrf.post
       (Some ("1700000000" ++ "." ++ String (ascii_of_nat 233) "bc")))
  = Raised TypeError.
Proof.
  apply (non_ascii_signature_raises string SampleCsrf.hexdigest
           SampleListing.py_int SampleCsrf.py_str 1700000000
           SampleCsrf.elapsed "1700000000" (String (ascii_of_nat 233) "bc")
           1700000000
           (QArith_base.Qminus (QArith_base.Qmake 3400000051 2)
              (QArith_base.inject_Z 1700000000))).
  - split; reflexivity.
  - reflexivity.
  - reflexivity.
  - reflexivity.
  - reflexivity.
  - reflexivity.
  - reflexivity.
  - reflexivity.
Defined.
